(** * The conversational transaction-confirmation pipeline

  A shallow embedding of the chat core of the opBNB assistant:
  - [geminiAI.ts]: [parseAIResponse], [processUserInput],
    [generateSmartTotalSupply], [generateTokenSymbol];
  - [conversationStore.ts]: the store, [confirmAction], [rejectAction],
    [partialize] and [merge];
  - [AIChat.tsx]: [handleSendMessage], [handleConfirmationResponse],
    [handleUploadComplete], [handleNFTDetailsAfterUpload];
  and of what surrounds it:
  - [priceService.ts]: [getBNBPrice] with its cache and its sources;
  - [blockchainService.ts]: [sendTransaction];
  - [greenfieldService.ts] and [UploadButton.tsx]: [validateImageFile],
    [uploadImage], [handleFileSelect];
  - [MessageRenderer.tsx]: [parseContent], [parseBlockchainData],
    [renderLine];
  - [OptimizedTokenFactory.sol]: [createToken] and the views of the
    registry.

  A JavaScript string is held as a [string], the bytes of its UTF-8
  encoding (a surrogate that stands alone is encoded as any other code
  point of three bytes).  What the source asks of a string is computed on
  these bytes as JavaScript computes it on the UTF-16 code units:
  [length], [substring] and [charAt] count code units, [trim] and the
  class [\s] know the white space and the line terminators of ECMAScript,
  [.] stops at its four line terminators, and the patterns, whose
  characters are all ASCII, are matched byte by byte.  The case
  conversions [toLowerCase] and [toUpperCase] follow the Unicode tables of
  the engine, which are no part of the source: on a string of ASCII
  characters they are the conversions of the letters A to Z, on any other
  string they are what the engine ([Engine]) answers, and every statement
  holds whatever it answers.  Values coming out of [JSON.parse] are
  dynamically typed and are modelled by the type [value]: numbers are
  IEEE doubles, objects are finite maps.  Exceptions are explicit
  ([completion]), and so are the collaborators (the oracle, [JSON.parse],
  the wallet, the submission calls, the clock): a handler is a function
  of their outcomes ([Env]) and of the session.  Handlers run to
  completion one after the other, each on the state the last one left. *)

From Stdlib Require Import ZArith Bool Ascii String List Floats Lia.
From stdpp Require Import base option list gmap strings pretty.

Set Warnings "-register-all,-inexact-float".
Local Open Scope string_scope.

(** ** JavaScript string primitives *)

Module JSString.

Definition code (c : ascii) : nat := nat_of_ascii c.

Definition chr (n : N) : ascii := ascii_of_N n.

(** *** Characters and code units *)

(** The encoding of a code point on three bytes. *)
Definition three_bytes (n : N) : string :=
  String (chr (224 + (n / 4096) mod 16))
    (String (chr (128 + (n / 64) mod 64))
       (String (chr (128 + n mod 64)) EmptyString)).

(** The UTF-8 encoding of a code point. *)
Definition utf8 (n : N) : string :=
  (if n <? 128 then String (chr n) EmptyString
   else if n <? 2048 then
     String (chr (192 + (n / 64) mod 32))
       (String (chr (128 + n mod 64)) EmptyString)
   else if n <? 65536 then three_bytes n
   else
     String (chr (240 + (n / 262144) mod 8))
       (String (chr (128 + (n / 4096) mod 64))
          (String (chr (128 + (n / 64) mod 64))
             (String (chr (128 + n mod 64)) EmptyString))))%N.

(** The UTF-16 code units of the character that the byte [c] starts: two
    for a character of four bytes (beyond the Basic Multilingual Plane),
    one for any other, none for a byte inside a character. *)
Definition units (c : ascii) : nat :=
  let n := code c in
  if (n <? 128)%nat then 1
  else if (n <? 192)%nat then 0
  else if (n <? 240)%nat then 1
  else 2.

(** [s.length] *)
Fixpoint js_length (s : string) : nat :=
  match s with
  | EmptyString => 0
  | String c s' => units c + js_length s'
  end.

(** The code point of the character of four bytes that starts with [c]
    and goes on in [s]. *)
Definition code_point (c : ascii) (s : string) : N :=
  let low (k : nat) : N :=
    match String.get k s with
    | Some b => N_of_ascii b mod 64
    | None => 0
    end%N in
  ((N_of_ascii c mod 8) * 262144 + low 0%nat * 4096 + low 1%nat * 64 + low 2%nat)%N.

(** The first code unit of that character: its high surrogate. *)
Definition high_surrogate (c : ascii) (s : string) : string :=
  three_bytes (55296 + (code_point c s - 65536) / 1024)%N.

(** [s.substring(0, n)]: the characters are taken while code units are
    left; of a character of two code units only the first is taken when
    one is left. *)
Fixpoint substring0 (n : nat) (s : string) : string :=
  match s with
  | EmptyString => EmptyString
  | String c s' =>
      match units c with
      | 0 => String c (substring0 n s')
      | 1 =>
          match n with
          | 0 => EmptyString
          | S n' => String c (substring0 n' s')
          end
      | _ =>
          match n with
          | 0 => EmptyString
          | 1 => high_surrogate c s'
          | S (S n') => String c (substring0 n' s')
          end
      end
  end.

(** [s.charAt(0)]: the empty string when [s] is empty. *)
Definition charAt0 (s : string) : string := substring0 1 s.

(** *** White space *)

(** The white space and the line terminators of ECMAScript, which
    [String.prototype.trim] strips and the class [\s] matches: TAB, LF,
    VT, FF, CR, SP, NBSP, the other space separators (U+1680, U+2000 to
    U+200A, U+202F, U+205F, U+3000), LS, PS and ZWNBSP. *)
Definition white_space_code_points : list N :=
  [0x9; 0xA; 0xB; 0xC; 0xD; 0x20; 0xA0; 0x1680;
   0x2000; 0x2001; 0x2002; 0x2003; 0x2004; 0x2005; 0x2006; 0x2007; 0x2008;
   0x2009; 0x200A; 0x2028; 0x2029; 0x202F; 0x205F; 0x3000; 0xFEFF]%N.

Definition white_space : list string := map utf8 white_space_code_points.

(** [s] without the prefix [p], if it starts with it. *)
Fixpoint strip (p s : string) : option string :=
  match p, s with
  | EmptyString, _ => Some s
  | String a p', String b s' => if Ascii.eqb a b then strip p' s' else None
  | String _ _, EmptyString => None
  end.

(** [s] without the first of the prefixes [ps] it starts with. *)
Fixpoint strip_any (ps : list string) (s : string) : option string :=
  match ps with
  | [] => None
  | p :: ps' =>
      match strip p s with
      | Some s' => Some s'
      | None => strip_any ps' s
      end
  end.

(** [s] after the white-space character it starts with, if any. *)
Definition after_space (s : string) : option string := strip_any white_space s.

Fixpoint trimStart_from (fuel : nat) (s : string) : string :=
  match fuel with
  | O => s
  | S fuel' =>
      match after_space s with
      | Some s' => trimStart_from fuel' s'
      | None => s
      end
  end.

Definition trimStart (s : string) : string := trimStart_from (String.length s) s.

(** The string is empty or white space only. *)
Definition is_blank (s : string) : bool :=
  match trimStart s with EmptyString => true | _ => false end.

(** The string up to the white space it ends with. *)
Fixpoint trimEnd (s : string) : string :=
  match s with
  | EmptyString => EmptyString
  | String c s' => if is_blank s then EmptyString else String c (trimEnd s')
  end.

Definition trim (s : string) : string := trimEnd (trimStart s).

(** *** Letters *)

Definition is_upper (c : ascii) : bool :=
  let n := code c in (65 <=? n)%nat && (n <=? 90)%nat.

Definition is_lower (c : ascii) : bool :=
  let n := code c in (97 <=? n)%nat && (n <=? 122)%nat.

Definition is_digit (c : ascii) : bool :=
  let n := code c in (48 <=? n)%nat && (n <=? 57)%nat.

(** The class [\w] of regular expressions. *)
Definition is_word (c : ascii) : bool :=
  is_upper c || is_lower c || is_digit c || (code c =? 95)%nat.

Definition lower_char (c : ascii) : ascii :=
  if is_upper c then ascii_of_nat (code c + 32) else c.

Definition upper_char (c : ascii) : ascii :=
  if is_lower c then ascii_of_nat (code c - 32) else c.

Fixpoint map_chars (f : ascii -> ascii) (s : string) : string :=
  match s with
  | EmptyString => EmptyString
  | String c s' => String (f c) (map_chars f s')
  end.

(** Every character of the string is an ASCII character. *)
Definition is_ascii (s : string) : bool :=
  forallb (fun c => (code c <? 128)%nat) (list_ascii_of_string s).

(** The case conversions of the engine, by its Unicode tables, for the
    strings that hold a character beyond ASCII. *)
Class Engine : Type := {
  lower_case : string -> string;
  upper_case : string -> string
}.

Section WithEngine.
Context `{engine : Engine}.

(** [s.toLowerCase()] and [s.toUpperCase()] *)
Definition toLowerCase (s : string) : string :=
  if is_ascii s then map_chars lower_char s else lower_case s.

Definition toUpperCase (s : string) : string :=
  if is_ascii s then map_chars upper_char s else upper_case s.

End WithEngine.

(** *** Searching *)

(** [s.includes(sub)] *)
Fixpoint includes (s sub : string) : bool :=
  String.prefix sub s
  || match s with
     | EmptyString => false
     | String _ s' => includes s' sub
     end.

(** [xs.includes(x)] on an array of strings (strict equality). *)
Definition array_includes (xs : list string) (x : string) : bool :=
  existsb (String.eqb x) xs.

(** [!s] for a string: only the empty string is falsy. *)
Definition is_empty (s : string) : bool :=
  match s with EmptyString => true | _ => false end.

Definition newline : ascii := ascii_of_nat 10.
Definition quote : string := String (ascii_of_nat 34) EmptyString.

End JSString.

(** ** A backtracking matcher for the regular expressions of the source

  The matcher follows the continuation semantics of ECMAScript: a
  pattern is run against a state with a continuation, alternatives are
  tried left to right, a greedy star tries one more iteration before it
  tries the continuation and a lazy star the other way round; an
  iteration that consumes nothing is rejected. *)

Module Regex.
Import JSString.

Inductive regex : Type :=
| REmpty
| RChar (p : ascii -> bool)
| RSeq (r1 r2 : regex)
| RAlt (r1 r2 : regex)
| RStar (lazy : bool) (r : regex)
| RGroup (i : nat) (r : regex)
| RWordBoundary
| REnd.

(** [prev] is the character just before the current position (for [\b]),
    [rest] the input still to be read, [caps] the captures so far. *)
Record mstate : Type := MState {
  prev : option ascii;
  rest : list ascii;
  caps : gmap nat string
}.

Definition cont : Type := mstate -> option mstate.

Definition word_before (st : mstate) : bool :=
  match prev st with Some c => is_word c | None => false end.

Definition word_after (st : mstate) : bool :=
  match rest st with c :: _ => is_word c | [] => false end.

(** The characters read between state [st] and the later state [st1]. *)
Definition consumed (st st1 : mstate) : string :=
  string_of_list_ascii
    (take (length (rest st) - length (rest st1)) (rest st)).

Fixpoint run (r : regex) (st : mstate) (k : cont) {struct r} : option mstate :=
  match r with
  | REmpty => k st
  | RChar p =>
      match rest st with
      | c :: cs => if p c then k (MState (Some c) cs (caps st)) else None
      | [] => None
      end
  | RSeq r1 r2 => run r1 st (fun st1 => run r2 st1 k)
  | RAlt r1 r2 =>
      match run r1 st k with
      | Some res => Some res
      | None => run r2 st k
      end
  | RStar lazy r1 =>
      (fix loop (fuel : nat) (st : mstate) (k : cont) {struct fuel} : option mstate :=
         match fuel with
         | O => k st
         | S fuel' =>
             let step st1 :=
               if (length (rest st1) <? length (rest st))%nat
               then loop fuel' st1 k else None in
             if lazy then
               match k st with
               | Some res => Some res
               | None => run r1 st step
               end
             else
               match run r1 st step with
               | Some res => Some res
               | None => k st
               end
         end) (S (length (rest st))) st k
  | RGroup i r1 =>
      run r1 st (fun st1 =>
        k (MState (prev st1) (rest st1) (<[i := consumed st st1]> (caps st1))))
  | RWordBoundary =>
      if xorb (word_before st) (word_after st) then k st else None
  | REnd =>
      match rest st with
      | [] => k st
      | _ :: _ => None
      end
  end.

(** Derived forms. *)
Definition plus (r : regex) : regex := RSeq r (RStar false r).
Definition plus_lazy (r : regex) : regex := RSeq r (RStar true r).
Definition star (r : regex) : regex := RStar false r.
Definition star_lazy (r : regex) : regex := RStar true r.
Definition opt (r : regex) : regex := RAlt r REmpty.

Definition char_is (c : ascii) : regex := RChar (Ascii.eqb c).
Definition char_ci (c : ascii) : regex :=
  RChar (fun x => Ascii.eqb (lower_char x) (lower_char c)).

Fixpoint lit (s : string) : regex :=
  match s with
  | EmptyString => REmpty
  | String c s' => RSeq (char_is c) (lit s')
  end.

(** A literal under the [i] flag. *)
Fixpoint lit_ci (s : string) : regex :=
  match s with
  | EmptyString => REmpty
  | String c s' => RSeq (char_ci c) (lit_ci s')
  end.

Fixpoint alt_of (rs : list regex) : regex :=
  match rs with
  | [] => RChar (fun _ => false)
  | [r] => r
  | r :: rs' => RAlt r (alt_of rs')
  end.

(** [\s]: one white-space character. *)
Definition space : regex := alt_of (map lit white_space).
Definition any_char : regex := RChar (fun _ => true).

Definition is_inner (c : ascii) : bool := (units c =? 0)%nat.

(** [.]: anything but a line terminator, LF, CR, LS (the bytes E2 80 A8)
    or PS (E2 80 A9).  A byte E2 is read with what follows it. *)
Definition dot : regex :=
  alt_of
    [RChar (fun c => negb ((code c =? 10)%nat || (code c =? 13)%nat
                           || (code c =? 226)%nat));
     RSeq (char_is (chr 226))
       (RChar (fun c => is_inner c && negb (code c =? 128)%nat));
     RSeq (char_is (chr 226))
       (RSeq (char_is (chr 128))
          (RChar (fun c => is_inner c
                           && negb ((code c =? 168)%nat || (code c =? 169)%nat))))].
(** [[^,\n]] *)
Definition not_comma_newline : regex :=
  RChar (fun c => negb ((code c =? 44)%nat || (code c =? 10)%nat)).

(** The result of a successful match: where it starts in the searched
    string, the matched text, the captures, and the input after it. *)
Record match_result : Type := MatchResult {
  m_index : nat;
  m_text : string;
  m_caps : gmap nat string;
  m_prev : option ascii;
  m_rest : list ascii
}.

(** Try the pattern at the current position only. *)
Definition match_here (r : regex) (p : option ascii) (s : list ascii)
  : option mstate :=
  run r (MState p s ∅) Some.

(** Leftmost match at or after the current position; [idx] counts the
    characters skipped. *)
Fixpoint search (r : regex) (p : option ascii) (s : list ascii) (idx : nat)
  : option match_result :=
  match match_here r p s with
  | Some st =>
      Some (MatchResult idx (consumed (MState p s ∅) st) (caps st)
              (prev st) (rest st))
  | None =>
      match s with
      | [] => None
      | c :: s' => search r (Some c) s' (S idx)
      end
  end.

(** [str.match(re)] for a pattern without the [g] flag. *)
Definition js_match (r : regex) (s : string) : option match_result :=
  search r None (list_ascii_of_string s) 0.

(** Capture [i] of a match, [None] standing for [undefined]. *)
Definition group (m : match_result) (i : nat) : option string := m_caps m !! i.

(** [str.replace(re, '')] for a pattern with the [g] flag. *)
Fixpoint remove_all_from (fuel : nat) (r : regex) (p : option ascii)
    (s : list ascii) : list ascii :=
  match fuel with
  | O => s
  | S fuel' =>
      match search r p s 0 with
      | None => s
      | Some m =>
          take (m_index m) s ++
          (if is_empty (m_text m) then
             match m_rest m with
             | [] => []
             | c :: s' => c :: remove_all_from fuel' r (Some c) s'
             end
           else remove_all_from fuel' r (m_prev m) (m_rest m))
      end
  end.

Definition remove_all (r : regex) (s : string) : string :=
  let l := list_ascii_of_string s in
  string_of_list_ascii (remove_all_from (S (length l)) r None l).

(** [str.split(re)] for a pattern without captures: [acc] holds, in
    reverse, the characters since the end of the last separator. *)
Fixpoint split_from (fuel : nat) (r : regex) (p : option ascii)
    (acc : list ascii) (s : list ascii) : list string :=
  match fuel with
  | O => [string_of_list_ascii (rev acc ++ s)]
  | S fuel' =>
      match s with
      | [] => [string_of_list_ascii (rev acc)]
      | c :: s' =>
          match match_here r p s with
          | None => split_from fuel' r (Some c) (c :: acc) s'
          | Some st =>
              if (length (rest st) =? length s)%nat && bool_decide (acc = [])
              then split_from fuel' r (Some c) (c :: acc) s'
              else string_of_list_ascii (rev acc)
                   :: split_from fuel' r (prev st) [] (rest st)
          end
      end
  end.

Definition split (r : regex) (s : string) : list string :=
  match s with
  | EmptyString =>
      match match_here r None [] with
      | Some _ => []
      | None => [EmptyString]
      end
  | _ =>
      let l := list_ascii_of_string s in
      split_from (2 * length l + 2) r None [] l
  end.

End Regex.

(** ** Dynamically typed values and abrupt completion *)

Module JS.
Import JSString.

(** What [JSON.parse] builds, plus [undefined].  An array carries the
    named properties that an assignment [arr.key = v] adds to it. *)
Inductive value : Type :=
| VUndef
| VNull
| VBool (b : bool)
| VNum (x : float)
| VStr (s : string)
| VArr (elems : list value) (props : gmap string value)
| VObj (props : gmap string value).

(** A thrown value, seen through [error.message]: the collaborators and
    the platform throw [Error] objects, on which that read is defined. *)
Record js_error : Type := JsError { message : option string }.

(** The outcome of evaluating a block: a value, or a [throw]. *)
Inductive completion (A : Type) : Type :=
| Normal (a : A)
| Throw (e : js_error).
Arguments Normal {A} a.
Arguments Throw {A} e.

Definition bind {A B} (c : completion A) (f : A -> completion B) : completion B :=
  match c with
  | Normal a => f a
  | Throw e => Throw e
  end.

(** [try { c } catch (e) { h e }] *)
Definition try_catch {A} (c : completion A) (h : js_error -> A) : A :=
  match c with
  | Normal a => a
  | Throw e => h e
  end.

Definition type_error {A} (what : string) : completion A :=
  Throw (JsError (Some ("TypeError: " +:+ what))).

(** [new Error(msg)] thrown. *)
Definition throw_error {A} (msg : string) : completion A :=
  Throw (JsError (Some msg)).

(** ToBoolean *)
Definition truthy (v : value) : bool :=
  match v with
  | VUndef | VNull => false
  | VBool b => b
  | VNum x => negb (PrimFloat.eqb x 0%float || PrimFloat.is_nan x)
  | VStr s => negb (is_empty s)
  | VArr _ _ | VObj _ => true
  end.

(** [a || b] *)
Definition or_else (a b : value) : value := if truthy a then a else b.

(** [v === 'lit'] *)
Definition is_string (lit : string) (v : value) : bool :=
  match v with
  | VStr s => String.eqb s lit
  | _ => false
  end.

(** [v.key]: a [TypeError] on [undefined] and [null], [undefined] on a
    primitive or on a missing key.  (The keys the source reads are field
    names of the oracle's answer, never [length], an index or another
    property that a string or an array has of its own.) *)
Definition getProp (v : value) (key : string) : completion value :=
  match v with
  | VUndef | VNull => type_error ("cannot read property " +:+ key)
  | VObj m | VArr _ m => Normal (default VUndef (m !! key))
  | VBool _ | VNum _ | VStr _ => Normal VUndef
  end.

(** [v?.key] *)
Definition getPropOpt (v : value) (key : string) : completion value :=
  match v with
  | VUndef | VNull => Normal VUndef
  | _ => getProp v key
  end.

(** [v.key = x] in strict-mode code (an ES module): a [TypeError] on
    [undefined], [null] and on a primitive.  The updated [v] is returned;
    the caller stores it back where [v] came from, which is what the
    in-place mutation of the one object amounts to. *)
Definition setProp (v : value) (key : string) (x : value) : completion value :=
  match v with
  | VObj m => Normal (VObj (<[key := x]> m))
  | VArr l m => Normal (VArr l (<[key := x]> m))
  | VUndef | VNull | VBool _ | VNum _ | VStr _ =>
      type_error ("cannot set property " +:+ key)
  end.

(** The receiver of a string method ([toLowerCase], [replace]): any other
    value has no such method, and the call throws. *)
Definition string_receiver (v : value) : completion string :=
  match v with
  | VStr s => Normal s
  | _ => type_error "not a function"
  end.

(** [`${v}`] for an optional string. *)
Definition interpolate (o : option string) : string :=
  match o with
  | Some s => s
  | None => "undefined"
  end.

(** Truthiness of an optional string field. *)
Definition present (o : option string) : bool :=
  match o with
  | Some s => negb (is_empty s)
  | None => false
  end.

Definition object (fields : list (string * value)) : value :=
  VObj (list_to_map fields).

Definition array (elems : list value) : value := VArr elems ∅.

End JS.

#[global] Instance completion_ret : MRet JS.completion := @JS.Normal.
#[global] Instance completion_bind : MBind JS.completion := fun A B f c => JS.bind c f.

(** ** geminiAI.ts: the parse boundary and the defaulting engine *)

Module GeminiAI.
Import JSString Regex JS.

Record AIResult : Type := {
  response : value;
  action : value;
  requiresConfirmation : value
}.

(** The plain conversational reply: no action, no confirmation. *)
Definition plain_reply (text : string) : AIResult :=
  {| response := VStr text; action := VNull; requiresConfirmation := VBool false |}.

(** [/```json\n([\s\S]*?)\n```/] *)
Definition fence_regex : regex :=
  RSeq (lit ("```json" +:+ String newline ""))
    (RSeq (RGroup 1 (star_lazy any_char)) (lit (String newline "```"))).

(** [/\b(token|coin|currency|crypto|digital|blockchain)\b/gi] *)
Definition generic_word_regex : regex :=
  RSeq RWordBoundary
    (RSeq (RGroup 1 (alt_of (map lit_ci
             ["token"; "coin"; "currency"; "crypto"; "digital"; "blockchain"])))
       RWordBoundary).

(** [/\s+/] *)
Definition spaces_regex : regex := plus space.

Section WithEngine.
Context `{engine : Engine}.

Definition generateSmartTotalSupply (tokenName : string) : string :=
  let name := toLowerCase tokenName in
  if includes name "game" || includes name "gaming" || includes name "play"
     || includes name "quest" || includes name "rpg" || includes name "nft"
  then "1000000000"
  else if includes name "meme" || includes name "pepe" || includes name "doge"
     || includes name "shib" || includes name "moon" || includes name "rocket"
  then "1000000000000"
  else if includes name "govern" || includes name "vote" || includes name "dao"
     || includes name "council" || includes name "proposal"
  then "10000000"
  else if includes name "utility" || includes name "app" || includes name "platform"
     || includes name "service" || includes name "network"
  then "100000000"
  else if includes name "stable" || includes name "usd" || includes name "dollar"
     || includes name "peg"
  then "1000000"
  else "1000000".

(** [cleanName.split(/\s+/).filter(word => word.length > 0)] *)
Definition symbol_words (tokenName : string) : list string :=
  let cleanName := trim (remove_all generic_word_regex tokenName) in
  List.filter (fun word => negb (is_empty word)) (split spaces_regex cleanName).

Definition generateTokenSymbol (tokenName : string) : string :=
  match symbol_words tokenName with
  | [] => "TKN"
  | [w] =>
      let word := toUpperCase w in
      if (4 <? js_length word)%nat then substring0 4 word else word
  | [w1; w2] =>
      let first := toUpperCase w1 in
      let second := toUpperCase w2 in
      substring0 4 (substring0 2 first +:+ substring0 2 second)
  | words =>
      let acronym :=
        substring0 4
          (String.concat "" (map (fun word => toUpperCase (charAt0 word)) words)) in
      if (js_length acronym <? 3)%nat then acronym +:+ "N" else acronym
  end.

(** The three blocks of [parseAIResponse] that rewrite the parsed object.
    Each reads [parsedJson.action?.action] again, as the source does. *)

Definition action_kind (parsedJson : value) : completion value :=
  a ← getProp parsedJson "action"; getPropOpt a "action".

(** Store the rewritten [details] back under [parsedJson.action]. *)
Definition store_action (parsedJson act : value) : completion value :=
  setProp parsedJson "action" act.

Definition create_token_defaults (parsedJson : value) : completion value :=
  kind ← action_kind parsedJson;
  if is_string "create_token" kind then
    act ← getProp parsedJson "action";
    tokenDetails ← getProp act "details";
    decimals ← getProp tokenDetails "decimals";
    tokenDetails ←
      (if truthy decimals then Normal tokenDetails
       else setProp tokenDetails "decimals" (VStr "18"));
    totalSupply ← getProp tokenDetails "totalSupply";
    tokenDetails ←
      (if truthy totalSupply then Normal tokenDetails
       else
         name ← getProp tokenDetails "name";
         tokenName ← string_receiver (or_else name (VStr ""));
         setProp tokenDetails "totalSupply" (VStr (generateSmartTotalSupply tokenName)));
    symbol ← getProp tokenDetails "symbol";
    name ← getProp tokenDetails "name";
    tokenDetails ←
      (if negb (truthy symbol) && truthy name then
         tokenName ← string_receiver name;
         setProp tokenDetails "symbol" (VStr (generateTokenSymbol tokenName))
       else Normal tokenDetails);
    act ← setProp act "details" tokenDetails;
    store_action parsedJson act
  else Normal parsedJson.

Definition send_transaction_validation (parsedJson : value) : completion value :=
  kind ← action_kind parsedJson;
  if is_string "send_transaction" kind then
    act ← getProp parsedJson "action";
    txDetails ← getProp act "details";
    token ← getProp txDetails "token";
    txDetails ←
      (if negb (truthy token) || is_string "" token
       then setProp txDetails "token" (VStr "BNB")
       else Normal txDetails);
    recipient ← getProp txDetails "recipient";
    amount ← getProp txDetails "amount";
    let missingFields :=
      ((if truthy recipient then [] else [VStr "recipient"])
       ++ (if truthy amount then [] else [VStr "amount"]))%list in
    act ← setProp act "details" txDetails;
    act ← setProp act "missingFields" (array missingFields);
    act ← setProp act "isComplete" (VBool (length missingFields =? 0)%nat);
    store_action parsedJson act
  else Normal parsedJson.

Definition upload_nft_handling (parsedJson : value) : completion value :=
  kind ← action_kind parsedJson;
  if is_string "upload_nft" kind then
    act ← getProp parsedJson "action";
    act ← setProp act "isComplete" (VBool true);
    parsedJson ← store_action parsedJson act;
    setProp parsedJson "requiresConfirmation" (VBool true)
  else Normal parsedJson.

Section Parse.
(** [JSON.parse]: [None] when it throws a [SyntaxError]. *)
Variable JSON_parse : string -> option value.

(** The body of the [try] of [parseAIResponse]. *)
Definition parseAIResponse_body (aiResponse : string) : completion AIResult :=
  match js_match fence_regex aiResponse with
  | None => Normal (plain_reply aiResponse)
  | Some jsonMatch =>
      match JSON_parse (default "" (group jsonMatch 1)) with
      | None => throw_error "SyntaxError"
      | Some parsedJson =>
          parsedJson ← create_token_defaults parsedJson;
          parsedJson ← send_transaction_validation parsedJson;
          parsedJson ← upload_nft_handling parsedJson;
          resp ← getProp parsedJson "response";
          act ← getProp parsedJson "action";
          conf ← getProp parsedJson "requiresConfirmation";
          Normal {| response := or_else resp (VStr aiResponse);
                    action := or_else act VNull;
                    requiresConfirmation := or_else conf (VBool false) |}
      end
  end.

Definition parseAIResponse (aiResponse : string) : AIResult :=
  try_catch (parseAIResponse_body aiResponse) (fun _ => plain_reply aiResponse).

Definition apology : string :=
  "I apologize, but I encountered an error processing your request. Please try again.".

(** [processUserInput]: [oracle] is the outcome of building the prompt
    and of [model.generateContent(prompt)] with [response.text()]. *)
Definition processUserInput (oracle : completion string) : AIResult :=
  try_catch (text ← oracle; Normal (parseAIResponse text))
    (fun _ => {| response := VStr apology; action := VNull;
                 requiresConfirmation := VBool false |}).
End Parse.

End WithEngine.

End GeminiAI.

(** ** Dates: time values, [toISOString] and parsing the ISO format

  A [Date] is modelled by its time value, the number of milliseconds
  since the epoch, which ECMAScript keeps within 8.64e15 of zero.  The
  calendar computations are the usual closed forms for the proleptic
  Gregorian calendar. *)

Module JSDate.
Import JSString.
Local Open Scope Z_scope.

Definition msPerDay : Z := 86400000.

(** The time values a [Date] can hold (TimeClip). *)
Definition valid_time (t : Z) : Prop :=
  -8640000000000000 <= t <= 8640000000000000.

Definition valid_timeb (t : Z) : bool :=
  (-8640000000000000 <=? t) && (t <=? 8640000000000000).

(** Year, month (1 to 12) and day of the month of a day number. *)
Definition civil_from_days (day : Z) : Z * Z * Z :=
  let z := day + 719468 in
  let era := z / 146097 in
  let doe := z mod 146097 in
  let yoe := (doe - doe / 1460 + doe / 36524 - doe / 146096) / 365 in
  let doy := doe - (365 * yoe + yoe / 4 - yoe / 100) in
  let mp := (5 * doy + 2) / 153 in
  let d := doy - (153 * mp + 2) / 5 + 1 in
  let m := if mp <? 10 then mp + 3 else mp - 9 in
  let y := yoe + era * 400 + (if m <=? 2 then 1 else 0) in
  (y, m, d).

(** MakeDay *)
Definition days_from_civil (y m d : Z) : Z :=
  let y' := if m <=? 2 then y - 1 else y in
  let era := y' / 400 in
  let yoe := y' mod 400 in
  let mp := if 2 <? m then m - 3 else m + 9 in
  let doy := (153 * mp + 2) / 5 + d - 1 in
  let doe := yoe * 365 + yoe / 4 - yoe / 100 + doy in
  era * 146097 + doe - 719468.

(** MakeTime *)
Definition make_time (h mi s ms : Z) : Z :=
  h * 3600000 + mi * 60000 + s * 1000 + ms.

Definition digit_char (n : Z) : ascii := ascii_of_nat (48 + Z.to_nat n).

Definition digit_val (c : ascii) : option Z :=
  if is_digit c then Some (Z.of_nat (code c) - 48) else None.

(** [n] written with exactly [k] decimal digits. *)
Fixpoint pad_digits (k : nat) (n : Z) : list ascii :=
  match k with
  | O => []
  | S k' => pad_digits k' (n / 10) ++ [digit_char (n mod 10)]
  end.

Fixpoint read_digits (k : nat) (acc : Z) (s : list ascii) : option (Z * list ascii) :=
  match k with
  | O => Some (acc, s)
  | S k' =>
      match s with
      | c :: s' =>
          match digit_val c with
          | Some d => read_digits k' (10 * acc + d) s'
          | None => None
          end
      | [] => None
      end
  end.

Definition expect (c : ascii) (s : list ascii) : option (list ascii) :=
  match s with
  | c' :: s' => if Ascii.eqb c c' then Some s' else None
  | [] => None
  end.

(** Four digits for the years 0 to 9999, otherwise a sign and six. *)
Definition year_digits (y : Z) : list ascii :=
  if (0 <=? y) && (y <=? 9999) then pad_digits 4 y
  else if 0 <=? y then "+"%char :: pad_digits 6 y
  else "-"%char :: pad_digits 6 (- y).

(** [date.toISOString()] for a valid date:
    [YYYY-MM-DDTHH:mm:ss.sssZ]. *)
Definition toISOString (t : Z) : string :=
  let day := t / msPerDay in
  let tod := t mod msPerDay in
  let '(y, m, d) := civil_from_days day in
  let h := tod / 3600000 in
  let mi := (tod / 60000) mod 60 in
  let s := (tod / 1000) mod 60 in
  let ms := tod mod 1000 in
  string_of_list_ascii
    (year_digits y ++ "-"%char :: pad_digits 2 m ++ "-"%char :: pad_digits 2 d
     ++ "T"%char :: pad_digits 2 h ++ ":"%char :: pad_digits 2 mi
     ++ ":"%char :: pad_digits 2 s ++ "."%char :: pad_digits 3 ms
     ++ ["Z"%char])%list.

Definition read_year (s : list ascii) : option (Z * list ascii) :=
  match s with
  | c :: s' =>
      if Ascii.eqb c "+"%char then read_digits 6 0 s'
      else if Ascii.eqb c "-"%char then
        match read_digits 6 0 s' with
        | Some (y, s'') => if y =? 0 then None else Some (- y, s'')
        | None => None
        end
      else read_digits 4 0 s
  | [] => None
  end.

(** [new Date(str)] on the date-time form that [toISOString] writes;
    [None] is the invalid date.  (The other forms that [Date.parse]
    accepts are not needed for restoring what [partialize] stored.) *)
Definition parseISO (str : string) : option Z :=
  '(y, s) ← read_year (list_ascii_of_string str);
  s ← expect "-"%char s;
  '(m, s) ← read_digits 2 0 s;
  s ← expect "-"%char s;
  '(d, s) ← read_digits 2 0 s;
  s ← expect "T"%char s;
  '(h, s) ← read_digits 2 0 s;
  s ← expect ":"%char s;
  '(mi, s) ← read_digits 2 0 s;
  s ← expect ":"%char s;
  '(sec, s) ← read_digits 2 0 s;
  s ← expect "."%char s;
  '(ms, s) ← read_digits 3 0 s;
  s ← expect "Z"%char s;
  match s with
  | [] =>
      if (1 <=? m) && (m <=? 12) && (1 <=? d) && (d <=? 31)
         && (h <=? 23) && (mi <=? 59) && (sec <=? 59)
      then
        let t := days_from_civil y m d * msPerDay + make_time h mi sec ms in
        if valid_timeb t then Some t else None
      else None
  | _ :: _ => None
  end.

End JSDate.

(** ** conversationStore.ts: the session store *)

Module ConversationStore.
Import JSString JS JSDate.

Inductive author : Type := User | AI.

(** A [Date] object: a time value, or the invalid date. *)
Inductive Date : Type :=
| DateValue (t : Z)
| InvalidDate.

Record ConversationMessage : Type := {
  msg_id : string;
  msg_type : author;
  msg_content : value;
  msg_timestamp : Date;
  msg_action : value;
  msg_requiresConfirmation : value;
  msg_showUpload : option bool;
  msg_uploadedImage : option (string * string)
}.

Record PendingAction : Type := {
  pa_action : value;
  pa_messageId : string;
  isWaitingForConfirmation : bool
}.

Record ConversationState : Type := {
  messages : list ConversationMessage;
  pendingAction : option PendingAction;
  isProcessing : bool
}.

(** What the session does to the outside world. *)
Inductive event : Type :=
| OracleCalled (input : string)
| ExecutorInvoked
| Submitted (operation : string) (details : value).

(** The wallet store's record: the address and the encrypted key. *)
Record Wallet : Type := { address : string; privateKey : string }.

(** What a submission collaborator resolves to. *)
Record SubmissionResult : Type := {
  success : bool;
  hash : option string;
  contractAddress : option string;
  tokenId : option string;
  explorerUrl : option string;
  error : option string
}.

(** The collaborators of one handler run.  [now k] and [random_suffix k]
    are the [k]-th reading of the clock and of
    [Math.random().toString(36).substr(2, 9)]; [composer] stands for
    [generateConfirmationMessage] with its gas and price look-ups;
    [load_modules] for the dynamic imports of [confirmAction]. *)
Record Env : Type := {
  now : nat -> Z;
  random_suffix : nat -> string;
  number_to_string : float -> string;
  oracle : string -> list ConversationMessage -> completion string;
  JSON_parse : string -> option value;
  composer : value -> completion string;
  load_modules : completion unit;
  wallet : option Wallet;
  decryptPrivateKey : string -> completion string;
  createToken : value -> string -> completion SubmissionResult;
  mintNFT : value -> string -> string -> completion SubmissionResult;
  sendTransaction : value -> string -> completion SubmissionResult
}.

(** The store, the local state of the chat component, the trace of
    calls made so far and the number of clock readings. *)
Record Session : Type := {
  store : ConversationState;
  inputValue : string;
  uploadedImage : option (string * string);
  isWaitingForNFTDetails : bool;
  pendingNFTDetails : option (value * value);
  trace : list event;
  tick : nat
}.

Definition with_store (f : ConversationState -> ConversationState) (s : Session) : Session :=
  {| store := f (store s); inputValue := inputValue s;
     uploadedImage := uploadedImage s;
     isWaitingForNFTDetails := isWaitingForNFTDetails s;
     pendingNFTDetails := pendingNFTDetails s;
     trace := trace s; tick := tick s |}.

Definition log (e : event) (s : Session) : Session :=
  {| store := store s; inputValue := inputValue s;
     uploadedImage := uploadedImage s;
     isWaitingForNFTDetails := isWaitingForNFTDetails s;
     pendingNFTDetails := pendingNFTDetails s;
     trace := trace s ++ [e]; tick := tick s |}.

Definition advance (n : nat) (s : Session) : Session :=
  {| store := store s; inputValue := inputValue s;
     uploadedImage := uploadedImage s;
     isWaitingForNFTDetails := isWaitingForNFTDetails s;
     pendingNFTDetails := pendingNFTDetails s;
     trace := trace s; tick := tick s + n |}.

Definition welcome : string :=
  "Hello! I'm your opBNB AI Assistant powered by Gemini. I can help you:

🪙 Create BEP-20 tokens
🖼️ Mint NFTs with BNB Greenfield storage
💸 Send BNB transactions
📊 Check balances and transaction history

Just tell me what you'd like to do in natural language!".

Definition welcome_message (env : Env) (k : nat) : ConversationMessage :=
  {| msg_id := "welcome"; msg_type := AI; msg_content := VStr welcome;
     msg_timestamp := DateValue (now env k);
     msg_action := VUndef; msg_requiresConfirmation := VUndef;
     msg_showUpload := None; msg_uploadedImage := None |}.

Definition initial_state (env : Env) : ConversationState :=
  {| messages := [welcome_message env 0]; pendingAction := None;
     isProcessing := false |}.

(** [Date.now().toString() + Math.random().toString(36).substr(2, 9)] *)
Definition fresh_id (env : Env) (k : nat) : string :=
  pretty (now env k) +:+ random_suffix env k.

(** [addMessage]: the caller's fields, a fresh id and the current time. *)
Definition addMessage (env : Env) (type : author) (content action conf : value)
    (showUpload : option bool) (image : option (string * string))
    (s : Session) : Session :=
  let newMessage :=
    {| msg_id := fresh_id env (tick s); msg_type := type;
       msg_content := content;
       msg_timestamp := DateValue (now env (S (tick s)));
       msg_action := action; msg_requiresConfirmation := conf;
       msg_showUpload := showUpload; msg_uploadedImage := image |} in
  advance 2
    (with_store (fun st =>
       {| messages := messages st ++ [newMessage];
          pendingAction := pendingAction st;
          isProcessing := isProcessing st |}) s).

(** [addMessage({ type: 'ai', content })] *)
Definition say (env : Env) (content : string) (s : Session) : Session :=
  addMessage env AI (VStr content) VUndef VUndef None None s.

Definition setPendingAction (p : option PendingAction) : Session -> Session :=
  with_store (fun st =>
    {| messages := messages st; pendingAction := p;
       isProcessing := isProcessing st |}).

Definition setProcessing (b : bool) : Session -> Session :=
  with_store (fun st =>
    {| messages := messages st; pendingAction := pendingAction st;
       isProcessing := b |}).

Definition clearConversation (env : Env) (s : Session) : Session :=
  advance 1
    (with_store (fun _ =>
       {| messages := [welcome_message env (tick s)]; pendingAction := None;
          isProcessing := false |}) s).

Definition rejectAction : Session -> Session := setPendingAction None.

(** [`${v}`] *)
Fixpoint display (num : float -> string) (v : value) : string :=
  match v with
  | VUndef => "undefined"
  | VNull => "null"
  | VBool true => "true"
  | VBool false => "false"
  | VNum x => num x
  | VStr s => s
  | VArr l _ =>
      String.concat ","
        (map (fun x => match x with
                       | VUndef | VNull => ""
                       | _ => display num x
                       end) l)
  | VObj _ => "[object Object]"
  end.

Definition nl : string := String newline "".

(** The text [confirmAction] appends for a collaborator's answer. *)
Definition result_content (result : SubmissionResult) : string :=
  if success result then
    "✅ **Transaction Successful!**" +:+ nl +:+ nl
    +:+ "🔗 **Transaction Hash**: `" +:+ interpolate (hash result) +:+ "`" +:+ nl
    +:+ (if present (contractAddress result)
         then "📄 **Contract Address**: `" +:+ interpolate (contractAddress result)
              +:+ "`" +:+ nl
         else "")
    +:+ (if present (tokenId result)
         then "🎨 **Token ID**: `" +:+ interpolate (tokenId result) +:+ "`" +:+ nl
         else "")
    +:+ (if present (explorerUrl result)
         then nl +:+ "[View on Explorer](" +:+ interpolate (explorerUrl result) +:+ ")"
         else "")
  else "❌ **Transaction Failed**" +:+ nl +:+ nl +:+ interpolate (error result).

(** [error.message || 'Unknown error occurred'] *)
Definition error_content (e : js_error) : string :=
  "❌ **Transaction Failed**" +:+ nl +:+ nl
  +:+ (if present (message e) then interpolate (message e)
       else "Unknown error occurred").

(** The signing key: the wallet must be there with a non-empty key. *)
Definition signing_key (env : Env) : completion (Wallet * string) :=
  match wallet env with
  | Some w =>
      if is_empty (privateKey w) then throw_error "Wallet not connected"
      else key ← decryptPrivateKey env (privateKey w); Normal (w, key)
  | None => throw_error "Wallet not connected"
  end.

(** The [switch] of [confirmAction]: the submissions it makes, and how
    the collaborator (or the switch itself) completes. *)
Definition dispatch (env : Env) (w : Wallet) (key : string) (action : value)
  : list event * completion SubmissionResult :=
  match getProp action "action", getProp action "details" with
  | Normal kind, Normal details =>
      if is_string "create_token" kind then
        ([Submitted "createToken" details], createToken env details key)
      else if is_string "mint_nft" kind then
        ([Submitted "mintNFT" details], mintNFT env details (address w) key)
      else if is_string "send_transaction" kind then
        ([Submitted "sendTransaction" details], sendTransaction env details key)
      else
        ([], throw_error ("Unsupported action: " +:+ display (number_to_string env) kind))
  | Throw e, _ | _, Throw e => ([], Throw e)
  end.

(** The body of the [try] of [confirmAction]. *)
Definition execute (env : Env) (action : value)
  : list event * completion SubmissionResult :=
  match load_modules env with
  | Throw e => ([], Throw e)
  | Normal _ =>
      match signing_key env with
      | Throw e => ([], Throw e)
      | Normal (w, key) => dispatch env w key action
      end
  end.

Definition finish (env : Env) (content : string) (s : Session) : Session :=
  let message :=
    {| msg_id := fresh_id env (tick s); msg_type := AI;
       msg_content := VStr content;
       msg_timestamp := DateValue (now env (S (tick s)));
       msg_action := VUndef; msg_requiresConfirmation := VUndef;
       msg_showUpload := None; msg_uploadedImage := None |} in
  advance 2
    (with_store (fun st =>
       {| messages := messages st ++ [message]; pendingAction := None;
          isProcessing := false |}) s).

Definition confirmAction (env : Env) (s : Session) : Session :=
  match pendingAction (store s) with
  | None => s
  | Some p =>
      let s := setProcessing true s in
      let '(submissions, outcome) := execute env (pa_action p) in
      let s := fold_left (fun s e => log e s) submissions s in
      match outcome with
      | Normal result => finish env (result_content result) s
      | Throw e => finish env (error_content e) s
      end
  end.

(** *** Persistence: [partialize] and [merge] *)

(** A stored message: the timestamp is a string. *)
Record StoredMessage : Type := {
  st_id : string;
  st_type : author;
  st_content : value;
  st_timestamp : string;
  st_action : value;
  st_requiresConfirmation : value;
  st_showUpload : option bool;
  st_uploadedImage : option (string * string)
}.

(** [xs.slice(-n)] *)
Definition slice_last {A} (n : nat) (xs : list A) : list A :=
  drop (length xs - n) xs.

(** [date.toISOString()], a [RangeError] on the invalid date. *)
Definition Date_toISOString (d : Date) : completion string :=
  match d with
  | DateValue t => Normal (toISOString t)
  | InvalidDate => throw_error "RangeError: Invalid time value"
  end.

(** [new Date(str)] *)
Definition Date_of_string (str : string) : Date :=
  match parseISO str with
  | Some t => DateValue t
  | None => InvalidDate
  end.

Definition store_message (m : ConversationMessage) : completion StoredMessage :=
  ts ← Date_toISOString (msg_timestamp m);
  Normal {| st_id := msg_id m; st_type := msg_type m;
            st_content := msg_content m; st_timestamp := ts;
            st_action := msg_action m;
            st_requiresConfirmation := msg_requiresConfirmation m;
            st_showUpload := msg_showUpload m;
            st_uploadedImage := msg_uploadedImage m |}.

Fixpoint store_messages (ms : list ConversationMessage)
  : completion (list StoredMessage) :=
  match ms with
  | [] => Normal []
  | m :: ms' =>
      sm ← store_message m;
      rest ← store_messages ms';
      Normal (sm :: rest)
  end.

Definition partialize (st : ConversationState) : completion (list StoredMessage) :=
  store_messages (slice_last 50 (messages st)).

Definition restore_message (sm : StoredMessage) : ConversationMessage :=
  {| msg_id := st_id sm; msg_type := st_type sm;
     msg_content := st_content sm;
     msg_timestamp := Date_of_string (st_timestamp sm);
     msg_action := st_action sm;
     msg_requiresConfirmation := st_requiresConfirmation sm;
     msg_showUpload := st_showUpload sm;
     msg_uploadedImage := st_uploadedImage sm |}.

(** [merge]: [persisted] is [None] when storage holds no messages. *)
Definition merge (persisted : option (list StoredMessage))
    (currentState : ConversationState) : ConversationState :=
  match persisted with
  | Some stored =>
      {| messages := map restore_message stored;
         pendingAction := pendingAction currentState;
         isProcessing := isProcessing currentState |}
  | None => currentState
  end.

End ConversationStore.

(** ** AIChat.tsx: the chat component's handlers *)

Module AIChat.
Import JSString Regex JS GeminiAI ConversationStore.

Section WithEngine.
Context `{engine : Engine}.

Definition setInputValue (v : string) (s : Session) : Session :=
  {| store := store s; inputValue := v; uploadedImage := uploadedImage s;
     isWaitingForNFTDetails := isWaitingForNFTDetails s;
     pendingNFTDetails := pendingNFTDetails s;
     trace := trace s; tick := tick s |}.

Definition setUploadedImage (img : option (string * string)) (s : Session) : Session :=
  {| store := store s; inputValue := inputValue s; uploadedImage := img;
     isWaitingForNFTDetails := isWaitingForNFTDetails s;
     pendingNFTDetails := pendingNFTDetails s;
     trace := trace s; tick := tick s |}.

Definition setIsWaitingForNFTDetails (b : bool) (s : Session) : Session :=
  {| store := store s; inputValue := inputValue s;
     uploadedImage := uploadedImage s;
     isWaitingForNFTDetails := b;
     pendingNFTDetails := pendingNFTDetails s;
     trace := trace s; tick := tick s |}.

Definition setPendingNFTDetails (d : option (value * value)) (s : Session) : Session :=
  {| store := store s; inputValue := inputValue s;
     uploadedImage := uploadedImage s;
     isWaitingForNFTDetails := isWaitingForNFTDetails s;
     pendingNFTDetails := d;
     trace := trace s; tick := tick s |}.

(** [setPendingAction({ action, messageId: Date.now().toString(),
    isWaitingForConfirmation: true })] *)
Definition awaitConfirmation (env : Env) (action : value) (s : Session) : Session :=
  advance 1
    (setPendingAction
       (Some {| pa_action := action; pa_messageId := pretty (now env (tick s));
                isWaitingForConfirmation := true |}) s).

(** *** The confirmation gate *)

Definition affirmative : list string :=
  ["yes"; "y"; "confirm"; "proceed"; "ok"; "sure"].

Definition negative : list string :=
  ["no"; "n"; "cancel"; "abort"; "stop"].

Definition execution_failed : string :=
  "❌ **Execution Failed**

An error occurred while executing the blockchain transaction. Please try again.".

Definition action_cancelled : string :=
  "❌ **Action Cancelled**

No problem! The action has been cancelled. Is there something else I can help you with?".

Definition reply_yes_or_no : string :=
  "I didn't understand your response. Please reply with **" +:+ quote +:+ "Yes"
  +:+ quote +:+ "** to confirm or **" +:+ quote +:+ "No" +:+ quote
  +:+ "** to cancel the action.".

(** [confirmAction] catches whatever is thrown in it, so the [catch] around
    the call (which would append [execution_failed]) is never entered. *)
Definition handleConfirmationResponse (env : Env) (input : string) (s : Session)
  : Session :=
  let normalizedInput := trim (toLowerCase input) in
  if array_includes affirmative normalizedInput then
    let s := setProcessing true s in
    let s := confirmAction env (log ExecutorInvoked s) in
    setProcessing false s
  else if array_includes negative normalizedInput then
    say env action_cancelled (rejectAction s)
  else
    say env reply_yes_or_no s.

(** *** The upload flow *)

Definition placeholder_description : string := "NFT created with opBNB AI Assistant".

(** The [mint_nft] action the upload flow builds. *)
Definition nftAction (name description : value) (url : string) : value :=
  object
    [("action", VStr "mint_nft");
     ("confidence", VNum 0.95%float);
     ("details", object [("name", name); ("description", description);
                         ("imageUrl", VStr url); ("attributes", array [])]);
     ("missingFields", array []);
     ("isComplete", VBool true)].

Definition uploaded_with_confirmation (fileName confirmationMessage : string) : string :=
  "🎉 **Image uploaded successfully to BNB Greenfield!**

Your image " +:+ quote +:+ fileName +:+ quote +:+ " has been stored on the decentralized network.

" +:+ confirmationMessage.

Definition uploaded_confirmation_failed (fileName : string) : string :=
  "🎉 **Image uploaded successfully!** 

Your image " +:+ quote +:+ fileName +:+ quote
  +:+ " has been stored on BNB Greenfield. There was an error generating the confirmation. Please try again.".

Definition uploaded_ask_details : string :=
  "🎉 **Image uploaded successfully to BNB Greenfield!**

Your image has been stored on the decentralized network. Now I need a few more details to mint your NFT:

📝 **Please provide:**
1. **NFT Name** - What should your NFT be called?
2. **Description** - Tell me about your NFT (optional)

You can provide both in one message like: " +:+ quote
  +:+ "Name: My Art, Description: Beautiful digital artwork" +:+ quote.

Definition handleUploadComplete (env : Env) (url fileName : string) (s : Session)
  : Session :=
  let details := pendingNFTDetails s in
  let s := setUploadedImage (Some (url, fileName)) s in
  match details with
  | Some (pendingName, pendingDescription) =>
      if truthy pendingName || truthy pendingDescription then
        let name := or_else pendingName (VStr "Untitled NFT") in
        let description := or_else pendingDescription (VStr placeholder_description) in
        let action := nftAction name description url in
        match composer env action with
        | Normal confirmationMessage =>
            let s := addMessage env AI
                       (VStr (uploaded_with_confirmation fileName confirmationMessage))
                       VUndef VUndef None (Some (url, fileName)) s in
            let s := awaitConfirmation env action s in
            setPendingNFTDetails None s
        | Throw _ =>
            addMessage env AI (VStr (uploaded_confirmation_failed fileName))
              VUndef VUndef None (Some (url, fileName)) s
        end
      else
        addMessage env AI (VStr uploaded_ask_details) VUndef VUndef None
          (Some (url, fileName)) (setIsWaitingForNFTDetails true s)
  | None =>
      addMessage env AI (VStr uploaded_ask_details) VUndef VUndef None
        (Some (url, fileName)) (setIsWaitingForNFTDetails true s)
  end.

Definition upload_failed (error : string) : string :=
  "❌ **Upload Failed**

" +:+ error +:+ "

Please try again with a different image or check your internet connection.".

Definition handleUploadError (env : Env) (error : string) : Session -> Session :=
  say env (upload_failed error).

(** [/called\s+([^,\n]+?)(?:\s+description\s+(.+))?$/i] *)
Definition called_regex : regex :=
  RSeq (lit_ci "called")
    (RSeq (plus space)
       (RSeq (RGroup 1 (plus_lazy not_comma_newline))
          (RSeq (opt (RSeq (plus space)
                        (RSeq (lit_ci "description")
                           (RSeq (plus space) (RGroup 2 (plus dot))))))
             REnd))).

(** [/name:\s*([^,\n]+)/i] *)
Definition name_regex : regex :=
  RSeq (lit_ci "name:") (RSeq (star space) (RGroup 1 (plus not_comma_newline))).

(** [/description:\s*([^,\n]+)/i] *)
Definition description_regex : regex :=
  RSeq (lit_ci "description:") (RSeq (star space) (RGroup 1 (plus not_comma_newline))).

Definition need_at_least_a_name : string :=
  "I need at least a name for your NFT. Please tell me what to call it, like: "
  +:+ quote +:+ "Name it Digital Art" +:+ quote.

Definition what_name : string :=
  "What would you like to name your NFT? For example: "
  +:+ quote +:+ "Call it My Artwork" +:+ quote.

Definition need_a_name : string :=
  "I need a name for your NFT. Please say something like: "
  +:+ quote +:+ "Name it Hormaz" +:+ quote +:+ " or "
  +:+ quote +:+ "Call it Digital Art" +:+ quote.

Definition details_error : string :=
  "Error processing NFT details. Please try again.".

(** What the cascade of input formats makes of a reply: a name and a
    description (either may be empty), or an early re-prompt. *)
Inductive reply_details : Type :=
| Details (name description : string)
| AskAgain (prompt : string).

(** [m?.[1]?.trim() || ''] *)
Definition trimmed_group (m : option match_result) : string :=
  match m with
  | Some r => match group r 1 with Some g => trim g | None => "" end
  | None => ""
  end.

Definition parseNFTDetails (userInput : string) : reply_details :=
  let lower := toLowerCase userInput in
  if includes lower "create" && includes lower "nft" then
    match js_match called_regex userInput with
    | Some calledMatch =>
        let name := trim (default "" (group calledMatch 1)) in
        let description :=
          match group calledMatch 2 with Some d => trim d | None => "" end in
        Details name
          (if String.eqb (toLowerCase description) "nothing" then "" else description)
    | None => Details "" ""
    end
  else if bool_decide (is_Some (js_match name_regex userInput)) then
    Details (trimmed_group (js_match name_regex userInput))
            (trimmed_group (js_match description_regex userInput))
  else if includes lower "confirm" || includes lower "mint" || includes lower "proceed"
  then AskAgain need_at_least_a_name
  else if includes lower "skip" || includes lower "no description"
          || String.eqb lower "no"
  then AskAgain what_name
  else if (js_length userInput <? 50)%nat && negb (includes userInput ",")
  then Details (trim userInput) ""
  else Details "" "".

Definition handleNFTDetailsAfterUpload (env : Env) (userInput : string) (s : Session)
  : Session :=
  match uploadedImage s with
  | None => s
  | Some (url, _) =>
      match parseNFTDetails userInput with
      | AskAgain prompt => say env prompt s
      | Details name description =>
          if is_empty name then say env need_a_name s
          else
            let action :=
              nftAction (VStr name)
                (or_else (VStr description) (VStr placeholder_description)) url in
            match composer env action with
            | Normal confirmationMessage =>
                let s := say env confirmationMessage s in
                let s := awaitConfirmation env action s in
                setIsWaitingForNFTDetails false s
            | Throw _ => say env details_error s
            end
      end
  end.

(** *** The turn handler *)

Definition confirmation_error : string :=
  "Error generating confirmation. Please try again.".

Definition processing_error : string :=
  "I apologize, but I encountered an error. Please check your internet connection and try again.".

(** [result.action && result.action.action === 'upload_nft'
     && result.action.isComplete && result.requiresConfirmation] *)
Definition is_upload_request (result : AIResult) : completion bool :=
  if truthy (action result) then
    kind ← getProp (action result) "action";
    complete ← getProp (action result) "isComplete";
    Normal (is_string "upload_nft" kind && truthy complete
            && truthy (requiresConfirmation result))
  else Normal false.

(** [result.action && result.action.isComplete && result.requiresConfirmation] *)
Definition needs_confirmation (result : AIResult) : completion bool :=
  if truthy (action result) then
    complete ← getProp (action result) "isComplete";
    Normal (truthy complete && truthy (requiresConfirmation result))
  else Normal false.

(** The body of the outer [try] of [handleSendMessage], once the oracle
    has answered. *)
Definition handleAIResult (env : Env) (result : AIResult) (s : Session)
  : completion Session :=
  upload ← is_upload_request result;
  if upload : bool then
    details ← getProp (action result) "details";
    s ← (if truthy details then
           name ← getProp details "name";
           description ← getProp details "description";
           Normal (setPendingNFTDetails (Some (name, description)) s)
         else Normal s);
    Normal (addMessage env AI (response result) (action result) (VBool false)
              (Some true) None s)
  else
    let s := addMessage env AI (response result) (or_else (action result) VUndef)
               (requiresConfirmation result) None None s in
    confirm ← needs_confirmation result;
    if confirm : bool then
      match composer env (action result) with
      | Normal confirmationMessage =>
          Normal (awaitConfirmation env (action result) (say env confirmationMessage s))
      | Throw _ => Normal (say env confirmation_error s)
      end
    else Normal s.

Definition awaiting (s : Session) : bool :=
  match pendingAction (store s) with
  | Some p => isWaitingForConfirmation p
  | None => false
  end.

Definition handleSendMessage (env : Env) (s : Session) : Session :=
  if is_empty (trim (inputValue s)) || isProcessing (store s) then s
  else
    let userInput := trim (inputValue s) in
    let context := slice_last 10 (messages (store s)) in
    let gate := awaiting s in
    let waiting := isWaitingForNFTDetails s in
    let s := setInputValue "" s in
    let s := addMessage env User (VStr userInput) VUndef VUndef None None s in
    if gate then handleConfirmationResponse env userInput s
    else if waiting then handleNFTDetailsAfterUpload env userInput s
    else
      let s := setProcessing true s in
      let s := log (OracleCalled userInput) s in
      let result := processUserInput (JSON_parse env) (oracle env userInput context) in
      let s := try_catch (handleAIResult env result s)
                 (fun _ => say env processing_error s) in
      setProcessing false s.

Definition initial_session (env : Env) : Session :=
  {| store := initial_state env; inputValue := "";
     uploadedImage := None; isWaitingForNFTDetails := false;
     pendingNFTDetails := None; trace := []; tick := 1 |}.

(** The user types [text] and sends it. *)
Definition send (env : Env) (text : string) (s : Session) : Session :=
  handleSendMessage env (setInputValue text s).

(** *** Counting calls in a trace *)

Definition is_executor (e : event) : bool :=
  match e with ExecutorInvoked => true | _ => false end.


Definition is_submission (e : event) : bool :=
  match e with Submitted _ _ => true | _ => false end.

Definition executor_calls (s : Session) : nat := length (List.filter is_executor (trace s)).
Definition submissions (s : Session) : nat := length (List.filter is_submission (trace s)).

(** The content of the message appended last. *)
Definition last_content (s : Session) : option value :=
  msg_content <$> last (messages (store s)).

End WithEngine.

End AIChat.

(** ** Vocabulary of the statements *)

Module Spec.
Import JSString Regex JS GeminiAI ConversationStore AIChat.

Section WithEngine.
Context `{engine : Engine}.

(** [v.key] where the read cannot fail, [undefined] otherwise. *)
Definition field (v : value) (key : string) : value :=
  match getProp v key with
  | Normal x => x
  | Throw _ => VUndef
  end.

(** The same read on the properties of an object. *)
Definition prop (m : gmap string value) (key : string) : value :=
  default VUndef (m !! key).

(** The two fields [parseAIResponse] requires of a transfer. *)
Definition fields_present (details : value) : bool :=
  truthy (field details "recipient") && truthy (field details "amount").

Definition missing_fields (details : value) : list value :=
  (if truthy (field details "recipient") then [] else [VStr "recipient"])
  ++ (if truthy (field details "amount") then [] else [VStr "amount"]).

(** The text [JSON.parse] is given: the first capture of the fence. *)
Definition fenced_json (text : string) : option string :=
  match js_match fence_regex text with
  | Some m => Some (default "" (group m 1))
  | None => None
  end.


(** The name the cascade of [handleNFTDetailsAfterUpload] captures from a
    reply; empty when it captures none. *)
Definition captured_name (userInput : string) : string :=
  match parseNFTDetails userInput with
  | Details name _ => name
  | AskAgain _ => ""
  end.

(** The three re-prompts that ask for a name. *)
Definition name_prompts : list value :=
  [VStr need_at_least_a_name; VStr what_name; VStr need_a_name].

(** The keyword categories of [generateSmartTotalSupply], on the
    lower-cased name. *)
Definition gaming (name : string) : bool :=
  existsb (includes name) ["game"; "gaming"; "play"; "quest"; "rpg"; "nft"].
Definition meme (name : string) : bool :=
  existsb (includes name) ["meme"; "pepe"; "doge"; "shib"; "moon"; "rocket"].
Definition governance (name : string) : bool :=
  existsb (includes name) ["govern"; "vote"; "dao"; "council"; "proposal"].
Definition utility (name : string) : bool :=
  existsb (includes name) ["utility"; "app"; "platform"; "service"; "network"].
Definition stablecoin (name : string) : bool :=
  existsb (includes name) ["stable"; "usd"; "dollar"; "peg"].

Definition is_hex (c : ascii) : bool :=
  is_digit c
  || ((97 <=? code (lower_char c))%nat && (code (lower_char c) <=? 102)%nat).

(** Modelled from the spec: a syntactically valid chain address, that is
    [0x] followed by forty hexadecimal digits (the parse boundary has no
    such check; the submission collaborator asks [ethers.isAddress]). *)
Definition is_chain_address (v : value) : bool :=
  match v with
  | VStr (String "0" (String "x" digits)) =>
      (String.length digits =? 40)%nat
      && forallb is_hex (list_ascii_of_string digits)
  | _ => false
  end.

(** Modelled from the spec: a positive finite number. *)
Definition is_positive_finite (v : value) : bool :=
  match v with
  | VNum x => PrimFloat.ltb 0%float x && negb (PrimFloat.is_infinity x)
  | _ => false
  end.

(** Modelled from the spec: the completeness invariant of the data model
    for a transfer, "complete exactly when nothing is missing and the
    recipient and the amount are individually valid". *)
Definition transfer_invariant (act : value) : Prop :=
  getProp act "isComplete" = Normal (VBool true) <->
  (getProp act "missingFields" = Normal (array [])
   /\ is_chain_address (field (field act "details") "recipient") = true
   /\ is_positive_finite (field (field act "details") "amount") = true).

(** The details of a token request once [create_token_defaults] has run
    on the oracle's object; [undefined] if the block throws. *)
Definition defaults_of (parsedJson : value) : value :=
  match create_token_defaults parsedJson with
  | Normal parsedJson' => field (field parsedJson' "action") "details"
  | Throw _ => VUndef
  end.


(** The message carries a valid date. *)
Definition has_valid_date (m : ConversationMessage) : bool :=
  match msg_timestamp m with
  | DateValue t => JSDate.valid_timeb t
  | InvalidDate => false
  end.

(** A field of the pending action. *)
Definition pending_field (key : string) (s : Session) : option value :=
  (fun p => field (pa_action p) key) <$> pendingAction (store s).

(** The field of the details of a pending action. *)
Definition pending_detail (key : string) (s : Session) : option value :=
  (fun p => field (field (pa_action p) "details") key) <$> pendingAction (store s).

(** A name or a description is known from before the upload. *)
Definition has_stored_details (s : Session) : bool :=
  match pendingNFTDetails s with
  | Some (name, description) => truthy name || truthy description
  | None => false
  end.

(** Every message of the session carries a valid date. *)
Definition dated (s : Session) : Prop :=
  forallb has_valid_date (messages (store s)) = true.

(** The clock only shows times a [Date] can hold. *)
Definition valid_clock (env : Env) : Prop :=
  forall k, JSDate.valid_timeb (now env k) = true.

(** The three rewriting blocks in sequence. *)
Definition rewritten (pj0 pj3 : value) : Prop :=
  exists pj1 pj2,
    create_token_defaults pj0 = Normal pj1
    /\ send_transaction_validation pj1 = Normal pj2
    /\ upload_nft_handling pj2 = Normal pj3.

Definition result_of (text : string) (pj : value) : AIResult :=
  {| response := or_else (field pj "response") (VStr text);
     action := or_else (field pj "action") VNull;
     requiresConfirmation := or_else (field pj "requiresConfirmation") (VBool false) |}.

End WithEngine.

End Spec.

(** ** Sample collaborators and inputs *)

Module Scenario.
Import JSString Regex JS GeminiAI ConversationStore AIChat.

(** An engine whose tables hold no letter beyond ASCII. *)
Definition ascii_engine : Engine :=
  {| lower_case := map_chars lower_char; upper_case := map_chars upper_char |}.

#[local] Existing Instance ascii_engine.

(** An oracle answer whose fenced block holds [body]. *)
Definition fenced (body : string) : string :=
  "Here you go:" +:+ nl +:+ "```json" +:+ nl +:+ body +:+ nl +:+ "```".

(** A [JSON.parse] that rejects every text. *)
Definition rejects : string -> option value := fun _ => None.

Definition answer_props (act : value) : gmap string value :=
  list_to_map [("response", VStr "Sure."); ("action", act);
               ("requiresConfirmation", VBool true)].

(** The object the oracle's fenced block parses to. *)
Definition answer (act : value) : value := VObj (answer_props act).

Definition transfer_details : gmap string value :=
  list_to_map [("recipient", VStr "bob"); ("amount", VNum (-5)%float)].

Definition transfer_props : gmap string value :=
  list_to_map [("action", VStr "send_transaction"); ("confidence", VNum 0.9%float);
               ("details", VObj transfer_details);
               ("missingFields", array [VStr "token"]); ("isComplete", VBool false)].

(** "Send minus five to bob". *)
Definition transfer_to_bob : value := VObj transfer_props.

Definition token_details (name : string) (decimals : option string)
  : gmap string value :=
  list_to_map (("name", VStr name)
               :: match decimals with
                  | Some d => [("decimals", VStr d)]
                  | None => []
                  end).

Definition token_props (name : string) (decimals : option string)
  : gmap string value :=
  list_to_map [("action", VStr "create_token"); ("confidence", VNum 0.9%float);
               ("details", VObj (token_details name decimals));
               ("missingFields", array []); ("isComplete", VBool true)].

(** A token request that names the token, and perhaps its decimals. *)
Definition token_request (name : string) (decimals : option string) : value :=
  VObj (token_props name decimals).

(** An upload request that carries a description and no name. *)
Definition upload_request : value :=
  object [("action", VStr "upload_nft"); ("confidence", VNum 0.9%float);
          ("details", object [("description", VStr "a sunset over the bay")]);
          ("missingFields", array []); ("isComplete", VBool false)].

(** The JSON texts of the sample answers. *)
Definition quoted (s : string) : string := quote +:+ s +:+ quote.

Definition member (key json : string) : string := quoted key +:+ ": " +:+ json.

Definition braces (members : list string) : string :=
  "{" +:+ String.concat ", " members +:+ "}".

Definition answer_text (act : string) : string :=
  braces [member "response" (quoted "Sure."); member "action" act;
          member "requiresConfirmation" "true"].

Definition transfer_text : string :=
  answer_text
    (braces [member "action" (quoted "send_transaction"); member "confidence" "0.9";
             member "details"
               (braces [member "recipient" (quoted "bob"); member "amount" "-5"]);
             member "missingFields" ("[" +:+ quoted "token" +:+ "]");
             member "isComplete" "false"]).

Definition upload_text : string :=
  answer_text
    (braces [member "action" (quoted "upload_nft"); member "confidence" "0.9";
             member "details"
               (braces [member "description" (quoted "a sunset over the bay")]);
             member "missingFields" "[]"; member "isComplete" "false"]).

(** [JSON.parse] on the sample texts; it knows no other text. *)
Definition sample_parse (text : string) : option value :=
  if String.eqb text transfer_text then Some (answer transfer_to_bob)
  else if String.eqb text upload_text then Some (answer upload_request)
  else None.

Definition receipt : SubmissionResult :=
  {| success := true; hash := Some "0x5e1f"; contractAddress := None;
     tokenId := Some "7"; explorerUrl := None; error := None |}.

(** Collaborators that all answer: the oracle says [text], [JSON.parse]
    is [parse]. *)
Definition env_with (text : string) (parse : string -> option value) : Env :=
  {| now := fun k => (1762041600000 + Z.of_nat k)%Z;
     random_suffix := fun _ => "k3x9q2m1z";
     number_to_string := fun _ => "0";
     oracle := fun _ _ => Normal text;
     JSON_parse := parse;
     composer := fun _ => Normal "**Should I proceed?** (Yes/No)";
     load_modules := Normal ();
     wallet := Some {| address := "0x00a1"; privateKey := "U2FsdGVk" |};
     decryptPrivateKey := fun _ => Normal "0x4c08";
     createToken := fun _ _ => Normal receipt;
     mintNFT := fun _ _ _ => Normal receipt;
     sendTransaction := fun _ _ => Normal receipt |}.

Definition chatty : Env := env_with "Hello! How can I help?" rejects.

(** An oracle that answers "mint an nft of ..." with an upload request
    carrying the description. *)
Definition painter : Env := env_with (fenced upload_text) sample_parse.

Definition asked_for_upload : Session :=
  send painter "mint an nft of a sunset over the bay" (initial_session painter).

Definition uploaded_unnamed : Session :=
  handleUploadComplete painter "https://gnfd.example/bay.png" "bay.png"
    asked_for_upload.

(** The session after an image was uploaded with nothing known about
    the NFT: the component waits for its details. *)
Definition after_upload : Session :=
  handleUploadComplete chatty "https://gnfd.example/art.png" "art.png"
    (initial_session chatty).

(** The same session once the user has named the NFT: the gate awaits
    the confirmation. *)
Definition awaiting_mint : Session := send chatty "Dawn" after_upload.

End Scenario.

(** ** The chat component as a whole: its handlers under the user's events *)

Module ChatLoop.
Import JSString JS GeminiAI ConversationStore AIChat.

Section WithEngine.
Context `{engine : Engine}.

(** What the user can do to the chat: type a message and send it (the
    Send button, or Enter), have the upload button report an uploaded
    image or a failed upload, press Clear Chat. *)
Inductive ui_event : Type :=
| Typed (text : string)
| Uploaded (url fileName : string)
| UploadFailed (error : string)
| Cleared.

(** The handler the component binds to each event. *)
Definition handle (env : Env) (e : ui_event) (s : Session) : Session :=
  match e with
  | Typed text => send env text s
  | Uploaded url fileName => handleUploadComplete env url fileName s
  | UploadFailed error => handleUploadError env error s
  | Cleared => clearConversation env s
  end.

(** A session: the events one after the other, each with the outcomes
    its collaborators have at that time. *)
Definition session (steps : list (Env * ui_event)) (s : Session) : Session :=
  fold_left (fun s step => handle (fst step) (snd step) s) steps s.

(** The event is a message that the gate reads as a confirmation:
    [handleSendMessage] trims it, [handleConfirmationResponse] lower-cases
    and trims what it is given. *)
Definition confirms (e : ui_event) : bool :=
  match e with
  | Typed text => array_includes affirmative (trim (toLowerCase (trim text)))
  | _ => false
  end.

Definition confirmations (steps : list (Env * ui_event)) : nat :=
  length (List.filter (fun step => confirms (snd step)) steps).

(** The state of a turn once the user's message is recorded. *)
Definition after_user_message (env : Env) (s : Session) : Session :=
  addMessage env User (VStr (trim (inputValue s))) VUndef VUndef None None
    (setInputValue "" s).

(** The messages are all from the assistant. *)
Definition from_assistant (ms : list ConversationMessage) : Prop :=
  Forall (fun m => msg_type m = AI) ms.

(** [s'] has the history of [s] and, after it, replies of the assistant. *)
Definition extends (s s' : Session) : Prop :=
  exists replies,
    messages (store s') = (messages (store s) ++ replies)%list
    /\ from_assistant replies.

(** [s'] has the history of [s] and at least one reply after it. *)
Definition answers (s s' : Session) : Prop :=
  exists reply replies,
    messages (store s') = (messages (store s) ++ reply :: replies)%list
    /\ from_assistant (reply :: replies).

(** While the component waits for the details of an NFT it holds the
    uploaded image. *)
Definition waiting_has_image (s : Session) : Prop :=
  isWaitingForNFTDetails s = true -> uploadedImage s <> None.

End WithEngine.

(** The string is white space only (or empty): nothing is left of it once
    the white space it starts with is removed. *)
Definition blank (text : string) : bool := is_empty (trimStart text).

End ChatLoop.

(** ** Vocabulary of the statements on strings *)

Module Words.
Import JSString.

(** The string holds none of the letters a to z. *)
Definition shouts (s : string) : bool :=
  forallb (fun c => negb (is_lower c)) (list_ascii_of_string s).

(** The two marks of a fenced block, each with its line break. *)
Definition opening : string := "```json" +:+ String newline "".
Definition closing : string := String newline "```".

End Words.

(** ** priceService.ts: the BNB price with its cache

  The class keeps one static field, [cachedPrice].  A call is a function
  of that field, of the clock and of what the network answers; it
  returns its result, the new value of the field and the sources it
  contacted, in order.  The outcome of one source stands for its
  [fetch], the check of [response.ok], [response.json()] and the source's
  [parser], whose result has the fields of [PriceData], numbers as the
  interface declares them. *)

Module PriceService.
Import JSString JS.

Record PriceData : Type := {
  price : float;
  change24h : float;
  lastUpdated : Z;
  source : string
}.

(** [cacheExpiry = 5 * 60 * 1000] *)
Definition cacheExpiry : Z := 5 * 60 * 1000.

(** The names of [priceSources], in the order of the array. *)
Definition priceSources : list string := ["CoinGecko"; "CoinCap"; "Binance"].

(** The static field and the number of readings of the clock so far. *)
Record State : Type := {
  cachedPrice : option PriceData;
  clock : nat
}.

(** [now k] is the [k]-th reading of [Date.now()] by the methods of the
    class (what a parser reads of the clock is part of the outcome of its
    source); [fetch name] is the outcome of the source of that name. *)
Record Net : Type := {
  now : nat -> Z;
  fetch : string -> completion PriceData
}.

Definition initial : State := {| cachedPrice := None; clock := 0 |}.

(** [!price || isNaN(price) || price <= 0] *)
Definition invalid_price (x : float) : bool :=
  negb (truthy (VNum x)) || PrimFloat.is_nan x || PrimFloat.leb x 0.

(** The body of the [try] of the loop of [fetchPriceFromSources] for one
    source. *)
Definition attempt (net : Net) (name : string) : completion PriceData :=
  priceData ← fetch net name;
  if invalid_price (price priceData)
  then throw_error "Invalid price data received"
  else Normal priceData.

(** [`${source.name}: ${error instanceof Error ? error.message : ...}`] *)
Definition source_error (name : string) (e : js_error) : string :=
  name +:+ ": " +:+ default "Unknown error" (message e).

(** [fetchPriceFromSources], from the sources still to try and the
    errors collected so far: the outcome and the sources contacted. *)
Fixpoint fetchPriceFrom (net : Net) (sources : list string) (errors : list string)
  : completion PriceData * list string :=
  match sources with
  | [] =>
      (throw_error ("All price sources failed: " +:+ String.concat ", " errors), [])
  | name :: sources' =>
      match attempt net name with
      | Normal priceData => (Normal priceData, [name])
      | Throw e =>
          let '(outcome, contacted) :=
            fetchPriceFrom net sources' (errors ++ [source_error name e])%list in
          (outcome, name :: contacted)
      end
  end.

Definition fetchPriceFromSources (net : Net) : completion PriceData * list string :=
  fetchPriceFrom net priceSources [].

(** [this.cachedPrice && Date.now() - this.cachedPrice.lastUpdated
     < this.cacheExpiry]: the cached price if it is fresh, and the number
    of readings of the clock it took to tell. *)
Definition fresh (net : Net) (st : State) : option PriceData * nat :=
  match cachedPrice st with
  | Some c =>
      (if (now net (clock st) - lastUpdated c <? cacheExpiry)%Z then Some c else None, 1)
  | None => (None, 0)
  end.

Definition fallbackPrice (t : Z) : PriceData :=
  {| price := 600; change24h := 0; lastUpdated := t; source := "Fallback" |}.

Definition getBNBPrice (net : Net) (st : State)
  : PriceData * State * list string :=
  let '(hit, read) := fresh net st in
  match hit with
  | Some c => (c, {| cachedPrice := cachedPrice st; clock := clock st + read |}, [])
  | None =>
      let k := clock st + read in
      let '(outcome, contacted) := fetchPriceFromSources net in
      match outcome with
      | Normal priceData =>
          let cached :=
            {| price := price priceData; change24h := change24h priceData;
               lastUpdated := now net k; source := source priceData |} in
          (cached, {| cachedPrice := Some cached; clock := S k |}, contacted)
      | Throw _ =>
          (fallbackPrice (now net k),
           {| cachedPrice := cachedPrice st; clock := S k |}, contacted)
      end
  end.

(** [refreshPrice]: forget the cached price, then [getBNBPrice]. *)
Definition refreshPrice (net : Net) (st : State)
  : PriceData * State * list string :=
  getBNBPrice net {| cachedPrice := None; clock := clock st |}.

(** [getCachedPrice] *)
Definition getCachedPrice (net : Net) (st : State) : option PriceData * State :=
  let '(hit, read) := fresh net st in
  (hit, {| cachedPrice := cachedPrice st; clock := clock st + read |}).

(** The cached price, if any, has passed the validation. *)
Definition sound (st : State) : Prop :=
  match cachedPrice st with
  | Some c => invalid_price (price c) = false
  | None => True
  end.

(** The calls a client makes, one after the other. *)
Inductive call : Type := Get | Refresh | Peek.

Definition perform (net : Net) (c : call) (st : State) : option PriceData * State :=
  match c with
  | Get => let '(r, st', _) := getBNBPrice net st in (Some r, st')
  | Refresh => let '(r, st', _) := refreshPrice net st in (Some r, st')
  | Peek => getCachedPrice net st
  end.

(** The results of a sequence of calls, each under the network of its
    time. *)
Fixpoint results (calls : list (Net * call)) (st : State) : list (option PriceData) :=
  match calls with
  | [] => []
  | (net, c) :: calls' =>
      let '(r, st') := perform net c st in r :: results calls' st'
  end.

End PriceService.

(** ** blockchainService.ts: the transfer

  [sendTransaction] is a function of the details of the action, of the
  signing key and of what the chain and the [ethers] library answer; it
  returns its result together with the state-changing calls it made, in
  order.  Balances, amounts and gas are the big integers of the source;
  a thrown value that is no [Error] has no message ([None]). *)

Module BlockchainService.
Import JSString JS ConversationStore.

(** A transaction that was sent: its hash, and how [tx.wait()] and the
    reading of the block number of its receipt end. *)
Record Tx : Type := {
  tx_hash : string;
  tx_wait : completion unit
}.

(** What [name()], [symbol()] and [decimals()] of a token return. *)
Record TokenInfo : Type := {
  tokenName : string;
  tokenSymbol : string;
  decimals : Z
}.

(** A state-changing call: [wallet.sendTransaction] or the token's
    [transfer]. *)
Inductive write : Type :=
| SendBNB (to : value) (amount gasLimit : Z)
| TransferToken (token to : value) (amount gasLimit : Z).

Record Chain : Type := {
  explorer : option string;
  number_to_string : float -> string;
  new_Wallet : string -> completion string;
  isAddress : value -> bool;
  parseFloat : string -> float;
  parseEther : string -> completion Z;
  parseUnits : string -> Z -> completion Z;
  formatEther : Z -> string;
  formatUnits : Z -> Z -> string;
  getBalance : string -> completion Z;
  getFeeData_gasPrice : completion (option Z);
  wallet_sendTransaction : value -> Z -> Z -> completion Tx;
  token_info : value -> completion TokenInfo;
  token_balanceOf : value -> string -> completion Z;
  token_transfer_estimateGas : value -> value -> Z -> completion Z;
  token_transfer : value -> value -> Z -> Z -> completion Tx
}.

(** A computation that makes calls on the chain and may throw. *)
Inductive outcome (A : Type) : Type :=
| Outcome (writes : list write) (c : completion A).
Arguments Outcome {A} writes c.

Definition writes {A} (o : outcome A) : list write :=
  match o with Outcome ws _ => ws end.

Definition completes {A} (o : outcome A) : completion A :=
  match o with Outcome _ c => c end.

Definition pure {A} (c : completion A) : outcome A := Outcome [] c.

Definition call (w : write) (c : completion Tx) : outcome Tx := Outcome [w] c.

Definition andThen {A B} (o : outcome A) (f : A -> outcome B) : outcome B :=
  match o with
  | Outcome ws (Normal a) =>
      match f a with Outcome ws' c => Outcome (ws ++ ws')%list c end
  | Outcome ws (Throw e) => Outcome ws (Throw e)
  end.

Definition raise {A} (msg : string) : outcome A := pure (throw_error msg).

(** [try { o } catch (e) { throw new Error(wrap e) }] *)
Definition rethrow {A} (o : outcome A) (wrap : js_error -> string) : outcome A :=
  match o with
  | Outcome ws (Throw e) => Outcome ws (throw_error (wrap e))
  | _ => o
  end.

(** [error instanceof Error ? error.message : fallback] *)
Definition message_of (e : js_error) (fallback : string) : string :=
  default fallback (message e).

(** [getExplorerUrl] *)
Definition getExplorerUrl (chain : Chain) (hash : string) : string :=
  (if present (explorer chain) then interpolate (explorer chain)
   else "https://opbnbscan.com") +:+ "/tx/" +:+ hash.

(** [(await provider.getFeeData()).gasPrice || ethers.parseUnits('1', 'gwei')] *)
Definition gasPrice_or_gwei (g : option Z) : Z :=
  match g with
  | Some p => if (p =? 0)%Z then 1000000000%Z else p
  | None => 1000000000%Z
  end.

(** [isNaN(parseFloat(amount)) || parseFloat(amount) <= 0] *)
Definition invalid_amount (chain : Chain) (amount : string) : bool :=
  PrimFloat.is_nan (parseFloat chain amount) || PrimFloat.leb (parseFloat chain amount) 0.

Definition failed (msg : string) : SubmissionResult :=
  {| success := false; hash := None; contractAddress := None; tokenId := None;
     explorerUrl := None; error := Some msg |}.

Definition sent (chain : Chain) (tx : Tx) : SubmissionResult :=
  {| success := true; hash := Some (tx_hash tx); contractAddress := None;
     tokenId := None; explorerUrl := Some (getExplorerUrl chain (tx_hash tx));
     error := None |}.

End BlockchainService.

#[global] Instance outcome_ret : MRet BlockchainService.outcome :=
  fun A a => BlockchainService.pure (JS.Normal a).
#[global] Instance outcome_bind : MBind BlockchainService.outcome :=
  fun A B f o => BlockchainService.andThen o f.

Module Transfer.
Import JSString JS ConversationStore BlockchainService.

Section WithChain.
Variable chain : Chain.

Definition shown (v : value) : string := display (number_to_string chain) v.

(** The branch that sends BNB. *)
Definition sendBNB (recipient : value) (amount : string) (balance : Z) : outcome Tx :=
  valueToSend ← pure (parseEther chain amount);
  gasPrice ← pure (getFeeData_gasPrice chain);
  let gasLimit := 21000%Z in
  let gasCost := (gasLimit * gasPrice_or_gwei gasPrice)%Z in
  let totalCost := (valueToSend + gasCost)%Z in
  if (balance <? totalCost)%Z then
    raise ("Insufficient BNB balance. Need " +:+ formatEther chain totalCost
           +:+ " BNB but only have " +:+ formatEther chain balance +:+ " BNB. "
           +:+ "(Amount: " +:+ formatEther chain valueToSend
           +:+ " + Gas: " +:+ formatEther chain gasCost +:+ ")")
  else
    call (SendBNB recipient valueToSend gasLimit)
      (wallet_sendTransaction chain recipient valueToSend gasLimit).

(** The body of the inner [try] of the branch that sends a token. *)
Definition sendToken_body (token recipient : value) (amount : string)
    (address : string) (balance : Z) : outcome Tx :=
  info ← pure (token_info chain token);
  tokenBalance ← pure (token_balanceOf chain token address);
  amountToSend ← pure (parseUnits chain amount (decimals info));
  if (tokenBalance <? amountToSend)%Z then
    raise ("Insufficient " +:+ tokenSymbol info +:+ " balance. Need "
           +:+ formatUnits chain amountToSend (decimals info) +:+ " "
           +:+ tokenSymbol info +:+ " but only have "
           +:+ formatUnits chain tokenBalance (decimals info) +:+ " "
           +:+ tokenSymbol info +:+ ".")
  else
    estimatedGas ← pure (token_transfer_estimateGas chain token recipient amountToSend);
    gasPrice ← pure (getFeeData_gasPrice chain);
    let gasCost := (estimatedGas * gasPrice_or_gwei gasPrice)%Z in
    if (balance <? gasCost)%Z then
      raise ("Insufficient BNB for gas fees. Need " +:+ formatEther chain gasCost
             +:+ " BNB for gas but only have " +:+ formatEther chain balance +:+ " BNB.")
    else
      let gasLimit := (estimatedGas * 120 ÷ 100)%Z in
      call (TransferToken token recipient amountToSend gasLimit)
        (token_transfer chain token recipient amountToSend gasLimit).

Definition sendToken (token recipient : value) (amount : string)
    (address : string) (balance : Z) : outcome Tx :=
  if negb (isAddress chain token) then
    raise ("Invalid token address: " +:+ shown token)
  else
    rethrow (sendToken_body token recipient amount address balance)
      (fun tokenError =>
         "Token transaction failed: " +:+ message_of tokenError "Unknown error").

(** The body of the [try] of [sendTransaction]. *)
Definition sendTransaction_body (transactionDetails : value) (privateKey : string)
  : outcome SubmissionResult :=
  address ← pure (new_Wallet chain privateKey);
  recipient ← pure (getProp transactionDetails "recipient");
  amount ← pure (getProp transactionDetails "amount");
  if negb (truthy recipient) || negb (truthy amount) then
    raise "Recipient and amount are required"
  else if negb (isAddress chain recipient) then
    raise ("Invalid recipient address: " +:+ shown recipient)
  else
    let amount := shown amount in
    if invalid_amount chain amount then raise ("Invalid amount: " +:+ amount)
    else
      balance ← pure (getBalance chain address);
      token ← pure (getProp transactionDetails "token");
      tx ← (if is_string "BNB" token || negb (truthy token)
            then sendBNB recipient amount balance
            else sendToken token recipient amount address balance);
      _ ← pure (tx_wait tx);
      mret (sent chain tx).

Definition sendTransaction (transactionDetails : value) (privateKey : string)
  : list write * SubmissionResult :=
  match sendTransaction_body transactionDetails privateKey with
  | Outcome ws (Normal result) => (ws, result)
  | Outcome ws (Throw e) => (ws, failed (message_of e "Transaction failed"))
  end.

End WithChain.

(** What [sendTransaction] requires of the details before it turns to
    the chain: a recipient and an amount, the recipient an address, the
    amount a number greater than zero. *)
Definition acceptable (chain : Chain) (details : value) : bool :=
  truthy (Spec.field details "recipient") && truthy (Spec.field details "amount")
  && isAddress chain (Spec.field details "recipient")
  && negb (invalid_amount chain (shown chain (Spec.field details "amount"))).

(** The transfer is of BNB: the token is "BNB" or is not given. *)
Definition of_BNB (details : value) : bool :=
  is_string "BNB" (Spec.field details "token")
  || negb (truthy (Spec.field details "token")).

(** What the call [w] returned. *)
Definition returned (chain : Chain) (w : write) : completion Tx :=
  match w with
  | SendBNB to amount gasLimit => wallet_sendTransaction chain to amount gasLimit
  | TransferToken token to amount gasLimit =>
      token_transfer chain token to amount gasLimit
  end.

(** The call [w] is the transfer the details ask for, and the wallet of
    the key can pay for it. *)
Definition backed (chain : Chain) (details : value) (privateKey : string)
    (w : write) : Prop :=
  exists address balance gasPrice,
    new_Wallet chain privateKey = Normal address
    /\ getBalance chain address = Normal balance
    /\ getFeeData_gasPrice chain = Normal gasPrice
    /\ match w with
       | SendBNB to amount gasLimit =>
           of_BNB details = true
           /\ to = Spec.field details "recipient"
           /\ parseEther chain (shown chain (Spec.field details "amount")) = Normal amount
           /\ gasLimit = 21000%Z
           /\ (amount + 21000 * gasPrice_or_gwei gasPrice <= balance)%Z
       | TransferToken token to amount gasLimit =>
           of_BNB details = false
           /\ token = Spec.field details "token"
           /\ isAddress chain token = true
           /\ to = Spec.field details "recipient"
           /\ exists info tokenBalance estimatedGas,
                token_info chain token = Normal info
                /\ token_balanceOf chain token address = Normal tokenBalance
                /\ parseUnits chain (shown chain (Spec.field details "amount"))
                     (decimals info) = Normal amount
                /\ (amount <= tokenBalance)%Z
                /\ token_transfer_estimateGas chain token to amount = Normal estimatedGas
                /\ (estimatedGas * gasPrice_or_gwei gasPrice <= balance)%Z
                /\ gasLimit = (estimatedGas * 120 ÷ 100)%Z
       end.

(** The computation throws before it makes any call. *)
Definition stops {A} (o : outcome A) : Prop :=
  writes o = [] /\ exists e, completes o = Throw e.

(** The computation makes the call [w] and no other; when the call
    returns a transaction it ends as [done] says, and when the call
    throws it throws. *)
Definition ends_after {A} (chain : Chain) (o : outcome A) (w : write)
    (done : Tx -> completion A) : Prop :=
  writes o = [w]
  /\ (forall tx, returned chain w = Normal tx -> completes o = done tx)
  /\ (forall e, returned chain w = Throw e -> exists e', completes o = Throw e').

End Transfer.

(** ** greenfieldService.ts and UploadButton.tsx: from a file to an event of the chat *)

Module GreenfieldService.
Import JSString JS.

(** What the code reads of a [File]. *)
Record File : Type := {
  file_name : string;
  file_type : string;
  file_size : Z
}.

Record Validation : Type := {
  valid : bool;
  validation_error : option string
}.

Record UploadResult : Type := {
  upload_success : bool;
  url : option string;
  upload_error : option string;
  objectName : option string;
  bucketName : option string
}.

(** [100 * 1024 * 1024] *)
Definition maxSize : Z := 100 * 1024 * 1024.

Definition allowedTypes : list string :=
  ["image/jpeg"; "image/jpg"; "image/png"; "image/gif"; "image/webp"].

Definition wrong_type : string :=
  "Please upload a valid image file (JPEG, PNG, GIF, or WebP)".

Definition too_large : string := "File size must be less than 100MB".

Definition validateImageFile (file : File) : Validation :=
  if negb (array_includes allowedTypes (file_type file)) then
    {| valid := false; validation_error := Some wrong_type |}
  else if (maxSize <? file_size file)%Z then
    {| valid := false; validation_error := Some too_large |}
  else {| valid := true; validation_error := None |}.

(** How [FileReader.readAsDataURL] ends: [onload] fires with a result
    (a data URL, or [null]), or it never fires (the read failed, and the
    promise that waits for [onload] is never settled). *)
Inductive reading : Type :=
| Loaded (result : option string)
| Stalled.

(** What surrounds the upload: the bucket configured, the clock and the
    reader. *)
Record Storage : Type := {
  bucket : string;
  clock : Z;
  pretty_number : Z -> string;
  readAsDataURL : File -> reading
}.

(** [uploadImage]: the bucket of the mock is always ready and nothing in
    the [try] throws, so the promise is fulfilled with a success once the
    file is read; [None] when it is never settled. *)
Definition uploadImage (storage : Storage) (file : File) (privateKey : string)
    (fileName : option string) : option UploadResult :=
  match readAsDataURL storage file with
  | Stalled => None
  | Loaded dataUrl =>
      Some {| upload_success := true;
              url := dataUrl;
              upload_error := None;
              objectName :=
                Some (if present fileName then interpolate fileName
                      else "nft-" +:+ pretty_number storage (clock storage)
                           +:+ "-" +:+ file_name file);
              bucketName := Some (bucket storage) |}
  end.

End GreenfieldService.

Module UploadButton.
Import JSString JS ConversationStore AIChat ChatLoop GreenfieldService.

(** What [handleFileSelect] reports to the chat: nothing, one call of
    [onUploadComplete] or of [onUploadError], or nothing yet because the
    upload is never settled. *)
Inductive report : Type :=
| Nothing
| Raised (e : ui_event)
| Hangs.

(** [error.message || 'Upload failed'] *)
Definition upload_failure (e : js_error) : string :=
  if present (message e) then interpolate (message e) else "Upload failed".

(** [handleFileSelect] with the callbacks the chat passes
    ([onUploadComplete] and [onUploadError]; it passes no
    [onUploadStart]).  [file] is [event.target.files?.[0]]. *)
Definition handleFileSelect (env : Env) (storage : Storage) (file : option File)
  : report :=
  match file, wallet env with
  | Some file, Some w =>
      if is_empty (privateKey w) then Nothing
      else
        let validation := validateImageFile file in
        if negb (valid validation) then
          Raised (UploadFailed
                    (if present (validation_error validation)
                     then interpolate (validation_error validation)
                     else "Invalid file"))
        else
          match decryptPrivateKey env (privateKey w) with
          | Throw e => Raised (UploadFailed (upload_failure e))
          | Normal key =>
              match uploadImage storage file key (Some (file_name file)) with
              | None => Hangs
              | Some result =>
                  if upload_success result && present (url result) then
                    Raised (Uploaded (interpolate (url result)) (file_name file))
                  else
                    Raised (UploadFailed
                              (upload_failure
                                 (JsError
                                    (Some (if present (upload_error result)
                                           then interpolate (upload_error result)
                                           else "Upload failed")))))
              end
          end
  | _, _ => Nothing
  end.

(** The file is one that [validateImageFile] lets through. *)
Definition is_image (file : File) : bool :=
  array_includes allowedTypes (file_type file) && (file_size file <=? maxSize)%Z.

End UploadButton.

(** ** What a pattern can match

  [run] decides which match is found; [matches] says what a match of a
  pattern can be, whatever its priority: the states a pattern can lead
  to from a state. *)

Module RegexTheory.
Import JSString Regex.

(** The loop of [run] on a star, by its name. *)
Definition star_loop (lazy : bool) (r : regex)
  : nat -> mstate -> cont -> option mstate :=
  fix loop (fuel : nat) (st : mstate) (k : cont) {struct fuel} : option mstate :=
    match fuel with
    | O => k st
    | S fuel' =>
        let step st1 :=
          if (length (rest st1) <? length (rest st))%nat
          then loop fuel' st1 k else None in
        if lazy then
          match k st with
          | Some res => Some res
          | None => run r st step
          end
        else
          match run r st step with
          | Some res => Some res
          | None => k st
          end
    end.

Inductive matches : regex -> mstate -> mstate -> Prop :=
| matches_empty st : matches REmpty st st
| matches_char p pv c cs caps :
    p c = true ->
    matches (RChar p) (MState pv (c :: cs) caps) (MState (Some c) cs caps)
| matches_seq r1 r2 st1 st2 st3 :
    matches r1 st1 st2 -> matches r2 st2 st3 -> matches (RSeq r1 r2) st1 st3
| matches_alt_left r1 r2 st1 st2 :
    matches r1 st1 st2 -> matches (RAlt r1 r2) st1 st2
| matches_alt_right r1 r2 st1 st2 :
    matches r2 st1 st2 -> matches (RAlt r1 r2) st1 st2
| matches_star_stop lazy r st : matches (RStar lazy r) st st
| matches_star_more lazy r st1 st2 st3 :
    matches r st1 st2 -> matches (RStar lazy r) st2 st3 ->
    matches (RStar lazy r) st1 st3
| matches_group i r st1 st2 :
    matches r st1 st2 ->
    matches (RGroup i r) st1
      (MState (prev st2) (rest st2) (<[i := consumed st1 st2]> (caps st2)))
| matches_boundary st :
    xorb (word_before st) (word_after st) = true -> matches RWordBoundary st st
| matches_end st : rest st = [] -> matches REnd st st.

(** The text between two states of one input: what was read from [st]
    to reach [st1]. *)
Definition reads (st st1 : mstate) (w : list ascii) : Prop :=
  rest st = (w ++ rest st1)%list.

(** The character before the position reached after reading [w]. *)
Definition last_read (pv : option ascii) (w : list ascii) : option ascii :=
  match last w with
  | Some c => Some c
  | None => pv
  end.

(** The string has none of the characters [p] holds of. *)
Definition free_of (p : ascii -> bool) (w : list ascii) : Prop :=
  forallb (fun c => negb (p c)) w = true.

(** The input does not go on with a character of the class. *)
Definition stops_class (p : ascii -> bool) (tail : list ascii) : Prop :=
  match tail with
  | [] => True
  | c :: _ => p c = false
  end.

End RegexTheory.

(** ** MessageRenderer.tsx: links and addresses in a message *)

Module MessageRenderer.
Import JSString Regex.

(** What [parseContent] pushes: a stretch of text, or a link. *)
Inductive part : Type :=
| Text (text : string)
| Link (linkText url : string).

Definition char (s : string) : ascii :=
  match s with String c _ => c | EmptyString => Ascii.zero end.

(** A class that excludes one character. *)
Definition other_than (c : ascii) : regex := RChar (fun x => negb (Ascii.eqb x c)).

(** [/\[([^\]]+)\]\(([^)]+)\)/g] *)
Definition linkRegex : regex :=
  RSeq (lit "[")
    (RSeq (RGroup 1 (plus (other_than (char "]"))))
       (RSeq (lit "](")
          (RSeq (RGroup 2 (plus (other_than (char ")"))))
             (lit ")")))).

(** The loop of [parseContent] from [lastIndex] on: [s] is the text from
    there, [p] the character before it. *)
Fixpoint parseContent_from (fuel : nat) (p : option ascii) (s : list ascii)
  : list part :=
  match fuel with
  | O => []
  | S fuel' =>
      match search linkRegex p s 0 with
      | None =>
          match s with
          | [] => []
          | _ => [Text (string_of_list_ascii s)]
          end
      | Some m =>
          ((if (0 <? m_index m)%nat
            then [Text (string_of_list_ascii (take (m_index m) s))] else [])
           ++ Link (default "" (group m 1)) (default "" (group m 2))
              :: parseContent_from fuel' (m_prev m) (m_rest m))%list
      end
  end.

Definition parseContent (text : string) : list part :=
  let s := list_ascii_of_string text in
  parseContent_from (S (length s)) None s.

(** [r{n}] and [r{0,n}], greedy. *)
Fixpoint times (n : nat) (r : regex) : regex :=
  match n with
  | O => REmpty
  | S n' => RSeq r (times n' r)
  end.

Fixpoint up_to (n : nat) (r : regex) : regex :=
  match n with
  | O => REmpty
  | S n' => opt (RSeq r (up_to n' r))
  end.

(** [[a-fA-F0-9]] *)
Definition hex_digit (c : ascii) : bool :=
  ((97 <=? code c)%nat && (code c <=? 102)%nat)
  || ((65 <=? code c)%nat && (code c <=? 70)%nat)
  || is_digit c.

Definition backtick : ascii := char "`".

(** [/(`0x[a-fA-F0-9]{40,66}`)/g] *)
Definition addressRegex : regex :=
  RGroup 1
    (RSeq (lit "`0x")
       (RSeq (times 40 (RChar hex_digit))
          (RSeq (up_to 26 (RChar hex_digit)) (lit "`")))).

(** [s.slice(0, n)] and [s.slice(-n)], on the text of a match of
    [addressRegex], whose characters are all ASCII. *)
Definition slice_first (n : nat) (s : string) : string := String.substring 0 n s.
Definition slice_end (n : nat) (s : string) : string :=
  String.substring (String.length s - n) n s.

(** [match.replace(/`/g, '')] *)
Definition without_backticks (s : string) : string :=
  string_of_list_ascii
    (List.filter (fun c => negb (Ascii.eqb c backtick)) (list_ascii_of_string s)).

(** The replacement [parseBlockchainData] computes for a match. *)
Definition address_link (matched : string) : string :=
  let cleanAddress := without_backticks matched in
  let explorerUrl := "https://opbnbscan.com/address/" +:+ cleanAddress in
  let shortAddress :=
    slice_first 10 cleanAddress +:+ "..." +:+ slice_end 8 cleanAddress in
  "[" +:+ shortAddress +:+ "](" +:+ explorerUrl +:+ ")".

(** [text.replace(addressRegex, f)] for a pattern with the [g] flag
    that matches no empty string. *)
Fixpoint replace_from (fuel : nat) (r : regex) (f : string -> string)
    (p : option ascii) (s : list ascii) : list ascii :=
  match fuel with
  | O => s
  | S fuel' =>
      match search r p s 0 with
      | None => s
      | Some m =>
          (take (m_index m) s ++ list_ascii_of_string (f (m_text m))
           ++ replace_from fuel' r f (m_prev m) (m_rest m))%list
      end
  end.

Definition parseBlockchainData (text : string) : string :=
  let s := list_ascii_of_string text in
  string_of_list_ascii (replace_from (S (length s)) addressRegex address_link None s).

(** What [renderLine] puts into the paragraph of a line. *)
Definition renderLine (line : string) : list part :=
  match parseContent (parseBlockchainData line) with
  | [] => [Text line]
  | parsedContent => parsedContent
  end.

(** The text a part was parsed from. *)
Definition spelled (p : part) : string :=
  match p with
  | Text text => text
  | Link linkText url => "[" +:+ linkText +:+ "](" +:+ url +:+ ")"
  end.

Definition spelled_all (parts : list part) : string :=
  String.concat "" (map spelled parts).

(** The characters the parts spell. *)
Definition spelled_chars (parts : list part) : list ascii :=
  flat_map (fun p => list_ascii_of_string (spelled p)) parts.

(** A link whose text and address are not empty, the text without a
    closing bracket and the address without a closing parenthesis. *)
Definition well_formed (p : part) : Prop :=
  match p with
  | Text text => text <> ""
  | Link linkText url =>
      linkText <> "" /\ url <> ""
      /\ includes linkText "]" = false /\ includes url ")" = false
  end.

End MessageRenderer.

(** ** OptimizedTokenFactory.sol: the registry of the tokens created

  The contract [createToken] of the chain service calls.  Unsigned
  integers are integers with their bounds written out: checked
  arithmetic reverts ([None]) where a result leaves the type, unchecked
  arithmetic and narrowing casts wrap around.  Addresses are integers.
  The constructors of the OpenZeppelin contracts the token inherits
  from are not part of the source; [deployed] is the address the new
  token gets. *)

Module TokenFactory.

Definition uint (bits : Z) (x : Z) : Prop := (0 <= x < 2 ^ bits)%Z.

Definition wrap (bits : Z) (x : Z) : Z := (x mod 2 ^ bits)%Z.

(** A checked operation on [uint256]. *)
Definition checked (x : Z) : option Z :=
  if ((0 <=? x) && (x <? 2 ^ 256))%Z then Some x else None.

Record TokenInfo : Type := {
  tokenAddress : Z;
  totalSupply : Z;
  decimals : Z;
  timestamp : Z
}.

Record Factory : Type := {
  createdTokensByUser : gmap Z (list TokenInfo);
  allTokens : list TokenInfo;
  totalTokensCreated : Z
}.

(** The state after the constructor. *)
Definition deployed_factory : Factory :=
  {| createdTokensByUser := ∅; allTokens := []; totalTokensCreated := 0 |}.

(** The amount the constructor of [OptimizedCustomToken] mints:
    [uint256(totalSupply) * 10**tokenDecimals], both operations checked. *)
Definition minted (totalSupply decimals : Z) : option Z :=
  power ← checked (10 ^ decimals);
  checked (totalSupply * power).

Definition tokens_of (f : Factory) (creator : Z) : list TokenInfo :=
  default [] (createdTokensByUser f !! creator).

(** [createToken], called by [sender] in a block of time [now]; the new
    token is deployed at [deployed].  The result is the new state and the
    address returned. *)
Definition createToken (f : Factory) (sender now deployed : Z)
    (totalSupply decimals : Z) : option (Factory * Z) :=
  _ ← minted totalSupply decimals;
  let tokenInfo :=
    {| tokenAddress := deployed; totalSupply := totalSupply;
       decimals := decimals; timestamp := wrap 32 now |} in
  Some ({| createdTokensByUser :=
             <[sender := (tokens_of f sender ++ [tokenInfo])%list]>
               (createdTokensByUser f);
           allTokens := (allTokens f ++ [tokenInfo])%list;
           totalTokensCreated := wrap 256 (totalTokensCreated f + 1) |},
        deployed).

(** [getCreatedTokens] *)
Definition getCreatedTokens (f : Factory) (creator : Z) : list Z :=
  map tokenAddress (tokens_of f creator).

(** [getTotalTokensCount] *)
Definition getTotalTokensCount (f : Factory) : Z := totalTokensCreated f.

(** [getAllTokens]: the loop copies [allTokens[offset + i]] for [i] below
    [resultLength]. *)
Definition getAllTokens (f : Factory) (offset limit : Z) : option (list Z) :=
  let length := Z.of_nat (length (allTokens f)) in
  if negb (offset <? length)%Z then None
  else
    end_ ← checked (offset + limit);
    let end_ := if (length <? end_)%Z then length else end_ in
    resultLength ← checked (end_ - offset);
    Some (map tokenAddress
            (take (Z.to_nat resultLength) (drop (Z.to_nat offset) (allTokens f)))).

(** A call of [createToken] with its caller, its block and the address
    of the deployment. *)
Record creation : Type := {
  by_sender : Z;
  at_time : Z;
  deployed_at : Z;
  with_supply : Z;
  with_decimals : Z
}.

(** The call does not revert. *)
Definition accepted (c : creation) : bool :=
  match minted (with_supply c) (with_decimals c) with
  | Some _ => true
  | None => false
  end.

(** The state after a sequence of calls; a call that reverts leaves the
    state as it was. *)
Definition after (calls : list creation) (f : Factory) : Factory :=
  fold_left
    (fun f c =>
       match createToken f (by_sender c) (at_time c) (deployed_at c)
               (with_supply c) (with_decimals c) with
       | Some (f', _) => f'
       | None => f
       end) calls f.

End TokenFactory.

(** ** Sample networks, chains and registries *)

Module Examples.
Import JSString JS.

(** *** Price sources *)

Definition quote (name : string) (p : float) : PriceService.PriceData :=
  {| PriceService.price := p; PriceService.change24h := 1.25;
     PriceService.lastUpdated := 1762041600123; PriceService.source := name |}.

(** A clock that advances by four minutes between two readings. *)
Definition four_minutes (k : nat) : Z := (1762041600000 + 240000 * Z.of_nat k)%Z.

(** CoinGecko answers with an HTTP error, CoinCap with a price of zero,
    Binance with 612.5. *)
Definition flaky : PriceService.Net :=
  {| PriceService.now := four_minutes;
     PriceService.fetch := fun name =>
       if String.eqb name "CoinGecko" then throw_error "HTTP 429: Too Many Requests"
       else if String.eqb name "CoinCap" then Normal (quote "CoinCap" 0)
       else Normal (quote "Binance" 612.5) |}.

(** No source can be reached. *)
Definition offline : PriceService.Net :=
  {| PriceService.now := four_minutes;
     PriceService.fetch := fun _ => throw_error "Failed to fetch" |}.

(** *** A chain *)

Definition bob : string := "0x52908400098527886E0F7030069857D2E4169EE7".

(** A wallet with one BNB, a gas price of a thousandth of a gwei, a
    node that accepts every transaction, and no token contract. *)
Definition testnet : BlockchainService.Chain :=
  {| BlockchainService.explorer := None;
     BlockchainService.number_to_string := fun _ => "0";
     BlockchainService.new_Wallet := fun key =>
       if String.eqb key "0x4c08" then Normal "0x00a1"
       else throw_error "invalid private key";
     BlockchainService.isAddress := Spec.is_chain_address;
     BlockchainService.parseFloat := fun s =>
       if String.eqb s "0.5" then 0.5%float else PrimFloat.nan;
     BlockchainService.parseEther := fun s =>
       if String.eqb s "0.5" then Normal (5 * 10 ^ 17)%Z
       else throw_error "invalid FixedNumber string value";
     BlockchainService.parseUnits := fun s d =>
       if String.eqb s "0.5" then Normal (5 * 10 ^ (d - 1))%Z
       else throw_error "invalid FixedNumber string value";
     BlockchainService.formatEther := fun _ => "0.0";
     BlockchainService.formatUnits := fun _ _ => "0.0";
     BlockchainService.getBalance := fun _ => Normal (10 ^ 18)%Z;
     BlockchainService.getFeeData_gasPrice := Normal (Some 1000000%Z);
     BlockchainService.wallet_sendTransaction := fun _ _ _ =>
       Normal {| BlockchainService.tx_hash := "0x5e1f";
                 BlockchainService.tx_wait := Normal tt |};
     BlockchainService.token_info := fun _ => throw_error "call revert exception";
     BlockchainService.token_balanceOf := fun _ _ => throw_error "call revert exception";
     BlockchainService.token_transfer_estimateGas := fun _ _ _ =>
       throw_error "call revert exception";
     BlockchainService.token_transfer := fun _ _ _ _ =>
       throw_error "call revert exception" |}.

(** "Send half a BNB to Bob", and the same to someone who is no
    address. *)
Definition half_to (recipient : string) : value :=
  object [("recipient", VStr recipient); ("amount", VStr "0.5")].

(** *** A registry *)

(** Three launches by two creators, the second with too many
    decimals. *)
Definition launches : list TokenFactory.creation :=
  [ {| TokenFactory.by_sender := 161; TokenFactory.at_time := 1762041600;
       TokenFactory.deployed_at := 4096; TokenFactory.with_supply := 1000000;
       TokenFactory.with_decimals := 18 |};
    {| TokenFactory.by_sender := 162; TokenFactory.at_time := 1762041660;
       TokenFactory.deployed_at := 4097; TokenFactory.with_supply := 1;
       TokenFactory.with_decimals := 80 |};
    {| TokenFactory.by_sender := 161; TokenFactory.at_time := 1762041720;
       TokenFactory.deployed_at := 4098; TokenFactory.with_supply := 21000000;
       TokenFactory.with_decimals := 8 |} ]%Z.

End Examples.

(** * Properties *)

(** ** Dates: what [toISOString] writes, [parseISO] reads back *)

Section DateRoundTrip.
Import JSDate.
Local Open Scope Z_scope.

Lemma civil_fields day y m d :
  civil_from_days day = (y, m, d) ->
  days_from_civil y m d = day /\ 1 <= m <= 12 /\ 1 <= d <= 31.
Proof.
  unfold civil_from_days, days_from_civil. intros H. injection H as Hy Hm Hd.
  set (z := day + 719468) in *.
  set (era := z / 146097) in *.
  set (doe := z mod 146097) in *.
  set (yoe := (doe - doe / 1460 + doe / 36524 - doe / 146096) / 365) in *.
  set (doy := doe - (365 * yoe + yoe / 4 - yoe / 100)) in *.
  set (mp := (5 * doy + 2) / 153) in *.
  assert (Hdoe : 0 <= doe < 146097) by (apply Z.mod_pos_bound; lia).
  assert (Hyoe : 0 <= yoe <= 399).
  { subst yoe. Z.div_mod_to_equations; lia. }
  assert (Hdoy : 0 <= doy <= 365).
  { subst doy yoe. Z.div_mod_to_equations; lia. }
  assert (Hmp : 0 <= mp <= 11).
  { subst mp. Z.div_mod_to_equations; lia. }
  assert (Hz : z = era * 146097 + doe).
  { subst era doe. Z.div_mod_to_equations; lia. }
  assert (Hd' : 1 <= d <= 31).
  { subst d mp. Z.div_mod_to_equations; lia. }
  assert (Hm' : 1 <= m <= 12 /\ (if 2 <? m then m - 3 else m + 9) = mp
                /\ (if m <=? 2 then y - 1 else y) = yoe + era * 400).
  { subst m y. destruct (Z.ltb_spec mp 10).
    - replace (mp + 3 <=? 2) with false by lia.
      replace (2 <? mp + 3) with true by lia. lia.
    - replace (mp - 9 <=? 2) with true by lia.
      replace (2 <? mp - 9) with false by lia. lia. }
  destruct Hm' as (Hm1 & Hm2 & Hm3).
  rewrite Hm2, Hm3.
  replace ((yoe + era * 400) / 400) with era by (Z.div_mod_to_equations; lia).
  replace ((yoe + era * 400) mod 400) with yoe by (Z.div_mod_to_equations; lia).
  repeat split; lia.
Qed.

Lemma tod_fields t :
  let tod := t mod msPerDay in
  let h := tod / 3600000 in
  let mi := (tod / 60000) mod 60 in
  let s := (tod / 1000) mod 60 in
  let ms := tod mod 1000 in
  (t / msPerDay) * msPerDay + make_time h mi s ms = t
  /\ 0 <= h <= 23 /\ 0 <= mi <= 59 /\ 0 <= s <= 59 /\ 0 <= ms <= 999.
Proof.
  unfold msPerDay, make_time. cbv zeta. Z.div_mod_to_equations; lia.
Qed.

(** A property of the ten digits is checked digit by digit. *)
Lemma each_digit (P : Z -> Prop) :
  (forall k : nat, (k < 10)%nat -> P (Z.of_nat k)) -> forall n, 0 <= n <= 9 -> P n.
Proof.
  intros H n Hn. rewrite <- (Z2Nat.id n) by lia. apply H. lia.
Qed.

Lemma digit_val_char n : 0 <= n <= 9 -> digit_val (digit_char n) = Some n.
Proof.
  revert n. apply each_digit. intros k Hk.
  do 10 (destruct k as [| k]; [reflexivity |]). lia.
Qed.

Lemma read_digits_snoc k : forall acc s,
  read_digits (S k) acc s =
  match read_digits k acc s with
  | Some (a, c :: s') =>
      match digit_val c with Some d => Some (10 * a + d, s') | None => None end
  | _ => None
  end.
Proof.
  induction k as [| k IH]; intros acc s.
  - simpl. destruct s as [| c s']; [reflexivity |]. destruct (digit_val c); reflexivity.
  - change (read_digits (S (S k)) acc s) with
      (match s with
       | c :: s' => match digit_val c with
                    | Some d => read_digits (S k) (10 * acc + d) s'
                    | None => None end
       | [] => None end).
    destruct s as [| c s']; [reflexivity |].
    simpl read_digits at 2. destruct (digit_val c) as [d |]; [| reflexivity].
    apply IH.
Qed.

Lemma read_pad_digits k : forall n acc s,
  0 <= n < 10 ^ Z.of_nat k ->
  read_digits k acc (pad_digits k n ++ s) = Some (acc * 10 ^ Z.of_nat k + n, s).
Proof.
  induction k as [| k IH]; intros n acc s Hn.
  - simpl in *. f_equal. f_equal. lia.
  - rewrite read_digits_snoc. cbn [pad_digits]. rewrite <- app_assoc. cbn [app].
    rewrite Nat2Z.inj_succ, Z.pow_succ_r in * by lia.
    rewrite IH by (Z.div_mod_to_equations; nia).
    rewrite digit_val_char by (Z.div_mod_to_equations; lia).
    f_equal. f_equal. Z.div_mod_to_equations; nia.
Qed.

Lemma digit_char_not_sign d :
  0 <= d <= 9 ->
  Ascii.eqb (digit_char d) "+"%char = false /\ Ascii.eqb (digit_char d) "-"%char = false.
Proof.
  revert d. apply each_digit. intros k Hk.
  do 10 (destruct k as [| k]; [split; reflexivity |]). lia.
Qed.

Lemma pad_digits_head k : forall n,
  exists d l, 0 <= d <= 9 /\ pad_digits (S k) n = digit_char d :: l.
Proof.
  induction k as [| k IH]; intros n.
  - exists (n mod 10), []. split; [Z.div_mod_to_equations; lia | reflexivity].
  - destruct (IH (n / 10)) as (d & l & Hd & E).
    exists d, (l ++ [digit_char (n mod 10)])%list. split; [exact Hd |].
    change (pad_digits (S (S k)) n)
      with (pad_digits (S k) (n / 10) ++ [digit_char (n mod 10)])%list.
    rewrite E. reflexivity.
Qed.

Lemma read_year_digits y s :
  -1000000 < y < 1000000 ->
  read_year (year_digits y ++ s) = Some (y, s).
Proof.
  intros Hy. unfold year_digits.
  destruct (Z.leb_spec 0 y) as [H0 | H0]; cbn [andb].
  - destruct (Z.leb_spec y 9999) as [H1 | H1].
    + destruct (pad_digits_head 3 y) as (d & l & Hd & E).
      destruct (digit_char_not_sign d Hd) as [Hp Hm].
      assert (R : read_year (pad_digits 4 y ++ s) = read_digits 4 0 (pad_digits 4 y ++ s)).
      { rewrite E. cbn [app read_year]. rewrite Hp, Hm. reflexivity. }
      rewrite R, read_pad_digits by (simpl; lia). f_equal.
    + cbn [app read_year]. change (Ascii.eqb "+" "+") with true. cbn iota.
      rewrite read_pad_digits by (simpl; lia). f_equal.
  - cbn [app read_year]. change (Ascii.eqb "-" "+") with false.
    change (Ascii.eqb "-" "-") with true. cbn iota.
    rewrite read_pad_digits by (simpl; lia).
    replace (0 * 10 ^ Z.of_nat 6 + - y =? 0) with false by lia.
    f_equal. f_equal. lia.
Qed.

Lemma civil_year_bound day y m d :
  -100000000 <= day <= 100000000 ->
  civil_from_days day = (y, m, d) -> -1000000 < y < 1000000.
Proof.
  unfold civil_from_days. intros Hday H. injection H as Hy _ _.
  set (z := day + 719468) in *.
  set (doe := z mod 146097) in *.
  assert (Hdoe : 0 <= doe < 146097) by (apply Z.mod_pos_bound; lia).
  set (yoe := (doe - doe / 1460 + doe / 36524 - doe / 146096) / 365) in *.
  assert (Hyoe : 0 <= yoe <= 399) by (subst yoe; Z.div_mod_to_equations; lia).
  assert (He : -1000 < z / 146097 < 1000) by (subst z; Z.div_mod_to_equations; lia).
  subst y. destruct (_ <=? 2); lia.
Qed.

Theorem parseISO_toISOString t : valid_time t -> parseISO (toISOString t) = Some t.
Proof.
  unfold valid_time. intros Ht. unfold toISOString, parseISO, mbind, option_bind.
  destruct (civil_from_days (t / msPerDay)) as [[y m] d] eqn:Ec.
  destruct (civil_fields _ _ _ _ Ec) as (Hdays & Hm & Hd).
  assert (Hy : -1000000 < y < 1000000).
  { eapply civil_year_bound; [| exact Ec]. unfold msPerDay. Z.div_mod_to_equations; lia. }
  destruct (tod_fields t) as (Ht' & Hh & Hmi & Hs & Hms). cbv zeta in *.
  rewrite list_ascii_of_string_of_list_ascii.
  rewrite read_year_digits by exact Hy. cbn beta iota; cbn [expect].
  change (Ascii.eqb "-" "-") with true. cbn iota.
  rewrite read_pad_digits by (simpl; lia). cbn beta iota; cbn [expect].
  change (Ascii.eqb "-" "-") with true. cbn iota.
  rewrite read_pad_digits by (simpl; lia). cbn beta iota; cbn [expect].
  change (Ascii.eqb "T" "T") with true. cbn iota.
  rewrite read_pad_digits by (simpl; lia). cbn beta iota; cbn [expect].
  change (Ascii.eqb ":" ":") with true. cbn iota.
  rewrite read_pad_digits by (simpl; lia). cbn beta iota; cbn [expect].
  change (Ascii.eqb ":" ":") with true. cbn iota.
  rewrite read_pad_digits by (simpl; lia). cbn beta iota; cbn [expect].
  change (Ascii.eqb "." ".") with true. cbn iota.
  rewrite (read_pad_digits 3 _ 0 ["Z"%char]) by (simpl; lia).
  cbn beta iota; cbn [expect].
  change (Ascii.eqb "Z" "Z") with true. cbn iota.
  rewrite !Z.mul_0_l, !Z.add_0_l.
  replace ((1 <=? m) && (m <=? 12) && (1 <=? d) && (d <=? 31)
           && (t mod msPerDay / 3600000 <=? 23)
           && ((t mod msPerDay / 60000) mod 60 <=? 59)
           && ((t mod msPerDay / 1000) mod 60 <=? 59)) with true
    by (symmetry; repeat (apply andb_true_intro; split); lia).
  rewrite Hdays, Ht'. unfold valid_timeb.
  replace ((-8640000000000000 <=? t) && (t <=? 8640000000000000)) with true
    by (symmetry; apply andb_true_intro; split; lia).
  reflexivity.
Qed.

End DateRoundTrip.

(** ** Property reads and writes *)

Section Properties.
Import JSString JS Spec.

Lemma bind_Normal {A B} (c : completion A) (f : A -> completion B) (r : B) :
  c ≫= f = Normal r -> exists a, c = Normal a /\ f a = Normal r.
Proof.
  unfold mbind, completion_bind, bind. destruct c as [a | e]; [eauto | discriminate].
Qed.

Lemma getProp_setProp v key x v' :
  setProp v key x = Normal v' -> getProp v' key = Normal x.
Proof.
  destruct v; simpl; intros H; try discriminate; injection H as <-; simpl;
    by rewrite lookup_insert_eq.
Qed.

Lemma getProp_setProp_ne v key x v' key' :
  setProp v key x = Normal v' -> key <> key' -> getProp v' key' = getProp v key'.
Proof.
  destruct v; simpl; intros H Hne; try discriminate; injection H as <-; simpl;
    by rewrite lookup_insert_ne.
Qed.

Lemma setProp_truthy v key x v' : setProp v key x = Normal v' -> truthy v' = true.
Proof. destruct v; simpl; intros H; try discriminate; by injection H as <-. Qed.

(** A value that has a property is not [undefined] or [null]. *)
Lemma getPropOpt_defined v key x :
  getPropOpt v key = Normal x -> x <> VUndef -> getProp v key = Normal x /\ truthy v = true.
Proof.
  destruct v; simpl; intros H Hx; try (injection H as <-; congruence); auto.
Qed.

Lemma getProp_truthy v key x :
  getProp v key = Normal x -> x <> VUndef -> truthy v = true.
Proof.
  destruct v; simpl; intros H Hx; try discriminate; try (injection H as <-; congruence); auto.
Qed.

Lemma is_string_eq lit v : is_string lit v = true -> v = VStr lit.
Proof.
  destruct v; simpl; try discriminate. intros H. apply String.eqb_eq in H. by subst.
Qed.

Lemma is_string_refl lit : is_string lit (VStr lit) = true.
Proof. simpl. apply String.eqb_refl. Qed.

Lemma or_else_truthy a b : truthy a = true -> or_else a b = a.
Proof. unfold or_else. by intros ->. Qed.

Lemma or_else_falsy a b : truthy a = false -> or_else a b = b.
Proof. unfold or_else. by intros ->. Qed.

Lemma bind_ret {A B} (a : A) (f : A -> completion B) : Normal a ≫= f = f a.
Proof. reflexivity. Qed.

Lemma getProp_object m key : getProp (VObj m) key = Normal (prop m key).
Proof. reflexivity. Qed.

Lemma getPropOpt_object m key : getPropOpt (VObj m) key = Normal (prop m key).
Proof. reflexivity. Qed.

Lemma setProp_object m key x : setProp (VObj m) key x = Normal (VObj (<[key := x]> m)).
Proof. reflexivity. Qed.

Lemma field_object m key : field (VObj m) key = prop m key.
Proof. reflexivity. Qed.

Lemma prop_lookup m key x : m !! key = Some x -> prop m key = x.
Proof. unfold prop. by intros ->. Qed.

Lemma prop_insert m key x : prop (<[key := x]> m) key = x.
Proof. unfold prop. by rewrite lookup_insert_eq. Qed.

Lemma prop_insert_ne m key key' x : key <> key' -> prop (<[key := x]> m) key' = prop m key'.
Proof. unfold prop. intros H. by rewrite lookup_insert_ne. Qed.

End Properties.

(** Reads and writes on objects, one step of the sequence after the
    other. *)
Ltac js_step :=
  rewrite ?bind_ret, ?getProp_object, ?getPropOpt_object, ?setProp_object;
  rewrite ?prop_insert_ne by done.

(** ** The parse boundary, block by block *)

Section ParseBoundary.
Import JSString Regex JS GeminiAI Spec.
Context `{engine : Engine}.

Lemma action_kind_inv pj kind :
  action_kind pj = Normal kind ->
  exists act, getProp pj "action" = Normal act /\ getPropOpt act "action" = Normal kind.
Proof. unfold action_kind. intros H. apply bind_Normal in H. exact H. Qed.

(** When the kind is a string, the action is a value with properties. *)
Lemma action_kind_string pj k :
  action_kind pj = Normal (VStr k) ->
  exists act, getProp pj "action" = Normal act /\ getProp act "action" = Normal (VStr k)
              /\ truthy act = true.
Proof.
  intros H. apply action_kind_inv in H as (act & Hact & Hk).
  exists act. split; [exact Hact |].
  apply getPropOpt_defined in Hk; [exact Hk | discriminate].
Qed.

Lemma field_Normal v key x : getProp v key = Normal x -> field v key = x.
Proof. unfold field. by intros ->. Qed.

Lemma send_block_skip pj kind :
  action_kind pj = Normal kind -> is_string "send_transaction" kind = false ->
  send_transaction_validation pj = Normal pj.
Proof.
  intros Hk Hs. unfold send_transaction_validation. rewrite Hk. simpl. by rewrite Hs.
Qed.

Lemma create_block_skip pj kind :
  action_kind pj = Normal kind -> is_string "create_token" kind = false ->
  create_token_defaults pj = Normal pj.
Proof.
  intros Hk Hs. unfold create_token_defaults. rewrite Hk. simpl. by rewrite Hs.
Qed.

Lemma upload_block_skip pj kind :
  action_kind pj = Normal kind -> is_string "upload_nft" kind = false ->
  upload_nft_handling pj = Normal pj.
Proof.
  intros Hk Hs. unfold upload_nft_handling. rewrite Hk. simpl. by rewrite Hs.
Qed.

Lemma flag_of_missing details :
  (length (missing_fields details) =? 0)%nat = fields_present details.
Proof.
  unfold missing_fields, fields_present.
  destruct (truthy (field details "recipient")), (truthy (field details "amount"));
    reflexivity.
Qed.

Lemma present_iff_none_missing details :
  fields_present details = true <-> missing_fields details = [].
Proof.
  unfold missing_fields, fields_present.
  destruct (truthy (field details "recipient")), (truthy (field details "amount"));
    simpl; split; congruence.
Qed.

(** What the transfer block leaves behind when it runs to its end. *)
Lemma send_block_inv pj pj' :
  action_kind pj = Normal (VStr "send_transaction") ->
  send_transaction_validation pj = Normal pj' ->
  exists act details details' act',
    getProp pj "action" = Normal act
    /\ getProp act "details" = Normal details
    /\ field details' "token"
       = (if truthy (field details "token") then field details "token" else VStr "BNB")
    /\ (forall key, key <> "token" -> getProp details' key = getProp details key)
    /\ getProp pj' "action" = Normal act'
    /\ getProp act' "details" = Normal details'
    /\ getProp act' "missingFields" = Normal (array (missing_fields details'))
    /\ getProp act' "isComplete" = Normal (VBool (fields_present details'))
    /\ getProp act' "action" = Normal (VStr "send_transaction")
    /\ (forall key, key <> "action" -> getProp pj' key = getProp pj key).
Proof.
  intros Hk H. unfold send_transaction_validation in H. rewrite Hk in H.
  simpl in H.
  apply action_kind_string in Hk as (act & Hact & Hkind & _).
  apply bind_Normal in H as (act0 & E & H). rewrite Hact in E. injection E as <-.
  apply bind_Normal in H as (details & Hd & H).
  apply bind_Normal in H as (token & Htok & H).
  apply bind_Normal in H as (details' & Hd' & H).
  apply bind_Normal in H as (recipient & Hr & H).
  apply bind_Normal in H as (amount & Ha & H).
  apply bind_Normal in H as (act1 & H1 & H).
  apply bind_Normal in H as (act2 & H2 & H).
  apply bind_Normal in H as (act3 & H3 & H).
  unfold store_action in H.
  exists act, details, details', act3.
  assert (Hmiss : ((if truthy recipient then [] else [VStr "recipient"]) ++
                   (if truthy amount then [] else [VStr "amount"]))%list
                  = missing_fields details').
  { unfold missing_fields. by rewrite (field_Normal _ _ _ Hr), (field_Normal _ _ _ Ha). }
  rewrite Hmiss in *. rewrite flag_of_missing in H3.
  assert (Htoken : field details' "token"
            = (if truthy (field details "token") then field details "token" else VStr "BNB")
          /\ forall key, key <> "token" -> getProp details' key = getProp details key).
  { rewrite (field_Normal _ _ _ Htok).
    destruct (truthy token) eqn:Et; simpl in Hd'.
    - assert (is_string "" token = false) as Hs.
      { destruct token; try reflexivity. destruct s; [discriminate | reflexivity]. }
      rewrite Hs in Hd'. injection Hd' as <-. split; [by apply field_Normal | done].
    - split.
      + apply field_Normal. eapply getProp_setProp, Hd'.
      + intros key Hkey. eapply getProp_setProp_ne; [exact Hd' | congruence]. }
  destruct Htoken as [Htoken Hother].
  repeat split; try assumption.
  - eapply getProp_setProp, H.
  - rewrite (getProp_setProp_ne _ _ _ _ "details" H3) by discriminate.
    rewrite (getProp_setProp_ne _ _ _ _ "details" H2) by discriminate.
    eapply getProp_setProp, H1.
  - rewrite (getProp_setProp_ne _ _ _ _ "missingFields" H3) by discriminate.
    eapply getProp_setProp, H2.
  - eapply getProp_setProp, H3.
  - rewrite (getProp_setProp_ne _ _ _ _ "action" H3) by discriminate.
    rewrite (getProp_setProp_ne _ _ _ _ "action" H2) by discriminate.
    rewrite (getProp_setProp_ne _ _ _ _ "action" H1) by discriminate.
    exact Hkind.
  - intros key Hkey. eapply getProp_setProp_ne; [exact H | congruence].
Qed.

Lemma action_kind_intro pj act k :
  getProp pj "action" = Normal act -> getProp act "action" = Normal (VStr k) ->
  action_kind pj = Normal (VStr k).
Proof.
  intros Hact Hk. unfold action_kind. rewrite Hact. simpl.
  destruct act; simpl in *; try discriminate; exact Hk.
Qed.

(** What the token block leaves behind, as far as the action's own
    properties go. *)
Lemma create_block_inv pj pj' :
  action_kind pj = Normal (VStr "create_token") ->
  create_token_defaults pj = Normal pj' ->
  exists act act',
    getProp pj "action" = Normal act
    /\ getProp pj' "action" = Normal act'
    /\ (forall key, key <> "details" -> getProp act' key = getProp act key)
    /\ (forall key, key <> "action" -> getProp pj' key = getProp pj key).
Proof.
  intros Hk H. unfold create_token_defaults in H. rewrite Hk in H. simpl in H.
  apply action_kind_string in Hk as (act & Hact & Hkind & _).
  apply bind_Normal in H as (act0 & E & H). rewrite Hact in E. injection E as <-.
  apply bind_Normal in H as (d0 & _ & H).
  apply bind_Normal in H as (decimals & _ & H).
  apply bind_Normal in H as (d1 & _ & H).
  apply bind_Normal in H as (totalSupply & _ & H).
  apply bind_Normal in H as (d2 & _ & H).
  apply bind_Normal in H as (symbol & _ & H).
  apply bind_Normal in H as (name & _ & H).
  apply bind_Normal in H as (d3 & _ & H).
  apply bind_Normal in H as (act1 & H1 & H).
  unfold store_action in H. exists act, act1. repeat split; try assumption.
  - eapply getProp_setProp, H.
  - intros key Hkey. eapply getProp_setProp_ne; [exact H1 | congruence].
  - intros key Hkey. eapply getProp_setProp_ne; [exact H | congruence].
Qed.

Lemma upload_block_inv pj pj' :
  action_kind pj = Normal (VStr "upload_nft") ->
  upload_nft_handling pj = Normal pj' ->
  exists act act',
    getProp pj "action" = Normal act
    /\ getProp pj' "action" = Normal act'
    /\ getProp act' "isComplete" = Normal (VBool true)
    /\ (forall key, key <> "isComplete" -> getProp act' key = getProp act key)
    /\ getProp pj' "requiresConfirmation" = Normal (VBool true).
Proof.
  intros Hk H. unfold upload_nft_handling in H. rewrite Hk in H. simpl in H.
  apply action_kind_string in Hk as (act & Hact & Hkind & _).
  apply bind_Normal in H as (act0 & E & H). rewrite Hact in E. injection E as <-.
  apply bind_Normal in H as (act1 & H1 & H).
  apply bind_Normal in H as (pj1 & H2 & H).
  unfold store_action in H2. exists act, act1. repeat split; try assumption.
  - rewrite (getProp_setProp_ne _ _ _ _ "action" H) by discriminate.
    eapply getProp_setProp, H2.
  - eapply getProp_setProp, H1.
  - intros key Hkey. eapply getProp_setProp_ne; [exact H1 | congruence].
  - eapply getProp_setProp, H.
Qed.

(** Each block either leaves the parsed object alone, or its kind is the
    block's own and remains so. *)
Lemma block_kind_dec kind lit :
  is_string lit kind = false \/ kind = VStr lit.
Proof.
  destruct (is_string lit kind) eqn:E; [right; by apply is_string_eq | by left].
Qed.

Lemma create_block_cases pj pj' :
  create_token_defaults pj = Normal pj' ->
  (pj' = pj /\ exists kind, action_kind pj = Normal kind
                           /\ is_string "create_token" kind = false)
  \/ (action_kind pj = Normal (VStr "create_token")
      /\ action_kind pj' = Normal (VStr "create_token")).
Proof.
  intros H. assert (H0 := H). unfold create_token_defaults in H0.
  apply bind_Normal in H0 as (kind & Hk & _).
  destruct (block_kind_dec kind "create_token") as [Hs | ->].
  - left. rewrite (create_block_skip _ _ Hk Hs) in H. injection H as <-. eauto.
  - right. split; [exact Hk |].
    destruct (create_block_inv _ _ Hk H) as (act & act' & Ha & Ha' & Hsame & _).
    apply action_kind_string in Hk as (act0 & E & Hkind & _).
    rewrite Ha in E. injection E as <-.
    eapply action_kind_intro; [exact Ha' |]. by rewrite Hsame.
Qed.

Lemma send_block_cases pj pj' :
  send_transaction_validation pj = Normal pj' ->
  (pj' = pj /\ exists kind, action_kind pj = Normal kind
                           /\ is_string "send_transaction" kind = false)
  \/ (action_kind pj = Normal (VStr "send_transaction")
      /\ action_kind pj' = Normal (VStr "send_transaction")).
Proof.
  intros H. assert (H0 := H). unfold send_transaction_validation in H0.
  apply bind_Normal in H0 as (kind & Hk & _).
  destruct (block_kind_dec kind "send_transaction") as [Hs | ->].
  - left. rewrite (send_block_skip _ _ Hk Hs) in H. injection H as <-. eauto.
  - right. split; [exact Hk |].
    destruct (send_block_inv _ _ Hk H)
      as (act & d & d' & act' & _ & _ & _ & _ & Ha' & _ & _ & _ & Hkind & _).
    eapply action_kind_intro; eassumption.
Qed.

Lemma upload_block_cases pj pj' :
  upload_nft_handling pj = Normal pj' ->
  (pj' = pj /\ exists kind, action_kind pj = Normal kind
                           /\ is_string "upload_nft" kind = false)
  \/ (action_kind pj = Normal (VStr "upload_nft")
      /\ action_kind pj' = Normal (VStr "upload_nft")).
Proof.
  intros H. assert (H0 := H). unfold upload_nft_handling in H0.
  apply bind_Normal in H0 as (kind & Hk & _).
  destruct (block_kind_dec kind "upload_nft") as [Hs | ->].
  - left. rewrite (upload_block_skip _ _ Hk Hs) in H. injection H as <-. eauto.
  - right. split; [exact Hk |].
    destruct (upload_block_inv _ _ Hk H) as (act & act' & Ha & Ha' & _ & Hsame & _).
    apply action_kind_string in Hk as (act0 & E & Hkind & _).
    rewrite Ha in E. injection E as <-.
    eapply action_kind_intro; [exact Ha' |]. by rewrite Hsame.
Qed.

(** A read that succeeds on one key succeeds on every key. *)
Lemma getProp_total v key x key' :
  getProp v key = Normal x -> getProp v key' = Normal (field v key').
Proof.
  unfold field. destruct v; simpl; intros H; try discriminate; reflexivity.
Qed.

(** The result when the fence match, [JSON.parse] and the three blocks
    all go through. *)
Lemma parse_steps J text body pj0 pj3 :
  fenced_json text = Some body -> J body = Some pj0 -> rewritten pj0 pj3 ->
  parseAIResponse J text = result_of text pj3.
Proof.
  unfold fenced_json. intros Hf HJ (pj1 & pj2 & E1 & E2 & E3).
  unfold parseAIResponse, parseAIResponse_body.
  destruct (js_match fence_regex text) as [m |]; [| discriminate].
  injection Hf as <-. rewrite HJ.
  unfold mbind, completion_bind, bind. rewrite E1, E2, E3.
  assert (Hact : exists act, getProp pj3 "action" = Normal act).
  { destruct (upload_block_cases _ _ E3) as [[-> (kind & Hk & _)] | [_ Hk]];
      apply action_kind_inv in Hk as (act & Hact & _); eauto. }
  destruct Hact as (act & Hact).
  rewrite (getProp_total _ _ _ "response" Hact),
          (getProp_total _ _ _ "action" Hact),
          (getProp_total _ _ _ "requiresConfirmation" Hact).
  reflexivity.
Qed.

(** [parseAIResponse] either falls back to the plain reply or returns what
    the three blocks made of the parsed object. *)
Lemma parseAIResponse_cases J text :
  parseAIResponse J text = plain_reply text
  \/ exists body pj0 pj3,
       fenced_json text = Some body /\ J body = Some pj0 /\ rewritten pj0 pj3
       /\ parseAIResponse J text = result_of text pj3.
Proof.
  destruct (fenced_json text) as [body |] eqn:Hf;
    [destruct (J body) as [pj0 |] eqn:HJ;
     [destruct (create_token_defaults pj0) as [pj1 | e1] eqn:E1;
      [destruct (send_transaction_validation pj1) as [pj2 | e2] eqn:E2;
       [destruct (upload_nft_handling pj2) as [pj3 | e3] eqn:E3 | ] | ] | ] | ].
  { right. exists body, pj0, pj3.
    assert (rewritten pj0 pj3) by (exists pj1, pj2; auto).
    repeat split; try done. by eapply parse_steps. }
  all: left; revert Hf; unfold fenced_json, parseAIResponse, parseAIResponse_body;
    destruct (js_match fence_regex text); try discriminate; try reflexivity;
    intros [= <-]; rewrite HJ; try reflexivity;
    unfold mbind, completion_bind, bind; rewrite ?E1, ?E2, ?E3; reflexivity.
Qed.

End ParseBoundary.

(** ** Trimming and code units *)

Section Strings.
Import JSString.

Lemma strip_app p : forall s s', strip p s = Some s' -> s = p +:+ s'.
Proof.
  induction p as [| a p IH]; intros s s' E; cbn [strip] in E.
  - by injection E as ->.
  - destruct s as [| b s]; [discriminate |].
    destruct (Ascii.eqb_spec a b) as [-> |]; [| discriminate].
    apply IH in E. by subst.
Qed.

Lemma strip_any_app ps : forall s s',
  strip_any ps s = Some s' -> exists p, In p ps /\ s = p +:+ s'.
Proof.
  induction ps as [| p ps IH]; intros s s' E; cbn [strip_any] in E; [discriminate |].
  destruct (strip p s) as [r |] eqn:Ep.
  - injection E as ->. exists p. split; [by left | by apply strip_app].
  - destruct (IH s s' E) as (q & Hq & ->). exists q. split; [by right | reflexivity].
Qed.

Lemma white_space_nonempty p : In p white_space -> p <> "".
Proof.
  intros Hp ->. revert Hp. vm_compute. intuition discriminate.
Qed.

Lemma string_length_app (s1 s2 : string) :
  String.length (s1 +:+ s2) = String.length s1 + String.length s2.
Proof.
  induction s1 as [| c s1 IH]; [reflexivity |].
  change (String.length (String c (s1 +:+ s2)) = S (String.length s1) + String.length s2).
  simpl. by rewrite IH.
Qed.

(** A white-space character is at least one byte. *)
Lemma after_space_shorter s s' :
  after_space s = Some s' -> String.length s' < String.length s.
Proof.
  intros E. apply strip_any_app in E as (p & Hp & ->).
  apply white_space_nonempty in Hp. rewrite string_length_app.
  destruct p; [done | cbn; lia].
Qed.

Lemma trimStart_from_enough fuel : forall s,
  String.length s <= fuel -> after_space (trimStart_from fuel s) = None.
Proof.
  induction fuel as [| fuel IH]; intros s Hlen; cbn [trimStart_from].
  - destruct s; [reflexivity | cbn in Hlen; lia].
  - destruct (after_space s) as [s' |] eqn:E; [| exact E].
    apply IH. apply after_space_shorter in E. lia.
Qed.

(** What [trimStart] returns does not start with white space. *)
Lemma trimStart_head s : after_space (trimStart s) = None.
Proof. by apply trimStart_from_enough. Qed.

Lemma trimStart_fixed s : after_space s = None -> trimStart s = s.
Proof.
  intros E. unfold trimStart. destruct (String.length s); [reflexivity |].
  cbn [trimStart_from]. by rewrite E.
Qed.

Lemma trimStart_idem s : trimStart (trimStart s) = trimStart s.
Proof. apply trimStart_fixed, trimStart_head. Qed.

Lemma trimEnd_empty s : trimEnd s = "" <-> is_blank s = true.
Proof.
  destruct s as [| c s]; [done |]. cbn [trimEnd].
  destruct (is_blank (String c s)); split; done.
Qed.

(** A string is trimmed to nothing exactly when nothing is left of it
    once the white space it starts with is removed. *)
Lemma trim_empty s : trim s = "" <-> trimStart s = "".
Proof.
  unfold trim. rewrite trimEnd_empty. unfold is_blank. rewrite trimStart_idem.
  by destruct (trimStart s).
Qed.


Lemma is_empty_false s : s <> "" -> is_empty s = false.
Proof. by destruct s. Qed.

(** *** Code units *)

Lemma js_length_app s1 s2 : js_length (s1 +:+ s2) = js_length s1 + js_length s2.
Proof.
  induction s1 as [| c s1 IH]; [reflexivity |].
  change (units c + js_length (s1 +:+ s2) = units c + js_length s1 + js_length s2).
  rewrite IH. lia.
Qed.

Lemma code_chr n : (n < 256)%N -> code (chr n) = N.to_nat n.
Proof.
  intros Hn. unfold code, chr, nat_of_ascii. by rewrite N_ascii_embedding.
Qed.

End Strings.

(** ** The session: what the handlers leave of the store and the trace *)

Section Session.
Import JSString JS GeminiAI ConversationStore AIChat Spec.
Local Open Scope list_scope.
Context `{engine : Engine}.

Lemma count_app (f : event -> bool) l1 l2 :
  length (List.filter f (l1 ++ l2))
  = length (List.filter f l1) + length (List.filter f l2).
Proof. by rewrite List.filter_app, length_app. Qed.

(** One confirmation makes at most one submission. *)
Lemma execute_events env a :
  fst (execute env a) = [] \/ exists op d, fst (execute env a) = [Submitted op d].
Proof.
  unfold execute. destruct (load_modules env); [| by left].
  destruct (signing_key env) as [[w key] |]; [| by left].
  unfold dispatch.
  destruct (getProp a "action") as [kind |]; [| by left].
  destruct (getProp a "details") as [details |]; [| by left].
  destruct (is_string "create_token" kind); [right; eauto |].
  destruct (is_string "mint_nft" kind); [right; eauto |].
  destruct (is_string "send_transaction" kind); [right; eauto | by left].
Qed.

Lemma confirmAction_idle env s :
  pendingAction (store s) = None -> confirmAction env s = s.
Proof. unfold confirmAction. by intros ->. Qed.


Lemma confirmAction_not_processing env s p :
  pendingAction (store s) = Some p ->
  isProcessing (store (confirmAction env s)) = false.
Proof.
  unfold confirmAction. intros ->.
  destruct (execute env (pa_action p)) as [subs [result | e]]; reflexivity.
Qed.

Lemma trace_logged subs s :
  trace (fold_left (fun s e => log e s) subs s) = trace s ++ subs.
Proof.
  revert s. induction subs as [| e subs IH]; intros s; simpl.
  - by rewrite app_nil_r.
  - rewrite IH. simpl. by rewrite <- app_assoc.
Qed.

Lemma confirmAction_trace env s :
  exists subs,
    trace (confirmAction env s) = trace s ++ subs
    /\ (subs = [] \/ exists op d, subs = [Submitted op d]).
Proof.
  unfold confirmAction. destruct (pendingAction (store s)) as [p |].
  - pose proof (execute_events env (pa_action p)) as H.
    destruct (execute env (pa_action p)) as [subs outcome]. simpl in H.
    exists subs. split; [| exact H].
    destruct outcome; simpl; by rewrite trace_logged.
  - exists []. split; [by rewrite app_nil_r | by left].
Qed.

Lemma confirmAction_submissions env s :
  submissions s <= submissions (confirmAction env s) <= S (submissions s).
Proof.
  unfold submissions. destruct (confirmAction_trace env s) as (subs & -> & H).
  rewrite count_app. destruct H as [-> | (op & d & ->)]; simpl; lia.
Qed.

Lemma confirmAction_executor_calls env s :
  executor_calls (confirmAction env s) = executor_calls s.
Proof.
  unfold executor_calls. destruct (confirmAction_trace env s) as (subs & -> & H).
  rewrite count_app. destruct H as [-> | (op & d & ->)]; simpl; lia.
Qed.



(** The detail handler and the oracle path make no submission and
    invoke no executor. *)
Lemma handleNFTDetails_trace env userInput s :
  trace (handleNFTDetailsAfterUpload env userInput s) = trace s.
Proof.
  unfold handleNFTDetailsAfterUpload.
  destruct (uploadedImage s) as [[url file] |]; [| reflexivity].
  destruct (parseNFTDetails userInput) as [name description | prompt]; [| reflexivity].
  destruct (is_empty name); [reflexivity |].
  destruct (composer env _); reflexivity.
Qed.

Lemma handleAIResult_trace env result s s' :
  handleAIResult env result s = Normal s' -> trace s' = trace s.
Proof.
  unfold handleAIResult. intros H.
  apply bind_Normal in H as (upload & _ & H). destruct upload.
  - apply bind_Normal in H as (details & _ & H).
    apply bind_Normal in H as (s1 & H1 & H). injection H as <-.
    destruct (truthy details).
    + apply bind_Normal in H1 as (name & _ & H1).
      apply bind_Normal in H1 as (description & _ & H1). by injection H1 as <-.
    + by injection H1 as <-.
  - apply bind_Normal in H as (confirm & _ & H). destruct confirm.
    + destruct (composer env (action result)); by injection H as <-.
    + by injection H as <-.
Qed.

Lemma handleUploadComplete_trace env url file s :
  trace (handleUploadComplete env url file s) = trace s.
Proof.
  unfold handleUploadComplete.
  destruct (pendingNFTDetails s) as [[n d] |]; [| reflexivity].
  destruct (truthy n || truthy d); [| reflexivity].
  destruct (composer env _); reflexivity.
Qed.

(** Off the gate, a turn adds at most a call of the oracle to the trace. *)
Lemma handleSendMessage_off_gate env s :
  awaiting s = false ->
  trace (handleSendMessage env s) = trace s
  \/ exists input, trace (handleSendMessage env s) = trace s ++ [OracleCalled input].
Proof.
  intros Hgate. unfold handleSendMessage.
  destruct (is_empty (trim (inputValue s)) || isProcessing (store s)); [by left |].
  rewrite Hgate. destruct (isWaitingForNFTDetails s).
  - left. by rewrite handleNFTDetails_trace.
  - right. eexists. cbn [trace setProcessing with_store].
    set (result := processUserInput _ _).
    destruct (handleAIResult env result _) as [s' | e] eqn:E.
    + cbn [try_catch]. by rewrite (handleAIResult_trace _ _ _ _ E).
    + reflexivity.
Qed.

Lemma handleSendMessage_off_gate_counts env s :
  awaiting s = false ->
  submissions (handleSendMessage env s) = submissions s
  /\ executor_calls (handleSendMessage env s) = executor_calls s.
Proof.
  intros Hgate. unfold submissions, executor_calls.
  destruct (handleSendMessage_off_gate env s Hgate) as [-> | (input & ->)];
    rewrite ?count_app; simpl; lia.
Qed.

(** The body of the outer [try] never throws: every property read in it
    is on a truthy value. *)
Lemma truthy_reads v key : truthy v = true -> getProp v key = Normal (field v key).
Proof. unfold field. destruct v; simpl; intros H; try discriminate; reflexivity. Qed.

Lemma handleAIResult_total env result s :
  exists s', handleAIResult env result s = Normal s'.
Proof.
  unfold handleAIResult, is_upload_request, needs_confirmation.
  destruct (truthy (action result)) eqn:Et.
  - repeat (rewrite ?(truthy_reads _ _ Et), ?bind_ret).
    destruct (is_string "upload_nft" _ && truthy _ && truthy _).
    + destruct (truthy (field (action result) "details")) eqn:Ed.
      * repeat (rewrite ?(truthy_reads _ _ Ed), ?bind_ret). eauto.
      * rewrite bind_ret. eauto.
    + destruct (truthy _ && truthy _); [destruct (composer env _) |]; eauto.
  - rewrite !bind_ret. eauto.
Qed.


End Session.

(** ** The fence: a text without the marker has no fenced block *)

Section Fence.
Import JSString Regex JS GeminiAI Spec.
Local Open Scope list_scope.

(** A literal matches only where the input starts with it. *)
Lemma run_lit_prefix p : forall st k res,
  run (lit p) st k = Some res ->
  exists tail, rest st = list_ascii_of_string p ++ tail.
Proof.
  induction p as [| c p IH]; intros st k res H.
  - exists (rest st). reflexivity.
  - cbn [lit run char_is] in H.
    destruct (rest st) as [| x xs] eqn:E; [discriminate |].
    destruct (Ascii.eqb_spec c x) as [-> | Hne]; [| discriminate].
    apply IH in H as (tail & Ht). cbn [rest] in Ht.
    exists tail. cbn [list_ascii_of_string]. by rewrite Ht.
Qed.

Lemma search_lit_prefix p r : forall s pv idx m,
  search (RSeq (lit p) r) pv s idx = Some m ->
  exists before tail, s = before ++ list_ascii_of_string p ++ tail.
Proof.
  induction s as [| c s IH]; intros pv idx m H; cbn [search] in H.
  - destruct (match_here _ pv []) as [st |] eqn:E; [| discriminate].
    unfold match_here in E. cbn [run] in E.
    apply run_lit_prefix in E as (tail & Ht). exists [], tail. exact Ht.
  - destruct (match_here _ pv (c :: s)) as [st |] eqn:E.
    + unfold match_here in E. cbn [run] in E.
      apply run_lit_prefix in E as (tail & Ht). exists [], tail. exact Ht.
    + apply IH in H as (before & tail & ->). by exists (c :: before), tail.
Qed.

Lemma prefix_of_app p : forall tail,
  String.prefix p (string_of_list_ascii (list_ascii_of_string p ++ tail)) = true.
Proof.
  induction p as [| c p IH]; intros tail.
  { cbn [list_ascii_of_string app]. by destruct (string_of_list_ascii tail). }
  cbn [list_ascii_of_string app string_of_list_ascii String.prefix].
  destruct (Ascii.ascii_dec c c); [apply IH | congruence].
Qed.

Lemma includes_of_app p : forall before tail,
  includes (string_of_list_ascii (before ++ list_ascii_of_string p ++ tail)) p = true.
Proof.
  induction before as [| c before IH]; intros tail.
  - cbn [app]. destruct (string_of_list_ascii _) eqn:E;
      cbn [includes]; rewrite <- E, prefix_of_app; reflexivity.
  - cbn [app string_of_list_ascii includes]. rewrite IH. apply orb_true_r.
Qed.




End Fence.

(** ** Dates of the conversation: every handler keeps them valid *)

Create HintDb dated.

Section Dated.
Import JSString JS GeminiAI ConversationStore AIChat Spec.
Local Open Scope list_scope.
Context `{engine : Engine}.

Variable env : Env.
Hypothesis clock : valid_clock env.

Lemma dated_same s s' :
  messages (store s') = messages (store s) -> dated s -> dated s'.
Proof. unfold dated. by intros ->. Qed.

Lemma dated_addMessage type content action conf showUpload image s :
  dated s -> dated (addMessage env type content action conf showUpload image s).
Proof.
  unfold dated. cbn [addMessage advance with_store store messages].
  intros H. rewrite forallb_app, H. cbn [forallb has_valid_date msg_timestamp].
  by rewrite (clock (S (tick s))).
Qed.

Lemma dated_say content s : dated s -> dated (say env content s).
Proof. apply dated_addMessage. Qed.

Lemma dated_finish content s : dated s -> dated (finish env content s).
Proof.
  unfold dated. cbn [finish advance with_store store messages].
  intros H. rewrite forallb_app, H. cbn [forallb has_valid_date msg_timestamp].
  by rewrite (clock (S (tick s))).
Qed.

Lemma dated_logged subs s :
  dated s -> dated (fold_left (fun s e => log e s) subs s).
Proof.
  revert s. induction subs as [| e subs IH]; intros s H; [exact H |].
  apply IH. exact H.
Qed.

#[local] Hint Resolve dated_addMessage dated_say dated_finish dated_logged : dated.

Lemma dated_confirmAction s : dated s -> dated (confirmAction env s).
Proof.
  intros H. unfold confirmAction. destruct (pendingAction (store s)); [| exact H].
  destruct (execute env _) as [subs [result | e]]; auto with dated.
Qed.

Lemma dated_clearConversation s : dated (clearConversation env s).
Proof.
  unfold dated.
  cbn [clearConversation advance with_store store messages forallb has_valid_date
       welcome_message msg_timestamp].
  by rewrite (clock (tick s)).
Qed.

Lemma dated_initial : dated (initial_session env).
Proof.
  unfold dated.
  cbn [initial_session initial_state store messages forallb has_valid_date
       welcome_message msg_timestamp].
  by rewrite (clock 0).
Qed.

Lemma dated_handleConfirmationResponse input s :
  dated s -> dated (handleConfirmationResponse env input s).
Proof.
  intros H. unfold handleConfirmationResponse.
  destruct (array_includes affirmative _).
  - apply (dated_same (confirmAction env (log ExecutorInvoked (setProcessing true s))));
      [reflexivity |].
    apply dated_confirmAction. exact H.
  - destruct (array_includes negative _); auto with dated.
Qed.

Lemma dated_handleUploadComplete url fileName s :
  dated s -> dated (handleUploadComplete env url fileName s).
Proof.
  intros H. unfold handleUploadComplete.
  destruct (pendingNFTDetails s) as [[n d] |];
    [destruct (truthy n || truthy d); [destruct (composer env _) |] |];
    auto with dated.
  apply dated_addMessage; exact H.
Qed.

Lemma dated_handleNFTDetails userInput s :
  dated s -> dated (handleNFTDetailsAfterUpload env userInput s).
Proof.
  intros H. unfold handleNFTDetailsAfterUpload.
  destruct (uploadedImage s) as [[url file] |]; [| exact H].
  destruct (parseNFTDetails userInput) as [name description | prompt];
    [| by apply dated_say].
  destruct (is_empty name); [by apply dated_say |].
  destruct (composer env _) as [confirmation | e]; [| by apply dated_say].
  apply (dated_same (say env confirmation s)); [reflexivity |]. by apply dated_say.
Qed.

Lemma dated_handleAIResult result s s' :
  handleAIResult env result s = Normal s' -> dated s -> dated s'.
Proof.
  unfold handleAIResult. intros E H.
  apply bind_Normal in E as (upload & _ & E). destruct upload.
  - apply bind_Normal in E as (details & _ & E).
    apply bind_Normal in E as (s1 & E1 & E). injection E as <-.
    apply dated_addMessage.
    destruct (truthy details).
    + apply bind_Normal in E1 as (name & _ & E1).
      apply bind_Normal in E1 as (description & _ & E1). by injection E1 as <-.
    + by injection E1 as <-.
  - apply bind_Normal in E as (confirm & _ & E). destruct confirm.
    + destruct (composer env (action result)); injection E as <-.
      * eapply dated_same; [| eapply dated_say, dated_addMessage, H]. reflexivity.
      * by apply dated_say, dated_addMessage.
    + injection E as <-. by apply dated_addMessage.
Qed.

(** The dates of a conversation stay valid through every turn. *)
Lemma dated_handleSendMessage s : dated s -> dated (handleSendMessage env s).
Proof.
  intros H. unfold handleSendMessage.
  destruct (is_empty _ || isProcessing _); [exact H |].
  set (s1 := addMessage _ _ _ _ _ _ _ _).
  assert (H1 : dated s1) by (apply dated_addMessage; exact H).
  destruct (awaiting s); [by apply dated_handleConfirmationResponse |].
  destruct (isWaitingForNFTDetails s); [by apply dated_handleNFTDetails |].
  set (s2 := log _ (setProcessing true s1)).
  assert (H2 : dated s2) by exact H1.
  destruct (handleAIResult_total env
              (processUserInput (JSON_parse env)
                 (oracle env (trim (inputValue s)) (slice_last 10 (messages (store s)))))
              s2) as (s3 & E).
  rewrite E. cbn [try_catch].
  eapply dated_same; [| exact (dated_handleAIResult _ _ _ E H2)]. reflexivity.
Qed.

End Dated.

(** ** Specified properties of the parse boundary *)

Section ParseBoundarySpec.
Import JSString Regex JS GeminiAI Spec Scenario.
Context `{engine : Engine}.

Lemma is_string_neq lit k : k <> lit -> is_string lit (VStr k) = false.
Proof. intros H. simpl. by apply String.eqb_neq. Qed.

Lemma is_string_false_neq lit k : is_string lit (VStr k) = false -> k <> lit.
Proof. simpl. intros H. by apply String.eqb_neq. Qed.

(** The action of a result, seen from the rewritten object. *)
Lemma result_action text pj3 k :
  getPropOpt (action (result_of text pj3)) "action" = Normal (VStr k) ->
  getProp pj3 "action" = Normal (action (result_of text pj3))
  /\ action_kind pj3 = Normal (VStr k).
Proof.
  unfold result_of. cbn [action]. unfold or_else.
  destruct (truthy (field pj3 "action")) eqn:Et; [| discriminate].
  intros Hk. apply getPropOpt_defined in Hk as [Hk _]; [| discriminate].
  assert (Ha : getProp pj3 "action" = Normal (field pj3 "action")).
  { unfold field in *. destruct (getProp pj3 "action"); [reflexivity | discriminate]. }
  split; [exact Ha |]. eapply action_kind_intro; eassumption.
Qed.

(** What comes back when the three blocks have run: the kind of the
    returned action is the kind the oracle gave, and only the block of
    that kind has touched the object. *)
Lemma rewritten_by_kind pj0 pj3 k :
  rewritten pj0 pj3 -> action_kind pj3 = Normal (VStr k) ->
  action_kind pj0 = Normal (VStr k)
  /\ (k = "create_token" -> create_token_defaults pj0 = Normal pj3)
  /\ (k = "send_transaction" -> send_transaction_validation pj0 = Normal pj3)
  /\ (k = "upload_nft" -> upload_nft_handling pj0 = Normal pj3)
  /\ (k <> "create_token" -> k <> "send_transaction" -> k <> "upload_nft" -> pj3 = pj0).
Proof.
  intros (pj1 & pj2 & E1 & E2 & E3) Hk3.
  destruct (upload_block_cases _ _ E3) as [[-> (k2 & Hk2 & Hs2)] | [Hk2 Hk3']].
  - rewrite Hk3 in Hk2. injection Hk2 as <-. apply is_string_false_neq in Hs2.
    destruct (send_block_cases _ _ E2) as [[-> (k1 & Hk1 & Hs1)] | [Hk1 Hk2']].
    + rewrite Hk3 in Hk1. injection Hk1 as <-. apply is_string_false_neq in Hs1.
      destruct (create_block_cases _ _ E1) as [[-> (k0 & Hk0 & Hs0)] | [Hk0 Hk1']].
      * rewrite Hk3 in Hk0. injection Hk0 as <-. apply is_string_false_neq in Hs0.
        repeat split; intros; congruence.
      * rewrite Hk3 in Hk1'. injection Hk1' as ->.
        repeat split; intros; congruence.
    + rewrite Hk3 in Hk2'. injection Hk2' as ->.
      assert (pj1 = pj0) as ->.
      { destruct (create_block_cases _ _ E1) as [[-> _] | [_ Hk1']]; [done |].
        rewrite Hk1 in Hk1'. discriminate. }
      repeat split; intros; congruence.
  - rewrite Hk3 in Hk3'. injection Hk3' as ->.
    assert (pj2 = pj1) as ->.
    { destruct (send_block_cases _ _ E2) as [[-> _] | [_ Hk2']]; [done |].
      rewrite Hk2 in Hk2'. discriminate. }
    assert (pj1 = pj0) as ->.
    { destruct (create_block_cases _ _ E1) as [[-> _] | [_ Hk1']]; [done |].
      rewrite Hk2 in Hk1'. discriminate. }
    repeat split; intros; congruence.
Qed.

(** A returned action of kind [k] comes from a fenced block that parsed,
    and is what the blocks left under [action]. *)
Lemma returned_action J text k :
  getPropOpt (action (parseAIResponse J text)) "action" = Normal (VStr k) ->
  exists body pj0 pj3,
    fenced_json text = Some body /\ J body = Some pj0 /\ rewritten pj0 pj3
    /\ getProp pj3 "action" = Normal (action (parseAIResponse J text))
    /\ action_kind pj3 = Normal (VStr k).
Proof.
  intros Hkind.
  destruct (parseAIResponse_cases J text)
    as [Hplain | (body & pj0 & pj3 & Hf & HJ & Hrw & Hr)].
  { rewrite Hplain in Hkind. discriminate. }
  rewrite Hr in *. destruct (result_action _ _ _ Hkind) as [Hact3 Hk3].
  exists body, pj0, pj3. auto.
Qed.

(** A returned transfer: its details are the oracle's but for the token,
    and its flag and missing-fields list are those of the presence check. *)
Lemma returned_transfer J text :
  getPropOpt (action (parseAIResponse J text)) "action"
    = Normal (VStr "send_transaction") ->
  exists given details,
    getProp (action (parseAIResponse J text)) "details" = Normal details
    /\ field details "token"
       = (if truthy (field given "token") then field given "token" else VStr "BNB")
    /\ (forall key, key <> "token" -> getProp details key = getProp given key)
    /\ getProp (action (parseAIResponse J text)) "missingFields"
       = Normal (array (missing_fields details))
    /\ getProp (action (parseAIResponse J text)) "isComplete"
       = Normal (VBool (fields_present details)).
Proof.
  intros Hkind.
  destruct (returned_action _ _ _ Hkind) as (body & pj0 & pj3 & _ & _ & Hrw & Hact & Hk3).
  destruct (rewritten_by_kind _ _ _ Hrw Hk3) as (Hk0 & _ & Hsend & _).
  destruct (send_block_inv _ _ Hk0 (Hsend eq_refl))
    as (a0 & d & d' & a & _ & _ & Htok & Hsame & Ha & Hd' & Hm & Hc & _ & _).
  rewrite Hact in Ha. injection Ha as <-.
  exists d, d'. auto.
Qed.

(** C3 (amended): for an action that [parseAIResponse] returns, the
    completeness flag of a [send_transaction] is true exactly when the
    missing-fields list is empty, which is exactly when [recipient] and
    [amount] are both present and truthy; no syntactic validity is checked.
    The flag of an [upload_nft] is always true.  For every other kind the
    flag and the missing-fields list are those the oracle gave. *)
Theorem C3_completeness_flag (JSON_parse : string -> option value)
    (text kind : string) :
  getPropOpt (action (parseAIResponse JSON_parse text)) "action"
    = Normal (VStr kind) ->
  let act := action (parseAIResponse JSON_parse text) in
  (kind = "send_transaction" ->
     exists details,
       getProp act "details" = Normal details
       /\ getProp act "missingFields" = Normal (array (missing_fields details))
       /\ getProp act "isComplete" = Normal (VBool (fields_present details))
       /\ (fields_present details = true <-> missing_fields details = []))
  /\ (kind = "upload_nft" -> getProp act "isComplete" = Normal (VBool true))
  /\ (kind <> "send_transaction" -> kind <> "upload_nft" ->
      exists body parsedJson act0,
        fenced_json text = Some body /\ JSON_parse body = Some parsedJson
        /\ getProp parsedJson "action" = Normal act0
        /\ getProp act "isComplete" = getProp act0 "isComplete"
        /\ getProp act "missingFields" = getProp act0 "missingFields").
Proof.
  intros Hkind act. subst act. split; [| split].
  - intros ->. destruct (returned_transfer _ _ Hkind) as (d & d' & Hd & _ & _ & Hm & Hc).
    exists d'. repeat split; try assumption; apply present_iff_none_missing.
  - intros ->.
    destruct (returned_action _ _ _ Hkind) as (body & pj0 & pj3 & _ & _ & Hrw & Hact & Hk3).
    destruct (rewritten_by_kind _ _ _ Hrw Hk3) as (Hk0 & _ & _ & Hup & _).
    destruct (upload_block_inv _ _ Hk0 (Hup eq_refl)) as (a0 & a & _ & Ha & Hc & _).
    rewrite Hact in Ha. by injection Ha as <-.
  - intros Hns Hnu.
    destruct (returned_action _ _ _ Hkind) as (body & pj0 & pj3 & Hf & HJ & Hrw & Hact & Hk3).
    destruct (rewritten_by_kind _ _ _ Hrw Hk3) as (Hk0 & Hcreate & _ & _ & Hnone).
    exists body, pj0.
    destruct (String.eqb_spec kind "create_token") as [-> | Hnc].
    + destruct (create_block_inv _ _ Hk0 (Hcreate eq_refl)) as (a0 & a & Ha0 & Ha & Hsame & _).
      rewrite Hact in Ha. injection Ha as <-.
      exists a0. repeat split; try assumption; apply Hsame; discriminate.
    + rewrite (Hnone Hnc Hns Hnu) in Hact. eexists. repeat split; eauto.
Qed.

(** *** The silent token default *)

(** The transfer block on an action whose details are an object. *)
Lemma send_block_object (top act d : gmap string value) :
  top !! "action" = Some (VObj act) ->
  act !! "action" = Some (VStr "send_transaction") ->
  act !! "details" = Some (VObj d) ->
  let d' := if truthy (prop d "token") then d else <["token" := VStr "BNB"]> d in
  send_transaction_validation (VObj top)
  = Normal (VObj (<["action" :=
       VObj (<["isComplete" := VBool (fields_present (VObj d))]>
              (<["missingFields" := array (missing_fields (VObj d))]>
                 (<["details" := VObj d']> act)))]> top)).
Proof.
  intros Htop Hkind Hd d'. subst d'.
  apply prop_lookup in Htop, Hkind, Hd.
  unfold send_transaction_validation, action_kind, store_action.
  unfold fields_present, missing_fields. rewrite !field_object.
  assert (Hempty : forall v, truthy v = true -> is_string "" v = false).
  { intros [] Hv; try reflexivity. by destruct s. }
  destruct (truthy (prop d "token")) eqn:Etok;
    destruct (truthy (prop d "recipient")) eqn:Erec,
             (truthy (prop d "amount")) eqn:Eamt;
    repeat (progress
      (js_step;
       rewrite ?Htop, ?Hkind, ?Hd, ?is_string_refl, ?Etok, ?Erec, ?Eamt;
       try rewrite (Hempty _ Etok);
       cbn [negb orb andb app length Nat.eqb]));
    reflexivity.
Qed.

Lemma fields_present_token (d : gmap string value) tok :
  fields_present (VObj (<["token" := tok]> d)) = fields_present (VObj d).
Proof. unfold fields_present. rewrite !field_object. by rewrite !prop_insert_ne. Qed.

Lemma fields_present_no_token (d : gmap string value) :
  fields_present (VObj (delete "token" d)) = fields_present (VObj d).
Proof.
  unfold fields_present. rewrite !field_object. unfold prop.
  by rewrite !lookup_delete_ne.
Qed.

Lemma token_never_missing details : ~ In (VStr "token") (missing_fields details).
Proof.
  unfold missing_fields.
  destruct (truthy (field details "recipient")), (truthy (field details "amount"));
    simpl; intros H; repeat (destruct H as [H | H]; [discriminate |]); exact H.
Qed.

(** C10: every [send_transaction] action that [parseAIResponse] returns
    carries the oracle's token if that was truthy and "BNB" if it was
    absent, empty or otherwise falsy; "token" is never in its
    missing-fields list; and its completeness flag is decided by
    [recipient] and [amount] alone.  When the details the oracle gave are
    an object, the action is returned (nothing is thrown) and the flag is
    the same whatever the token is, given or removed. *)
Theorem C10_token_default (JSON_parse : string -> option value) (text : string) :
  (getPropOpt (action (parseAIResponse JSON_parse text)) "action"
     = Normal (VStr "send_transaction") ->
   exists given details,
     getProp (action (parseAIResponse JSON_parse text)) "details" = Normal details
     /\ (truthy (field given "token") = false -> field details "token" = VStr "BNB")
     /\ (truthy (field given "token") = true ->
         field details "token" = field given "token")
     /\ getProp (action (parseAIResponse JSON_parse text)) "missingFields"
        = Normal (array (missing_fields details))
     /\ ~ In (VStr "token") (missing_fields details)
     /\ getProp (action (parseAIResponse JSON_parse text)) "isComplete"
        = Normal (VBool (fields_present given)))
  /\ (forall (body : string) (top act d : gmap string value),
      fenced_json text = Some body ->
      JSON_parse body = Some (VObj top) ->
      top !! "action" = Some (VObj act) ->
      act !! "action" = Some (VStr "send_transaction") ->
      act !! "details" = Some (VObj d) ->
      let d' := if truthy (prop d "token") then d else <["token" := VStr "BNB"]> d in
      action (parseAIResponse JSON_parse text)
      = VObj (<["isComplete" := VBool (fields_present (VObj d))]>
               (<["missingFields" := array (missing_fields (VObj d))]>
                  (<["details" := VObj d']> act)))
      /\ (truthy (prop d "token") = false -> prop d' "token" = VStr "BNB")
      /\ (forall tok,
            fields_present (VObj (<["token" := tok]> d)) = fields_present (VObj d))
      /\ fields_present (VObj (delete "token" d)) = fields_present (VObj d)).
Proof.
  split.
  - intros Hkind.
    destruct (returned_transfer _ _ Hkind) as (given & details & Hd & Htok & Hsame & Hm & Hc).
    exists given, details. split; [exact Hd |].
    split; [intros E; by rewrite Htok, E |].
    split; [intros E; by rewrite Htok, E |].
    split; [exact Hm |]. split; [apply token_never_missing |].
    rewrite Hc. do 2 f_equal. unfold fields_present, field.
    by rewrite !Hsame by discriminate.
  - intros body top act d Hf HJ Htop Hkind Hd d'.
    split; [| split; [| split; [apply fields_present_token
                               | apply fields_present_no_token]]].
    + pose proof (send_block_object top act d Htop Hkind Hd) as Hsend. cbv zeta in Hsend.
      fold d' in Hsend.
      set (act' := <["isComplete" := _]> _) in *.
      set (pj := VObj (<["action" := VObj act']> top)) in *.
      assert (Hk0 : action_kind (VObj top) = Normal (VStr "send_transaction")).
      { eapply action_kind_intro; rewrite getProp_object;
          [by rewrite (prop_lookup _ _ _ Htop) | by rewrite (prop_lookup _ _ _ Hkind)]. }
      assert (Hk2 : action_kind pj = Normal (VStr "send_transaction")).
      { subst pj act'. eapply action_kind_intro; rewrite getProp_object.
        - by rewrite prop_insert.
        - rewrite !prop_insert_ne by done. by rewrite (prop_lookup _ _ _ Hkind). }
      assert (Hrw : rewritten (VObj top) pj).
      { exists (VObj top), pj. split; [| split].
        - by apply (create_block_skip _ _ Hk0).
        - exact Hsend.
        - by apply (upload_block_skip _ _ Hk2). }
      rewrite (parse_steps _ _ _ _ _ Hf HJ Hrw).
      unfold result_of. cbn [action]. subst pj.
      rewrite field_object, prop_insert. reflexivity.
    + intros E. subst d'. rewrite E. by rewrite prop_insert.
Qed.

(** *** Graceful degradation *)


End ParseBoundarySpec.

Section ParseBoundaryExamples.
Import JSString Regex JS GeminiAI Spec Scenario.
#[local] Existing Instance Scenario.ascii_engine.
Local Open Scope list_scope.

(** The amended statement holds of the transfer to "bob": the action is
    complete, nothing is missing. *)
Lemma C3_completeness_flag_witness :
  let act := action (parseAIResponse sample_parse (fenced transfer_text)) in
  exists details,
    getProp act "details" = Normal details
    /\ getProp act "isComplete" = Normal (VBool (fields_present details))
    /\ fields_present details = true.
Proof.
  destruct (C3_completeness_flag sample_parse (fenced transfer_text)
              "send_transaction" eq_refl) as [H _].
  destruct (H eq_refl) as (details & Hd & _ & Hc & _).
  exists details. split; [exact Hd |]. split; [exact Hc |].
  vm_compute in Hd. injection Hd as <-. reflexivity.
Defined.

(** C3 as the specification states it fails: a transfer of minus five
    to "bob" is flagged complete with nothing missing, though "bob" is no
    address and the amount is not positive. *)
Lemma C3_counterexample :
  ~ transfer_invariant
      (action (parseAIResponse sample_parse (fenced transfer_text))).
Proof.
  unfold transfer_invariant. intros [H _].
  destruct (H eq_refl) as (_ & Haddr & _). vm_compute in Haddr. discriminate.
Qed.

(** The transfer to "bob" names no token: it is returned with the token
    "BNB" and flagged complete. *)
Lemma C10_token_default_witness :
  let act := action (parseAIResponse sample_parse (fenced transfer_text)) in
  field (field act "details") "token" = VStr "BNB"
  /\ field act "isComplete" = VBool true
  /\ field act "missingFields" = array [].
Proof.
  destruct (C10_token_default sample_parse (fenced transfer_text))
    as (_ & H).
  destruct (H transfer_text (answer_props transfer_to_bob) transfer_props
              transfer_details)
    as (Hact & _); [reflexivity | reflexivity | reflexivity | reflexivity | reflexivity |].
  cbv zeta. rewrite Hact. vm_compute. repeat split; reflexivity.
Defined.


End ParseBoundaryExamples.

(** ** Specified properties of the defaulting engine *)

Section DefaultingSpec.
Import JSString Regex JS GeminiAI Spec Scenario.
Context `{engine : Engine}.

(** The token block on an action whose details are an object and whose
    name is a string, or is missing ([n] is then empty). *)
Lemma create_block_object (top act d : gmap string value) (n : string) :
  top !! "action" = Some (VObj act) ->
  act !! "action" = Some (VStr "create_token") ->
  act !! "details" = Some (VObj d) ->
  or_else (prop d "name") (VStr "") = VStr n ->
  let d1 := if truthy (prop d "decimals") then d else <["decimals" := VStr "18"]> d in
  let d2 := if truthy (prop d "totalSupply") then d1
            else <["totalSupply" := VStr (generateSmartTotalSupply n)]> d1 in
  let d3 := if negb (truthy (prop d "symbol")) && truthy (prop d "name")
            then <["symbol" := VStr (generateTokenSymbol n)]> d2 else d2 in
  create_token_defaults (VObj top)
  = Normal (VObj (<["action" := VObj (<["details" := VObj d3]> act)]> top)).
Proof.
  intros Htop Hkind Hd Hname d1 d2 d3. subst d1 d2 d3.
  apply prop_lookup in Htop, Hkind, Hd.
  assert (Hstr : truthy (prop d "name") = true -> prop d "name" = VStr n).
  { intros E. by rewrite or_else_truthy in Hname. }
  unfold create_token_defaults, action_kind, store_action.
  destruct (truthy (prop d "decimals")) eqn:Edec,
           (truthy (prop d "totalSupply")) eqn:Esup,
           (truthy (prop d "symbol")) eqn:Esym,
           (truthy (prop d "name")) eqn:Enam;
    first [ specialize (Hstr eq_refl); assert (Etn := Enam); rewrite Hstr in Etn, Hname
          | (assert (Etn := I); assert (Hstr' := I); clear Hstr; rename Hstr' into Hstr) ];
    repeat (progress
      (js_step;
       rewrite ?Htop, ?Hkind, ?Hd, ?is_string_refl, ?Edec, ?Esup, ?Esym, ?Enam,
               ?Hname; try rewrite Hstr; try rewrite Etn;
       cbn [negb andb string_receiver]));
    reflexivity.
Qed.

(** *** The symbol *)

Lemma units_le c : units c <= 2.
Proof.
  unfold units. cbv zeta.
  destruct (code c <? 128)%nat, (code c <? 192)%nat, (code c <? 240)%nat; lia.
Qed.

Lemma units_lead n : (224 <= n < 240)%N -> units (chr n) = 1.
Proof.
  intros Hn. unfold units. cbv zeta. rewrite code_chr by lia.
  destruct (Nat.ltb_spec (N.to_nat n) 128); [lia |].
  destruct (Nat.ltb_spec (N.to_nat n) 192); [lia |].
  destruct (Nat.ltb_spec (N.to_nat n) 240); [reflexivity | lia].
Qed.

Lemma units_inner n : (128 <= n < 192)%N -> units (chr n) = 0.
Proof.
  intros Hn. unfold units. cbv zeta. rewrite code_chr by lia.
  destruct (Nat.ltb_spec (N.to_nat n) 128); [lia |].
  destruct (Nat.ltb_spec (N.to_nat n) 192); [reflexivity | lia].
Qed.

(** A code point on three bytes is one code unit. *)
Lemma js_length_three_bytes n : js_length (three_bytes n) = 1.
Proof.
  unfold three_bytes. cbn [js_length].
  assert (H16 : ((n / 4096) mod 16 < 16)%N) by (apply N.mod_lt; lia).
  assert (H64 : ((n / 64) mod 64 < 64)%N) by (apply N.mod_lt; lia).
  assert (H64' : (n mod 64 < 64)%N) by (apply N.mod_lt; lia).
  revert H16 H64 H64'.
  generalize ((n / 4096) mod 16)%N, ((n / 64) mod 64)%N, (n mod 64)%N.
  intros a b c Ha Hb Hc.
  rewrite (units_lead (224 + a)), (units_inner (128 + b)), (units_inner (128 + c))
    by lia.
  reflexivity.
Qed.

(** [substring(0, n)] has at most [n] code units. *)
Lemma js_length_substring0 s : forall n, js_length (substring0 n s) <= n.
Proof.
  induction s as [| c s IH]; intros n; cbn [substring0]; [cbn; lia |].
  pose proof (units_le c) as Hc.
  destruct (units c) as [| [| k]] eqn:E.
  - cbn [js_length]. rewrite E. apply IH.
  - destruct n as [| n]; cbn [js_length]; [lia |]. rewrite E.
    specialize (IH n). lia.
  - destruct n as [| [| n]]; [cbn; lia | |].
    + unfold high_surrogate. by rewrite js_length_three_bytes.
    + cbn [js_length]. rewrite E. specialize (IH n). lia.
Qed.

(** The symbol never has more than four code units. *)
Lemma symbol_at_most_four name : js_length (generateTokenSymbol name) <= 4.
Proof.
  unfold generateTokenSymbol.
  destruct (symbol_words name) as [| w1 [| w2 [| w3 ws]]].
  - vm_compute. lia.
  - cbv zeta. destruct (Nat.ltb_spec 4 (js_length (toUpperCase w1)));
      [apply js_length_substring0 | lia].
  - apply js_length_substring0.
  - cbv zeta. set (acronym := substring0 4 _).
    pose proof (js_length_substring0
                  (String.concat ""
                     (map (fun word => toUpperCase (charAt0 word)) (w1 :: w2 :: w3 :: ws)))
                  4) as Hacr.
    fold acronym in Hacr.
    destruct (Nat.ltb_spec (js_length acronym) 3); [| exact Hacr].
    rewrite js_length_app. change (js_length "N") with 1. lia.
Qed.

Lemma symbol_words_nonempty name w :
  In w (symbol_words name) -> is_empty w = false.
Proof.
  unfold symbol_words. intros H. apply filter_In in H as [_ H].
  by apply negb_true_iff.
Qed.



(** *** The total supply *)

Lemma gaming_eq n :
  includes n "game" || includes n "gaming" || includes n "play"
  || includes n "quest" || includes n "rpg" || includes n "nft" = gaming n.
Proof. unfold gaming. cbn [existsb]. by rewrite orb_false_r, !orb_assoc. Qed.

Lemma meme_eq n :
  includes n "meme" || includes n "pepe" || includes n "doge"
  || includes n "shib" || includes n "moon" || includes n "rocket" = meme n.
Proof. unfold meme. cbn [existsb]. by rewrite orb_false_r, !orb_assoc. Qed.

Lemma governance_eq n :
  includes n "govern" || includes n "vote" || includes n "dao"
  || includes n "council" || includes n "proposal" = governance n.
Proof. unfold governance. cbn [existsb]. by rewrite orb_false_r, !orb_assoc. Qed.

Lemma utility_eq n :
  includes n "utility" || includes n "app" || includes n "platform"
  || includes n "service" || includes n "network" = utility n.
Proof. unfold utility. cbn [existsb]. by rewrite orb_false_r, !orb_assoc. Qed.

Lemma stablecoin_eq n :
  includes n "stable" || includes n "usd" || includes n "dollar"
  || includes n "peg" = stablecoin n.
Proof. unfold stablecoin. cbn [existsb]. by rewrite orb_false_r, !orb_assoc. Qed.

(** The supply as a cascade over the categories. *)
Lemma supply_cascade tokenName :
  generateSmartTotalSupply tokenName =
  let name := toLowerCase tokenName in
  if gaming name then "1000000000"
  else if meme name then "1000000000000"
  else if governance name then "10000000"
  else if utility name then "100000000"
  else "1000000".
Proof.
  unfold generateSmartTotalSupply. cbv zeta.
  rewrite gaming_eq, meme_eq, governance_eq, utility_eq, stablecoin_eq.
  by destruct (stablecoin _).
Qed.

(** C8 (amended): the defaulted supply of a token-creation action that
    lacks one is decided by the first category, in the order gaming,
    meme, governance, utility, stablecoin, that has a keyword contained in
    the lower-cased name: 1,000,000,000 for gaming; 1,000,000,000,000 for
    meme; 10,000,000 for governance; 100,000,000 for utility; 1,000,000 for
    stablecoin and for every other name. *)
Theorem C8_supply_by_category (tokenName : string) :
  let name := toLowerCase tokenName in
  let supply := generateSmartTotalSupply tokenName in
  (forall top act d : gmap string value,
     top !! "action" = Some (VObj act) ->
     act !! "action" = Some (VStr "create_token") ->
     act !! "details" = Some (VObj d) ->
     d !! "name" = Some (VStr tokenName) ->
     truthy (prop d "totalSupply") = false ->
     exists d',
       create_token_defaults (VObj top)
       = Normal (VObj (<["action" := VObj (<["details" := VObj d']> act)]> top))
       /\ prop d' "totalSupply" = VStr supply)
  /\ (gaming name = true -> supply = "1000000000")
  /\ (gaming name = false -> meme name = true -> supply = "1000000000000")
  /\ (gaming name = false -> meme name = false -> governance name = true ->
      supply = "10000000")
  /\ (gaming name = false -> meme name = false -> governance name = false ->
      utility name = true -> supply = "100000000")
  /\ (gaming name = false -> meme name = false -> governance name = false ->
      utility name = false -> stablecoin name = true -> supply = "1000000")
  /\ (gaming name = false -> meme name = false -> governance name = false ->
      utility name = false -> stablecoin name = false -> supply = "1000000").
Proof.
  intros name supply. split.
  - intros top act d Htop Hkind Hd Hname Hsup.
    assert (Hn : prop d "name" = VStr tokenName) by (by apply prop_lookup).
    assert (Hor : or_else (prop d "name") (VStr "") = VStr tokenName).
    { unfold or_else. rewrite Hn. by destruct tokenName. }
    pose proof (create_block_object top act d tokenName Htop Hkind Hd Hor) as H.
    cbv zeta in H. rewrite Hsup in H.
    eexists. split; [exact H |].
    destruct (negb (truthy (prop d "symbol")) && truthy (prop d "name"));
      rewrite ?prop_insert_ne by done; by rewrite prop_insert.
  - subst supply. rewrite supply_cascade. fold name. cbv zeta.
    destruct (gaming name), (meme name), (governance name), (utility name);
      repeat split; intros; congruence.
Qed.

End DefaultingSpec.

Section DefaultingExamples.
Import JSString Regex JS GeminiAI Spec Scenario.
#[local] Existing Instance Scenario.ascii_engine.
Local Open Scope list_scope.



(** "Dragon Quest Token" is a gaming name and gets a billion. *)
Lemma C8_supply_by_category_witness :
  gaming (toLowerCase "Dragon Quest Token") = true
  /\ field (defaults_of (answer (token_request "Dragon Quest Token" None))) "totalSupply"
     = VStr "1000000000".
Proof.
  destruct (C8_supply_by_category "Dragon Quest Token") as (Hparse & Hgaming & _).
  split; [reflexivity |].
  destruct (Hparse (answer_props (token_request "Dragon Quest Token" None))
              (token_props "Dragon Quest Token" None)
              (token_details "Dragon Quest Token" None))
    as (d' & Hrun & Hsup); [reflexivity | reflexivity | reflexivity | reflexivity
                           | reflexivity |].
  unfold defaults_of, answer. rewrite Hrun.
  rewrite field_object, prop_insert, field_object, prop_insert, field_object, Hsup.
  f_equal.
Defined.

(** C8 as the specification states it fails: "Moon Quest" carries the
    meme keyword "moon", and yet gets the supply of a gaming token, for
    "quest" is looked for first. *)
Lemma C8_counterexample :
  meme (toLowerCase "Moon Quest") = true
  /\ generateSmartTotalSupply "Moon Quest" = "1000000000"
  /\ generateSmartTotalSupply "Moon Quest" <> "1000000000000".
Proof. vm_compute. repeat split; discriminate. Qed.

End DefaultingExamples.

(** ** Specified properties of the store *)

Section StoreSpec.
Import JSString JS JSDate ConversationStore AIChat Spec Scenario.

Lemma valid_timeb_spec t : valid_timeb t = true -> valid_time t.
Proof. unfold valid_timeb, valid_time. lia. Qed.

Lemma restore_store_message m :
  has_valid_date m = true ->
  exists sm, store_message m = Normal sm /\ restore_message sm = m
             /\ st_content sm = msg_content m.
Proof.
  unfold has_valid_date. destruct m as [i ty c ts a rc su ui]. simpl.
  destruct ts as [t |]; [| discriminate]. intros Hv. apply valid_timeb_spec in Hv.
  eexists. split; [reflexivity |]. split; [| reflexivity].
  unfold restore_message, Date_of_string. simpl.
  by rewrite parseISO_toISOString.
Qed.

Lemma restore_store_messages ms :
  forallb has_valid_date ms = true ->
  exists stored, store_messages ms = Normal stored
                 /\ map restore_message stored = ms
                 /\ map st_content stored = map msg_content ms.
Proof.
  induction ms as [| m ms IH]; simpl; intros H.
  - exists []. auto.
  - apply andb_true_iff in H as [Hm Hms].
    destruct (restore_store_message m Hm) as (sm & Es & Er & Ec).
    destruct (IH Hms) as (stored & Es' & Er' & Ec').
    exists (sm :: stored). rewrite Es, bind_ret, Es', bind_ret. simpl.
    by rewrite Er, Er', Ec, Ec'.
Qed.

Lemma slice_last_short {A} n (xs : list A) : length xs <= n -> slice_last n xs = xs.
Proof. unfold slice_last. intros H. by replace (length xs - n) with 0 by lia. Qed.

Lemma forallb_drop {A} (f : A -> bool) n : forall xs,
  forallb f xs = true -> forallb f (drop n xs) = true.
Proof.
  induction n as [| n IH]; intros [| x xs]; simpl; try done.
  intros H. apply andb_true_iff in H as [_ H]. by apply IH.
Qed.

(** Whatever the length, the last fifty messages are stored and come
    back. *)
Lemma restore_partialize st current :
  forallb has_valid_date (messages st) = true ->
  exists stored,
    partialize st = Normal stored
    /\ messages (merge (Some stored) current) = slice_last 50 (messages st)
    /\ map st_content stored = map msg_content (slice_last 50 (messages st)).
Proof.
  intros Hvalid. unfold partialize.
  destruct (restore_store_messages (slice_last 50 (messages st)))
    as (stored & Es & Er & Ec); [by apply forallb_drop |].
  exists stored. simpl. auto.
Qed.

(** C9: for a conversation of at most fifty messages with valid dates,
    [partialize] stores every message, and [merge] restores from what was
    stored the very list of messages: the same messages in the same order,
    each with its content and with a timestamp of the same time value.
    (The JSON text that the persistence middleware writes in between is
    library code and is not modelled.) *)
Theorem C9_persistence_round_trip (st current : ConversationState) :
  length (messages st) <= 50 ->
  forallb has_valid_date (messages st) = true ->
  exists stored,
    partialize st = Normal stored
    /\ messages (merge (Some stored) current) = messages st
    /\ map st_content stored = map msg_content (messages st)
    /\ map restore_message stored = messages st
    /\ pendingAction (merge (Some stored) current) = pendingAction current.
Proof.
  intros Hlen Hvalid.
  destruct (restore_partialize st current Hvalid) as (stored & Es & Er & Ec).
  rewrite slice_last_short in Er, Ec by exact Hlen.
  exists stored. repeat split; assumption.
Qed.

(** The four messages of the sample session come back as they were. *)
Lemma C9_persistence_round_trip_witness :
  exists stored,
    partialize (store awaiting_mint) = Normal stored
    /\ messages (merge (Some stored) (initial_state chatty))
       = messages (store awaiting_mint)
    /\ length stored = 4.
Proof.
  destruct (C9_persistence_round_trip (store awaiting_mint) (initial_state chatty))
    as (stored & Hp & Hm & Hc & _); [vm_compute; lia | vm_compute; reflexivity |].
  exists stored. split; [exact Hp |]. split; [exact Hm |].
  apply (f_equal (@length _)) in Hc. rewrite !length_map in Hc. rewrite Hc.
  vm_compute. reflexivity.
Defined.

End StoreSpec.

(** ** Specified properties of the confirmation gate and of the upload flow *)

Section GateSpec.
Import JSString JS GeminiAI ConversationStore AIChat Spec Scenario.
Local Open Scope list_scope.
Context `{engine : Engine}.




(** *** At most one submission *)





(** *** The upload flow *)

Lemma last_content_say env content s :
  last_content (say env content s) = Some (VStr content).
Proof. unfold last_content. simpl. by rewrite last_snoc. Qed.

(** The cascade re-prompts early with one of two texts only. *)
Lemma parseNFTDetails_prompt userInput prompt :
  parseNFTDetails userInput = AskAgain prompt ->
  prompt = need_at_least_a_name \/ prompt = what_name.
Proof.
  unfold parseNFTDetails.
  destruct (includes _ "create" && includes _ "nft").
  { destruct (Regex.js_match called_regex userInput); discriminate. }
  destruct (bool_decide _); [discriminate |].
  destruct (includes _ "confirm" || includes _ "mint" || includes _ "proceed");
    [intros [= <-]; by left |].
  destruct (includes _ "skip" || includes _ "no description" || String.eqb _ "no");
    [intros [= <-]; by right |].
  destruct ((js_length userInput <? 50)%nat && negb (includes userInput ","));
    discriminate.
Qed.

(** C5 (amended): in the upload flow, a detail reply from which no name
    is captured creates no pending action and is answered by a re-prompt
    for a name; an upload that completes with no name and no description
    stored creates no pending action and asks for the details; an upload
    that completes with a name or a description stored goes to
    confirmation with the stored name, or with the name "Untitled NFT"
    when only a description was stored, if the confirmation text can be
    composed; if composing it throws, no pending action is created and
    the failure is reported. *)
Theorem C5_name_required (env : Env) (s : Session) (url fileName : string) :
  (forall userInput img,
     uploadedImage s = Some img -> captured_name userInput = "" ->
     let s' := handleNFTDetailsAfterUpload env userInput s in
     pendingAction (store s') = pendingAction (store s)
     /\ isWaitingForNFTDetails s' = isWaitingForNFTDetails s
     /\ exists prompt, In prompt name_prompts /\ last_content s' = Some prompt)
  /\ (has_stored_details s = false ->
      let s' := handleUploadComplete env url fileName s in
      pendingAction (store s') = pendingAction (store s)
      /\ isWaitingForNFTDetails s' = true
      /\ last_content s' = Some (VStr uploaded_ask_details))
  /\ (forall name description confirmation,
      pendingNFTDetails s = Some (name, description) ->
      truthy name || truthy description = true ->
      composer env (nftAction (or_else name (VStr "Untitled NFT"))
                      (or_else description (VStr placeholder_description)) url)
      = Normal confirmation ->
      let s' := handleUploadComplete env url fileName s in
      awaiting s' = true
      /\ pending_detail "name" s' = Some (or_else name (VStr "Untitled NFT"))
      /\ (truthy name = true -> pending_detail "name" s' = Some name))
  /\ (forall name description e,
      pendingNFTDetails s = Some (name, description) ->
      truthy name || truthy description = true ->
      composer env (nftAction (or_else name (VStr "Untitled NFT"))
                      (or_else description (VStr placeholder_description)) url)
      = Throw e ->
      let s' := handleUploadComplete env url fileName s in
      pendingAction (store s') = pendingAction (store s)
      /\ last_content s' = Some (VStr (uploaded_confirmation_failed fileName))).
Proof.
  split; [| split; [| split]].
  - intros userInput [u f] Himg Hname s'. subst s'.
    unfold handleNFTDetailsAfterUpload, captured_name in *. rewrite Himg.
    destruct (parseNFTDetails userInput) as [name description | prompt] eqn:E.
    + subst name. cbn [is_empty].
      repeat split. exists (VStr need_a_name).
      split; [unfold name_prompts; simpl; tauto | apply last_content_say].
    + repeat split. exists (VStr prompt).
      split; [| apply last_content_say].
      destruct (parseNFTDetails_prompt _ _ E) as [-> | ->];
        unfold name_prompts; simpl; tauto.
  - intros H. cbv zeta. unfold has_stored_details in H. unfold handleUploadComplete.
    destruct (pendingNFTDetails s) as [[n d] |]; [rewrite H |];
      repeat split; unfold last_content; simpl; by rewrite last_snoc.
  - intros name description confirmation Hd Ht Hc s'. subst s'.
    unfold handleUploadComplete. rewrite Hd, Ht, Hc.
    split; [reflexivity |].
    assert (Hn : pending_detail "name"
                   (setPendingNFTDetails None
                      (awaitConfirmation env
                         (nftAction (or_else name (VStr "Untitled NFT"))
                            (or_else description (VStr placeholder_description)) url)
                         (addMessage env AI
                            (VStr (uploaded_with_confirmation fileName confirmation))
                            VUndef VUndef None (Some (url, fileName))
                            (setUploadedImage (Some (url, fileName)) s))))
                 = Some (or_else name (VStr "Untitled NFT"))) by reflexivity.
    split; [exact Hn |]. intros Hname. rewrite Hn. by rewrite or_else_truthy.
  - intros name description e Hd Ht Hc s'. subst s'.
    unfold handleUploadComplete. rewrite Hd, Ht, Hc.
    split; [reflexivity |]. unfold last_content. simpl. by rewrite last_snoc.
Qed.

(** C6: after an upload with nothing stored, the reply "Call it Dawn"
    is taken whole as the name: the action that awaits confirmation is a
    complete [mint_nft] with the placeholder description, but its name is
    "Call it Dawn", not "Dawn". *)
Lemma C6_call_it_dawn :
  let s' := send chatty "Call it Dawn" after_upload in
  awaiting s' = true
  /\ pending_field "action" s' = Some (VStr "mint_nft")
  /\ pending_detail "name" s' = Some (VStr "Call it Dawn")
  /\ pending_detail "name" s' <> Some (VStr "Dawn")
  /\ pending_detail "description" s' = Some (VStr placeholder_description)
  /\ pending_field "isComplete" s' = Some (VBool true).
Proof. vm_compute. repeat split; discriminate. Qed.

End GateSpec.

Section GateExamples.
Import JSString JS GeminiAI ConversationStore AIChat Spec Scenario.
#[local] Existing Instance Scenario.ascii_engine.
Local Open Scope list_scope.



(** "please mint it" names nothing: the reply is a re-prompt and nothing
    is pending. *)
Lemma C5_name_required_witness :
  let s' := handleNFTDetailsAfterUpload chatty "please mint it" after_upload in
  pendingAction (store s') = None
  /\ last_content s' = Some (VStr need_at_least_a_name).
Proof.
  destruct (C5_name_required chatty after_upload "" "") as (H & _).
  destruct (H "please mint it" ("https://gnfd.example/art.png", "art.png"))
    as (Hp & _ & _); [reflexivity | reflexivity |].
  cbv zeta. rewrite Hp. split; vm_compute; reflexivity.
Defined.

(** C5 as the specification states it fails: the oracle passes on a
    description and no name, the image is uploaded, and an action named
    "Untitled NFT" awaits confirmation though the user never gave a
    name. *)
Lemma C5_counterexample :
  pendingNFTDetails asked_for_upload = Some (VUndef, VStr "a sunset over the bay")
  /\ awaiting uploaded_unnamed = true
  /\ pending_detail "name" uploaded_unnamed = Some (VStr "Untitled NFT").
Proof. vm_compute. auto. Qed.

End GateExamples.

(** ** The chat component over whole sessions *)

Section SessionLaws.
Import JSString JS GeminiAI ConversationStore AIChat Spec Scenario ChatLoop.
Local Open Scope list_scope.
Context `{engine : Engine}.

(** *** Blank input *)

Lemma blank_trim s : blank s = true <-> trim s = "".
Proof.
  unfold blank. rewrite trim_empty. destruct (trimStart s); split; done.
Qed.

Lemma not_blank_trim s : blank s = false -> trim s <> "".
Proof. intros H E. apply blank_trim in E. congruence. Qed.

(** X1: a message of white space only (or none at all), and any message
    sent while a turn is in progress, is ignored: [handleSendMessage]
    returns without a change to the store, to the component or to the
    outside world.  White space is what [trim] strips: the white space
    and the line terminators of ECMAScript, the no-break space
    included. *)
Theorem X1_blank_input_ignored (env : Env) (s : Session) :
  blank (inputValue s) = true \/ isProcessing (store s) = true ->
  handleSendMessage env s = s.
Proof.
  intros H. unfold handleSendMessage.
  destruct H as [H | H].
  - apply blank_trim in H. by rewrite H.
  - rewrite H. by rewrite orb_true_r.
Qed.

(** *** The history only grows *)

Lemma extends_refl s : extends s s.
Proof. exists []. split; [by rewrite app_nil_r | constructor]. Qed.

Lemma extends_same s s' :
  messages (store s') = messages (store s) -> extends s s'.
Proof. intros H. exists []. split; [by rewrite app_nil_r | constructor]. Qed.

Lemma extends_trans s1 s2 s3 : extends s1 s2 -> extends s2 s3 -> extends s1 s3.
Proof.
  intros (l1 & H1 & F1) (l2 & H2 & F2). exists (l1 ++ l2).
  split; [by rewrite H2, H1, app_assoc | by apply Forall_app].
Qed.

Lemma answers_extends s s' : answers s s' -> extends s s'.
Proof. intros (m & l & H & F). by exists (m :: l). Qed.

Lemma answers_then s1 s2 s3 : answers s1 s2 -> extends s2 s3 -> answers s1 s3.
Proof.
  intros (m & l1 & H1 & F1) (l2 & H2 & F2). exists m, (l1 ++ l2).
  split; [by rewrite H2, H1, <- app_assoc |].
  change (from_assistant ((m :: l1) ++ l2)). by apply Forall_app.
Qed.

Lemma then_answers s1 s2 s3 : extends s1 s2 -> answers s2 s3 -> answers s1 s3.
Proof.
  intros (l1 & H1 & F1) (m & l2 & H2 & F2).
  destruct l1 as [| m1 l1].
  - exists m, l2. rewrite app_nil_r in H1. by rewrite H2, H1.
  - exists m1, (l1 ++ m :: l2). split.
    + by rewrite H2, H1, <- app_assoc.
    + change (from_assistant ((m1 :: l1) ++ m :: l2)). by apply Forall_app.
Qed.

Lemma answers_addMessage env content action conf showUpload image s :
  answers s (addMessage env AI content action conf showUpload image s).
Proof. eexists _, []. split; [reflexivity |]. by repeat constructor. Qed.

Lemma answers_say env content s : answers s (say env content s).
Proof. apply answers_addMessage. Qed.

Lemma answers_finish env content s : answers s (finish env content s).
Proof. eexists _, []. split; [reflexivity |]. by repeat constructor. Qed.

Lemma answers_confirmAction env s p :
  pendingAction (store s) = Some p -> answers s (confirmAction env s).
Proof.
  intros Hp. unfold confirmAction. rewrite Hp.
  destruct (execute env (pa_action p)) as [subs outcome].
  set (s1 := fold_left _ subs _).
  assert (H1 : messages (store s1) = messages (store s)).
  { assert (G : forall l t, messages (store (fold_left (fun s e => log e s) l t))
                          = messages (store t)).
    { induction l as [| e l IH]; intros t; [reflexivity |]. simpl. by rewrite IH. }
    subst s1. by rewrite G. }
  destruct outcome as [result | e].
  - apply (then_answers s s1); [by apply extends_same | apply answers_finish].
  - apply (then_answers s s1); [by apply extends_same | apply answers_finish].
Qed.

Lemma extends_confirmAction env s : extends s (confirmAction env s).
Proof.
  destruct (pendingAction (store s)) as [p |] eqn:Hp.
  - apply answers_extends. by apply (answers_confirmAction env s p).
  - rewrite (confirmAction_idle env s Hp). apply extends_refl.
Qed.

Lemma answers_handleConfirmationResponse env input s :
  awaiting s = true -> answers s (handleConfirmationResponse env input s).
Proof.
  intros Hgate. unfold handleConfirmationResponse.
  destruct (array_includes affirmative _).
  - unfold awaiting in Hgate. destruct (pendingAction (store s)) as [p |] eqn:Hp;
      [| discriminate].
    apply (answers_then _ (confirmAction env (log ExecutorInvoked (setProcessing true s)))).
    + apply (then_answers _ (log ExecutorInvoked (setProcessing true s)));
        [by apply extends_same |].
      by apply (answers_confirmAction _ _ p).
    + by apply extends_same.
  - destruct (array_includes negative _).
    + apply (then_answers _ (rejectAction s)); [by apply extends_same |].
      apply answers_say.
    + apply answers_say.
Qed.

Lemma answers_handleNFTDetails env userInput s :
  uploadedImage s <> None -> answers s (handleNFTDetailsAfterUpload env userInput s).
Proof.
  intros Himg. unfold handleNFTDetailsAfterUpload.
  destruct (uploadedImage s) as [[url file] |]; [| congruence].
  destruct (parseNFTDetails userInput) as [name description | prompt];
    [| apply answers_say].
  destruct (is_empty name); [apply answers_say |].
  destruct (composer env _) as [text | e]; [| apply answers_say].
  eapply answers_then; [apply (answers_say env text) | by apply extends_same].
Qed.

Lemma extends_handleNFTDetails env userInput s :
  extends s (handleNFTDetailsAfterUpload env userInput s).
Proof.
  destruct (uploadedImage s) eqn:Himg.
  - apply answers_extends, answers_handleNFTDetails. congruence.
  - unfold handleNFTDetailsAfterUpload. rewrite Himg. apply extends_refl.
Qed.

Lemma answers_handleAIResult env result s s' :
  handleAIResult env result s = Normal s' -> answers s s'.
Proof.
  unfold handleAIResult. intros H.
  apply bind_Normal in H as (upload & _ & H). destruct upload.
  - apply bind_Normal in H as (details & _ & H).
    apply bind_Normal in H as (s1 & H1 & H). injection H as <-.
    apply (then_answers _ s1); [| apply answers_addMessage].
    destruct (truthy details).
    + apply bind_Normal in H1 as (name & _ & H1).
      apply bind_Normal in H1 as (description & _ & H1). injection H1 as <-.
      by apply extends_same.
    + injection H1 as <-. apply extends_refl.
  - apply bind_Normal in H as (confirm & _ & H).
    set (s1 := addMessage _ _ _ _ _ _ _ _) in H.
    assert (A1 : answers s s1) by apply answers_addMessage.
    destruct confirm.
    + destruct (composer env (action result)) as [text | e]; injection H as <-.
      * apply (answers_then _ s1); [exact A1 |].
        apply (extends_trans _ (say env text s1));
          [apply answers_extends, answers_say | by apply extends_same].
      * apply (answers_then _ s1); [exact A1 |]. apply answers_extends, answers_say.
    + by injection H as <-.
Qed.

Lemma answers_handleUploadComplete env url fileName s :
  answers s (handleUploadComplete env url fileName s).
Proof.
  unfold handleUploadComplete.
  set (s1 := setUploadedImage _ s).
  assert (E1 : extends s s1) by (by apply extends_same).
  assert (ask : answers s
            (addMessage env AI (VStr uploaded_ask_details) VUndef VUndef None
               (Some (url, fileName)) (setIsWaitingForNFTDetails true s1))).
  { apply (then_answers _ (setIsWaitingForNFTDetails true s1));
      [by apply extends_same | apply answers_addMessage]. }
  destruct (pendingNFTDetails s) as [[n d] |]; [| exact ask].
  destruct (truthy n || truthy d); [| exact ask].
  destruct (composer env _) as [text | e].
  - apply (then_answers _ s1); [exact E1 |].
    eapply answers_then; [apply answers_addMessage | by apply extends_same].
  - apply (then_answers _ s1); [exact E1 | apply answers_addMessage].
Qed.

Lemma turn_replies env s :
  blank (inputValue s) = false -> isProcessing (store s) = false ->
  extends (after_user_message env s) (handleSendMessage env s)
  /\ (awaiting s = true \/ isWaitingForNFTDetails s = false \/ uploadedImage s <> None ->
      answers (after_user_message env s) (handleSendMessage env s)).
Proof.
  intros Hin Hproc. apply not_blank_trim in Hin.
  unfold handleSendMessage. rewrite (is_empty_false _ Hin), Hproc. cbn [orb].
  fold (after_user_message env s). set (s1 := after_user_message env s).
  destruct (awaiting s) eqn:Hgate.
  { assert (A : answers s1 (handleConfirmationResponse env (trim (inputValue s)) s1))
      by (by apply answers_handleConfirmationResponse).
    split; [by apply answers_extends | by intros _]. }
  destruct (isWaitingForNFTDetails s) eqn:Hwait.
  { split; [apply extends_handleNFTDetails |].
    intros [H | [H | H]]; try discriminate.
    by apply answers_handleNFTDetails. }
  assert (A : answers s1
    (setProcessing false
       (try_catch
          (handleAIResult env
             (processUserInput (JSON_parse env)
                (oracle env (trim (inputValue s)) (slice_last 10 (messages (store s)))))
             (log (OracleCalled (trim (inputValue s))) (setProcessing true s1)))
          (fun _ => say env processing_error
                      (log (OracleCalled (trim (inputValue s))) (setProcessing true s1)))))).
  { set (s2 := log _ (setProcessing true s1)).
    assert (E2 : extends s1 s2) by (by apply extends_same).
    destruct (handleAIResult env _ s2) as [s3 | e] eqn:E.
    - cbn [try_catch]. apply (answers_then _ s3); [| by apply extends_same].
      apply (then_answers _ s2); [exact E2 |]. by apply answers_handleAIResult in E.
    - cbn [try_catch]. eapply answers_then; [| by apply extends_same].
      apply (then_answers _ s2); [exact E2 | apply answers_say]. }
  split; [by apply answers_extends | by intros _].
Qed.

(** X2: an accepted message (not white space only, no turn in progress)
    is recorded as it was typed, trimmed of the white space and line
    terminators of ECMAScript, right after the history, which is kept as
    it was; what the turn appends after it are messages of the assistant.
    The turn appends at least one reply
    unless the component waits for NFT details without holding an image. *)
Theorem X2_turn_appends (env : Env) (s : Session) :
  blank (inputValue s) = false -> isProcessing (store s) = false ->
  let s' := handleSendMessage env s in
  exists (m : ConversationMessage) (replies : list ConversationMessage),
    messages (store s') = messages (store s) ++ m :: replies
    /\ msg_type m = User
    /\ msg_content m = VStr (trim (inputValue s))
    /\ from_assistant replies
    /\ (awaiting s = true \/ isWaitingForNFTDetails s = false \/ uploadedImage s <> None ->
        replies <> []).
Proof.
  intros Hin Hproc s'. subst s'.
  destruct (turn_replies env s Hin Hproc) as [(replies & Hm & Hf) Hans].
  eexists _, replies. split; [| split; [| split; [| split]]].
  - rewrite Hm. unfold after_user_message. cbn [messages store addMessage advance with_store
      setInputValue]. by rewrite <- app_assoc.
  - reflexivity.
  - reflexivity.
  - exact Hf.
  - intros H. destruct (Hans H) as (r & rs & Hm' & _).
    rewrite Hm in Hm'. apply app_inv_head in Hm'. by subst replies.
Qed.

(** *** What a handler leaves of the component and of the flags *)

Lemma fold_log_store subs : forall s,
  store (fold_left (fun s e => log e s) subs s) = store s
  /\ uploadedImage (fold_left (fun s e => log e s) subs s) = uploadedImage s
  /\ isWaitingForNFTDetails (fold_left (fun s e => log e s) subs s)
     = isWaitingForNFTDetails s.
Proof.
  induction subs as [| e subs IH]; intros s; [done |].
  simpl. destruct (IH (log e s)) as (-> & -> & ->). done.
Qed.

Lemma confirmAction_component env s :
  uploadedImage (confirmAction env s) = uploadedImage s
  /\ isWaitingForNFTDetails (confirmAction env s) = isWaitingForNFTDetails s.
Proof.
  unfold confirmAction. destruct (pendingAction (store s)) as [p |]; [| done].
  destruct (execute env (pa_action p)) as [subs outcome].
  destruct (fold_log_store subs (setProcessing true s)) as (_ & Hu & Hw).
  destruct outcome; cbn [finish advance with_store uploadedImage isWaitingForNFTDetails];
    by rewrite Hu, Hw.
Qed.

Lemma handleConfirmationResponse_component env input s :
  uploadedImage (handleConfirmationResponse env input s) = uploadedImage s
  /\ isWaitingForNFTDetails (handleConfirmationResponse env input s)
     = isWaitingForNFTDetails s.
Proof.
  unfold handleConfirmationResponse.
  destruct (array_includes affirmative _).
  - cbn [setProcessing with_store uploadedImage isWaitingForNFTDetails].
    destruct (confirmAction_component env (log ExecutorInvoked (setProcessing true s)))
      as (-> & ->). done.
  - destruct (array_includes negative _); done.
Qed.

Lemma handleConfirmationResponse_processing env input s :
  awaiting s = true -> isProcessing (store s) = false ->
  isProcessing (store (handleConfirmationResponse env input s)) = false.
Proof.
  intros Hgate Hproc. unfold handleConfirmationResponse.
  destruct (array_includes affirmative _); [reflexivity |].
  destruct (array_includes negative _); exact Hproc.
Qed.

Lemma handleNFTDetails_component env userInput s :
  uploadedImage (handleNFTDetailsAfterUpload env userInput s) = uploadedImage s
  /\ (isWaitingForNFTDetails (handleNFTDetailsAfterUpload env userInput s) = true ->
      isWaitingForNFTDetails s = true)
  /\ isProcessing (store (handleNFTDetailsAfterUpload env userInput s))
     = isProcessing (store s).
Proof.
  unfold handleNFTDetailsAfterUpload.
  destruct (uploadedImage s) as [[url file] |] eqn:E; [| by rewrite E].
  destruct (parseNFTDetails userInput) as [name description | prompt];
    [| by rewrite <- E].
  destruct (is_empty name); [by rewrite <- E |].
  destruct (composer env _); [| by rewrite <- E].
  split; [by rewrite <- E | split; [discriminate | reflexivity]].
Qed.

Lemma handleAIResult_component env result s s' :
  handleAIResult env result s = Normal s' ->
  uploadedImage s' = uploadedImage s
  /\ isWaitingForNFTDetails s' = isWaitingForNFTDetails s
  /\ isProcessing (store s') = isProcessing (store s).
Proof.
  unfold handleAIResult. intros H.
  apply bind_Normal in H as (upload & _ & H). destruct upload.
  - apply bind_Normal in H as (details & _ & H).
    apply bind_Normal in H as (s1 & H1 & H). injection H as <-.
    destruct (truthy details).
    + apply bind_Normal in H1 as (name & _ & H1).
      apply bind_Normal in H1 as (description & _ & H1). by injection H1 as <-.
    + by injection H1 as <-.
  - apply bind_Normal in H as (confirm & _ & H). destruct confirm.
    + destruct (composer env (action result)); by injection H as <-.
    + by injection H as <-.
Qed.

(** A turn changes neither the image the component holds nor, unless it
    ends the wait for details, the waiting flag; it leaves the processing
    flag as it found it. *)
Lemma handleSendMessage_component env s :
  uploadedImage (handleSendMessage env s) = uploadedImage s
  /\ (isWaitingForNFTDetails (handleSendMessage env s) = true ->
      isWaitingForNFTDetails s = true)
  /\ isProcessing (store (handleSendMessage env s)) = isProcessing (store s).
Proof.
  unfold handleSendMessage.
  destruct (is_empty (trim (inputValue s))); [done |]. cbn [orb].
  destruct (isProcessing (store s)) eqn:Hproc; [done |].
  fold (after_user_message env s). set (s1 := after_user_message env s).
  destruct (awaiting s) eqn:Hgate.
  { destruct (handleConfirmationResponse_component env (trim (inputValue s)) s1)
      as (-> & ->).
    split; [done | split; [done |]].
    by apply handleConfirmationResponse_processing. }
  destruct (isWaitingForNFTDetails s) eqn:Hwait.
  { destruct (handleNFTDetails_component env (trim (inputValue s)) s1)
      as (-> & _ & ->). done. }
  set (s2 := log _ (setProcessing true s1)).
  destruct (handleAIResult env _ s2) as [s3 | e] eqn:E; cbn [try_catch].
  - apply handleAIResult_component in E as (Hu & Hw & _).
    cbn [setProcessing with_store uploadedImage isWaitingForNFTDetails store isProcessing].
    rewrite Hu, Hw. subst s2 s1. split; [done | split; [| done]].
    cbn. by rewrite Hwait.
  - split; [done | split; [| done]]. cbn. by rewrite Hwait.
Qed.

Lemma handleUploadComplete_component env url fileName s :
  uploadedImage (handleUploadComplete env url fileName s) = Some (url, fileName)
  /\ isProcessing (store (handleUploadComplete env url fileName s))
     = isProcessing (store s).
Proof.
  unfold handleUploadComplete.
  destruct (pendingNFTDetails s) as [[n d] |]; [| done].
  destruct (truthy n || truthy d); [| done].
  destruct (composer env _); done.
Qed.

(** *** Invariants of a session *)

Lemma handle_invariants env e s :
  isProcessing (store s) = false -> waiting_has_image s ->
  isProcessing (store (handle env e s)) = false
  /\ waiting_has_image (handle env e s).
Proof.
  intros Hproc Hwait. unfold waiting_has_image in *. destruct e as [text | url f | err |];
    cbn [handle].
  - unfold send.
    destruct (handleSendMessage_component env (setInputValue text s)) as (-> & Hw & ->).
    split; [exact Hproc |]. intros H. apply Hw in H. by apply Hwait.
  - destruct (handleUploadComplete_component env url f s) as (-> & ->).
    split; [exact Hproc | discriminate].
  - split; [exact Hproc | exact Hwait].
  - split; [reflexivity | exact Hwait].
Qed.

Lemma session_invariants steps : forall s,
  isProcessing (store s) = false -> waiting_has_image s ->
  isProcessing (store (session steps s)) = false
  /\ waiting_has_image (session steps s).
Proof.
  induction steps as [| [env e] steps IH]; intros s Hproc Hwait; [done |].
  cbn [session fold_left fst snd].
  destruct (handle_invariants env e s Hproc Hwait) as [H1 H2].
  by apply IH.
Qed.

(** X3: in whatever session, started from the initial state, the
    processing flag is down between two events (the input is never left
    disabled), and every message that is not white space only is recorded
    and gets at least one reply of the assistant. *)
Theorem X3_session_responsive (env0 : Env) (steps : list (Env * ui_event)) :
  let s := session steps (initial_session env0) in
  isProcessing (store s) = false
  /\ forall (env : Env) (text : string),
       blank text = false ->
       exists m reply replies,
         messages (store (send env text s))
         = messages (store s) ++ m :: reply :: replies
         /\ msg_type m = User
         /\ msg_content m = VStr (trim text)
         /\ from_assistant (reply :: replies).
Proof.
  intros s.
  destruct (session_invariants steps (initial_session env0)) as [Hproc Hwait];
    [reflexivity | discriminate |].
  fold s in Hproc, Hwait. split; [exact Hproc |].
  intros env text Hin. unfold send.
  destruct (turn_replies env (setInputValue text s) Hin Hproc) as [_ Hans].
  destruct Hans as (reply & replies & Hm & Hf).
  { destruct (awaiting s) eqn:Hgate; [by left | right].
    destruct (isWaitingForNFTDetails s) eqn:Hw; [right | by left].
    by apply Hwait. }
  exists (Build_ConversationMessage
            (fresh_id env (tick s)) User (VStr (trim text))
            (DateValue (now env (S (tick s)))) VUndef VUndef None None),
    reply, replies.
  split; [| split; [reflexivity | split; [reflexivity | exact Hf]]].
  rewrite Hm. unfold after_user_message.
  cbn [messages store addMessage advance with_store setInputValue inputValue tick].
  by rewrite <- app_assoc.
Qed.

(** *** No submission without a confirmation *)

Lemma handleConfirmationResponse_counts env input s :
  submissions s <= submissions (handleConfirmationResponse env input s)
  /\ executor_calls s <= executor_calls (handleConfirmationResponse env input s)
  /\ submissions (handleConfirmationResponse env input s) + executor_calls s
     <= submissions s + executor_calls (handleConfirmationResponse env input s)
  /\ executor_calls (handleConfirmationResponse env input s)
     <= executor_calls s
        + (if array_includes affirmative (trim (toLowerCase input)) then 1 else 0).
Proof.
  unfold handleConfirmationResponse.
  destruct (array_includes affirmative _).
  - set (s2 := log ExecutorInvoked (setProcessing true s)).
    change (submissions (setProcessing false (confirmAction env s2)))
      with (submissions (confirmAction env s2)).
    change (executor_calls (setProcessing false (confirmAction env s2)))
      with (executor_calls (confirmAction env s2)).
    rewrite confirmAction_executor_calls.
    pose proof (confirmAction_submissions env s2) as H.
    assert (Hs : submissions s2 = submissions s).
    { unfold submissions. subst s2. cbn [trace log setProcessing with_store].
      rewrite count_app. simpl. lia. }
    assert (He : executor_calls s2 = S (executor_calls s)).
    { unfold executor_calls. subst s2. cbn [trace log setProcessing with_store].
      rewrite count_app. simpl. lia. }
    lia.
  - destruct (array_includes negative _);
      change (submissions (say env _ _)) with (submissions s);
      change (executor_calls (say env _ _)) with (executor_calls s); lia.
Qed.

Lemma handle_counts env e s :
  submissions s <= submissions (handle env e s)
  /\ executor_calls s <= executor_calls (handle env e s)
  /\ submissions (handle env e s) + executor_calls s
     <= submissions s + executor_calls (handle env e s)
  /\ executor_calls (handle env e s)
     <= executor_calls s + (if confirms e then 1 else 0).
Proof.
  destruct e as [text | url f | err |]; cbn [handle confirms].
  - unfold send. set (s0 := setInputValue text s).
    change (submissions s) with (submissions s0).
    change (executor_calls s) with (executor_calls s0).
    destruct (awaiting s0) eqn:Hgate.
    2: { destruct (handleSendMessage_off_gate_counts env s0 Hgate) as [-> ->]. lia. }
    unfold handleSendMessage.
    destruct (is_empty (trim (inputValue s0)) || isProcessing (store s0)); [lia |].
    rewrite Hgate. fold (after_user_message env s0).
    pose proof (handleConfirmationResponse_counts env (trim (inputValue s0))
                  (after_user_message env s0)) as H.
    change (submissions (after_user_message env s0)) with (submissions s0) in H.
    change (executor_calls (after_user_message env s0)) with (executor_calls s0) in H.
    exact H.
  - unfold submissions, executor_calls. rewrite handleUploadComplete_trace. lia.
  - change (submissions (handleUploadError env err s)) with (submissions s).
    change (executor_calls (handleUploadError env err s)) with (executor_calls s). lia.
  - change (submissions (clearConversation env s)) with (submissions s).
    change (executor_calls (clearConversation env s)) with (executor_calls s). lia.
Qed.

Lemma session_counts steps : forall s,
  submissions (session steps s) + executor_calls s
  <= submissions s + executor_calls (session steps s)
  /\ executor_calls (session steps s) <= executor_calls s + confirmations steps.
Proof.
  induction steps as [| [env e] steps IH]; intros s.
  - cbn. lia.
  - cbn [session fold_left fst snd].
    destruct (IH (handle env e s)) as [H1 H2].
    destruct (handle_counts env e s) as (_ & _ & H3 & H4).
    unfold confirmations in *. cbn [List.filter snd].
    destruct (confirms e); cbn [length]; fold (session steps (handle env e s)) in *; lia.
Qed.

(** X4: in whatever session, started from the initial state and whatever
    the collaborators answer, there are at most as many submissions to
    the chain as invocations of the executor, and at most as many of
    these as messages of the user that the gate reads as a confirmation:
    one of "yes", "y", "confirm", "proceed", "ok", "sure" once trimmed,
    lower-cased by the engine and trimmed again. *)
Theorem X4_no_submission_without_confirmation (env0 : Env)
    (steps : list (Env * ui_event)) :
  let s := session steps (initial_session env0) in
  submissions s <= executor_calls s /\ executor_calls s <= confirmations steps.
Proof.
  intros s. destruct (session_counts steps (initial_session env0)) as [H1 H2].
  fold s in H1, H2.
  change (submissions (initial_session env0)) with 0 in H1.
  change (executor_calls (initial_session env0)) with 0 in H1, H2. lia.
Qed.

(** *** A pending action has been shown *)

Lemma awaiting_same s s' :
  pendingAction (store s') = pendingAction (store s) -> awaiting s' = awaiting s.
Proof. unfold awaiting. by intros ->. Qed.

(** X5: a turn that opens the gate has shown what is to be confirmed.
    When a message (first part) or a completed upload (second part)
    leaves an action awaiting confirmation where none was, the action is
    flagged complete, the confirmation text was composed for that very
    action without an error, and it is what the last message of the
    history shows; so when composing fails, nothing is left to confirm. *)
Theorem X5_confirmation_shown (env : Env) (s : Session) :
  (awaiting s = false -> awaiting (handleSendMessage env s) = true ->
   exists p text,
     pendingAction (store (handleSendMessage env s)) = Some p
     /\ isWaitingForConfirmation p = true
     /\ truthy (field (pa_action p) "isComplete") = true
     /\ composer env (pa_action p) = Normal text
     /\ last_content (handleSendMessage env s) = Some (VStr text))
  /\ (forall url fileName,
        awaiting s = false ->
        awaiting (handleUploadComplete env url fileName s) = true ->
        exists p text,
          pendingAction (store (handleUploadComplete env url fileName s)) = Some p
          /\ isWaitingForConfirmation p = true
          /\ truthy (field (pa_action p) "isComplete") = true
          /\ composer env (pa_action p) = Normal text
          /\ last_content (handleUploadComplete env url fileName s)
             = Some (VStr (uploaded_with_confirmation fileName text))).
Proof.
  split.
  - intros Hgate. unfold handleSendMessage.
    destruct (is_empty (trim (inputValue s)) || isProcessing (store s)); [congruence |].
    rewrite Hgate. fold (after_user_message env s). set (s1 := after_user_message env s).
    assert (H1 : awaiting s1 = false) by exact Hgate.
    destruct (isWaitingForNFTDetails s).
    + unfold handleNFTDetailsAfterUpload.
      destruct (uploadedImage s1) as [[url file] |]; [| congruence].
      destruct (parseNFTDetails _) as [name description | prompt];
        [| rewrite (awaiting_same s1) by reflexivity; congruence].
      destruct (is_empty name); [rewrite (awaiting_same s1) by reflexivity; congruence |].
      destruct (composer env _) as [text | e] eqn:Ec;
        [| rewrite (awaiting_same s1) by reflexivity; congruence].
      intros _. eexists _, text. split; [reflexivity |].
      split; [reflexivity | split; [reflexivity | split; [exact Ec |]]].
      unfold last_content. cbn. by rewrite last_snoc.
    + set (s2 := log _ (setProcessing true s1)).
      set (result := processUserInput _ _).
      destruct (handleAIResult env result s2) as [s3 | e] eqn:E; cbn [try_catch];
        [| rewrite (awaiting_same s1) by reflexivity; congruence].
      unfold handleAIResult in E.
      apply bind_Normal in E as (upload & _ & E). destruct upload.
      * apply bind_Normal in E as (details & _ & E).
        apply bind_Normal in E as (s4 & E4 & E). injection E as <-.
        assert (pendingAction (store s4) = pendingAction (store s1)) as Hp.
        { destruct (truthy details).
          - apply bind_Normal in E4 as (name & _ & E4).
            apply bind_Normal in E4 as (description & _ & E4). by injection E4 as <-.
          - by injection E4 as <-. }
        rewrite (awaiting_same s1) by exact Hp. congruence.
      * apply bind_Normal in E as (confirm & Hc & E). destruct confirm.
        2: { injection E as <-. rewrite (awaiting_same s1) by reflexivity. congruence. }
        destruct (composer env (action result)) as [text | e] eqn:Ec; injection E as <-.
        2: { rewrite (awaiting_same s1) by reflexivity. congruence. }
        intros _. eexists _, text. split; [reflexivity |].
        split; [reflexivity | split; [| split; [exact Ec |]]].
        -- cbn [pa_action]. unfold needs_confirmation in Hc.
           destruct (truthy (action result)) eqn:Et; [| by injection Hc].
           rewrite (truthy_reads _ _ Et), bind_ret in Hc. injection Hc as Hc.
           by apply andb_true_iff in Hc as [-> _].
        -- unfold last_content. cbn. by rewrite last_snoc.
  - intros url fileName Hgate. unfold handleUploadComplete.
    destruct (pendingNFTDetails s) as [[n d] |];
      [| rewrite (awaiting_same s) by reflexivity; congruence].
    destruct (truthy n || truthy d);
      [| rewrite (awaiting_same s) by reflexivity; congruence].
    destruct (composer env _) as [text | e] eqn:Ec;
      [| rewrite (awaiting_same s) by reflexivity; congruence].
    intros _. eexists _, text. split; [reflexivity |].
    split; [reflexivity | split; [reflexivity | split; [exact Ec |]]].
    unfold last_content. cbn. by rewrite last_snoc.
Qed.

End SessionLaws.

Section SessionExamples.
Import JSString JS GeminiAI ConversationStore AIChat Spec Scenario ChatLoop.
#[local] Existing Instance Scenario.ascii_engine.
Local Open Scope list_scope.

(** A no-break space, a line break and an ideographic space sent from the
    fresh session: nothing happens. *)
Lemma X1_blank_input_ignored_witness :
  let s := setInputValue (utf8 0xA0 +:+ String newline (utf8 0x3000))
             (initial_session chatty) in
  handleSendMessage chatty s = s.
Proof.
  cbv zeta. apply X1_blank_input_ignored. left. vm_compute. reflexivity.
Defined.

(** "Dawn", typed after the upload: the message is recorded, and the
    assistant answers with the request to confirm. *)
Lemma X2_turn_appends_witness :
  exists m replies,
    messages (store awaiting_mint) = messages (store after_upload) ++ m :: replies
    /\ msg_content m = VStr "Dawn" /\ replies <> [].
Proof.
  destruct (X2_turn_appends chatty (setInputValue "Dawn" after_upload))
    as (m & replies & Hm & _ & Hc & _ & Hr);
    [vm_compute; reflexivity | vm_compute; reflexivity |].
  exists m, replies. split; [exact Hm | split; [exact Hc |]].
  apply Hr. right. right. vm_compute. discriminate.
Defined.

End SessionExamples.

(** ** Persistence beyond the round trip *)

Section PersistenceLaws.
Import JSString JS JSDate ConversationStore AIChat Spec Scenario.
Local Open Scope list_scope.

Lemma slice_last_length {A} n (xs : list A) :
  length (slice_last n xs) = Nat.min n (length xs).
Proof. unfold slice_last. rewrite length_drop. lia. Qed.

Lemma slice_last_idem {A} n (xs : list A) :
  slice_last n (slice_last n xs) = slice_last n xs.
Proof. apply slice_last_short. rewrite slice_last_length. lia. Qed.

Lemma store_messages_length ms : forall stored,
  store_messages ms = Normal stored -> length stored = length ms.
Proof.
  induction ms as [| m ms IH]; intros stored H; simpl in H.
  - by injection H as <-.
  - apply bind_Normal in H as (sm & _ & H).
    apply bind_Normal in H as (rest & Hr & H). injection H as <-.
    simpl. by rewrite (IH rest Hr).
Qed.

(** X6: of a conversation of any length whose last fifty messages carry
    valid dates, [partialize] stores the last fifty messages (all of
    them, when there are no more than fifty), and [merge] restores
    exactly these, in order; the older ones are dropped, and the pending
    action and the processing flag are not taken from storage. *)
Theorem X6_persistence_keeps_last_fifty (st current : ConversationState) :
  forallb has_valid_date (slice_last 50 (messages st)) = true ->
  exists stored older,
    partialize st = Normal stored
    /\ messages st = older ++ messages (merge (Some stored) current)
    /\ length (messages (merge (Some stored) current))
       = Nat.min 50 (length (messages st))
    /\ pendingAction (merge (Some stored) current) = pendingAction current
    /\ isProcessing (merge (Some stored) current) = isProcessing current.
Proof.
  intros Hvalid. unfold partialize.
  destruct (restore_store_messages _ Hvalid) as (stored & Es & Er & _).
  exists stored, (take (length (messages st) - 50) (messages st)).
  cbn [merge messages pendingAction isProcessing]. rewrite Er.
  split; [exact Es | split; [| split; [apply slice_last_length | done]]].
  unfold slice_last. by rewrite take_drop.
Qed.

(** Sixty messages: fifty are stored and restored. *)
Lemma X6_persistence_keeps_last_fifty_witness :
  exists stored,
    partialize {| messages := replicate 60 (welcome_message chatty 0);
                  pendingAction := None; isProcessing := false |} = Normal stored
    /\ length (messages (merge (Some stored) (initial_state chatty))) = 50.
Proof.
  destruct (X6_persistence_keeps_last_fifty
              {| messages := replicate 60 (welcome_message chatty 0);
                 pendingAction := None; isProcessing := false |}
              (initial_state chatty))
    as (stored & older & Hp & _ & Hl & _); [vm_compute; reflexivity |].
  exists stored. split; [exact Hp | exact Hl].
Defined.

Lemma store_messages_cases ms :
  (exists stored, store_messages ms = Normal stored)
  \/ store_messages ms = throw_error "RangeError: Invalid time value".
Proof.
  induction ms as [| m ms IH]; [left; by eexists |].
  cbn [store_messages]. unfold store_message.
  destruct (msg_timestamp m) as [t |]; [| by right].
  cbn [Date_toISOString]. rewrite !bind_ret.
  destruct IH as [(stored & ->) | ->]; [left | by right].
  rewrite bind_ret. by eexists.
Qed.

Lemma store_messages_Normal ms :
  (exists stored, store_messages ms = Normal stored)
  <-> (forall m, In m ms -> msg_timestamp m <> InvalidDate).
Proof.
  induction ms as [| m ms IH].
  - split; [intros _ m [] | intros _; by eexists].
  - cbn [store_messages]. unfold store_message. split.
    + intros (stored & H) m' [<- | Hin].
      * destruct (msg_timestamp m); [discriminate | discriminate].
      * destruct (msg_timestamp m) as [t |]; [| discriminate].
        cbn [Date_toISOString] in H. rewrite !bind_ret in H.
        apply bind_Normal in H as (rest & Hr & _).
        apply IH; [by eexists | exact Hin].
    + intros H. destruct (msg_timestamp m) as [t |] eqn:E.
      * cbn [Date_toISOString]. rewrite !bind_ret.
        destruct (proj2 IH) as (rest & ->); [intros m' Hin; apply H; by right |].
        rewrite bind_ret. by eexists.
      * exfalso. apply (H m); [by left | exact E].
Qed.

Lemma store_messages_Throw ms : forall e,
  store_messages ms = Throw e ->
  exists m, In m ms /\ msg_timestamp m = InvalidDate.
Proof.
  induction ms as [| m ms IH]; intros e; [discriminate |].
  cbn [store_messages]. unfold store_message.
  destruct (msg_timestamp m) as [t |] eqn:E.
  - cbn [Date_toISOString]. rewrite !bind_ret.
    destruct (store_messages ms) as [rest | e'] eqn:Er; [discriminate |].
    intros _. destruct (IH e' eq_refl) as (m' & Hin & Hm). exists m'. split; [by right | exact Hm].
  - intros _. exists m. split; [by left | exact E].
Qed.

(** X7: [partialize] either stores the last fifty messages or throws
    the [RangeError] of [toISOString]; it throws exactly when one of the
    last fifty messages carries the invalid date, whatever the other
    messages are, and then nothing of the conversation is stored. *)
Theorem X7_partialize_invalid_date (st : ConversationState) :
  ((exists stored, partialize st = Normal stored)
   <-> (forall m, In m (slice_last 50 (messages st)) ->
        msg_timestamp m <> InvalidDate))
  /\ (partialize st = throw_error "RangeError: Invalid time value"
      <-> (exists m, In m (slice_last 50 (messages st))
                     /\ msg_timestamp m = InvalidDate)).
Proof.
  unfold partialize. set (ms := slice_last 50 (messages st)).
  split; [apply store_messages_Normal |].
  split.
  - intros H. by apply store_messages_Throw in H.
  - intros (m & Hin & Hm).
    destruct (store_messages_cases ms) as [Hs | Hs]; [| exact Hs].
    exfalso. apply (proj1 (store_messages_Normal ms) Hs m Hin Hm).
Qed.

(** X8: what was loaded is written back as it was: when [partialize]
    stored a conversation with valid dates, [partialize] on the state
    that [merge] restores from it stores the same list again. *)
Theorem X8_store_after_restore (st current : ConversationState)
    (stored : list StoredMessage) :
  forallb has_valid_date (slice_last 50 (messages st)) = true ->
  partialize st = Normal stored ->
  partialize (merge (Some stored) current) = Normal stored.
Proof.
  intros Hvalid Hs. unfold partialize in *.
  destruct (restore_store_messages _ Hvalid) as (stored' & Es & Er & _).
  rewrite Es in Hs. injection Hs as <-.
  cbn [merge messages]. rewrite Er, slice_last_idem. exact Es.
Qed.

(** The sample session, stored, restored into a fresh store and stored
    again. *)
Lemma X8_store_after_restore_witness :
  exists stored,
    partialize (store awaiting_mint) = Normal stored
    /\ partialize (merge (Some stored) (initial_state chatty)) = Normal stored.
Proof.
  destruct (partialize (store awaiting_mint)) as [stored | e] eqn:E;
    [| vm_compute in E; discriminate].
  exists stored. split; [reflexivity |].
  apply (X8_store_after_restore (store awaiting_mint) (initial_state chatty) stored);
    [vm_compute; reflexivity | exact E].
Defined.

End PersistenceLaws.

(** ** The defaulting engine and the parse boundary on every input *)

Section GeminiLaws.
Import JSString Regex JS GeminiAI Spec Scenario Words.
Context `{engine : Engine}.

Lemma upper_char_not_lower c : is_lower (upper_char c) = false.
Proof. by destruct c as [[] [] [] [] [] [] [] []]. Qed.

Lemma shouts_map_upper s : shouts (map_chars upper_char s) = true.
Proof.
  unfold shouts. induction s as [| c s IH]; [reflexivity |].
  cbn [map_chars list_ascii_of_string forallb].
  by rewrite upper_char_not_lower, IH.
Qed.

Lemma shouts_toUpperCase s :
  (forall s, shouts (upper_case s) = true) -> shouts (toUpperCase s) = true.
Proof.
  intros Hup. unfold toUpperCase. destruct (is_ascii s); [apply shouts_map_upper | apply Hup].
Qed.

Lemma not_lower_beyond n : (128 <= n < 256)%N -> is_lower (chr n) = false.
Proof.
  intros Hn. unfold is_lower. cbv zeta. rewrite code_chr by lia.
  destruct (Nat.leb_spec (N.to_nat n) 122); [lia |]. by rewrite andb_false_r.
Qed.

Lemma shouts_three_bytes n : shouts (three_bytes n) = true.
Proof.
  unfold shouts, three_bytes. cbn [list_ascii_of_string forallb].
  assert (H16 : ((n / 4096) mod 16 < 16)%N) by (apply N.mod_lt; lia).
  assert (H64 : ((n / 64) mod 64 < 64)%N) by (apply N.mod_lt; lia).
  assert (H64' : (n mod 64 < 64)%N) by (apply N.mod_lt; lia).
  revert H16 H64 H64'.
  generalize ((n / 4096) mod 16)%N, ((n / 64) mod 64)%N, (n mod 64)%N.
  intros a b c Ha Hb Hc.
  rewrite (not_lower_beyond (224 + a)), (not_lower_beyond (128 + b)),
    (not_lower_beyond (128 + c)) by lia.
  reflexivity.
Qed.

Lemma shouts_substring0 s : forall n,
  shouts s = true -> shouts (substring0 n s) = true.
Proof.
  induction s as [| c s IH]; intros n Hs; [reflexivity |].
  assert (Hc : negb (is_lower c) = true /\ shouts s = true).
  { unfold shouts in *. cbn [list_ascii_of_string forallb] in Hs.
    by apply andb_true_iff in Hs. }
  destruct Hc as [Hc Hs'].
  assert (Hcons : forall t, shouts t = true -> shouts (String c t) = true).
  { intros t Ht. unfold shouts in *. cbn [list_ascii_of_string forallb].
    by rewrite Hc, Ht. }
  cbn [substring0]. destruct (units c) as [| [| k]].
  - by apply Hcons, IH.
  - destruct n; [reflexivity | by apply Hcons, IH].
  - destruct n as [| [| n]]; [reflexivity | apply shouts_three_bytes | by apply Hcons, IH].
Qed.

Lemma shouts_app s1 s2 :
  shouts s1 = true -> shouts s2 = true -> shouts (s1 +:+ s2) = true.
Proof.
  unfold shouts. induction s1 as [| c s1 IH]; [done |].
  change (String c s1 +:+ s2) with (String c (s1 +:+ s2)).
  cbn [list_ascii_of_string forallb]. intros H H2.
  apply andb_true_iff in H as [-> H]. by apply IH.
Qed.

Lemma shouts_concat (l : list string) :
  Forall (fun w => shouts w = true) l -> shouts (String.concat "" l) = true.
Proof.
  induction 1 as [| w l Hw Hl IH]; [reflexivity |].
  destruct l as [| w' l']; [exact Hw |].
  change (String.concat "" (w :: w' :: l'))
    with (w +:+ "" +:+ String.concat "" (w' :: l')).
  apply shouts_app; [exact Hw |]. by apply shouts_app.
Qed.

Lemma substring0_nonempty n s : s <> "" -> substring0 (S n) s <> "".
Proof.
  destruct s as [| c s]; [done |]. intros _. cbn [substring0].
  destruct (units c) as [| [| k]]; [done | done |].
  destruct n; [| done]. unfold high_surrogate, three_bytes. done.
Qed.

Lemma toUpperCase_nonempty s :
  (forall s, s <> "" -> upper_case s <> "") -> s <> "" -> toUpperCase s <> "".
Proof.
  intros Hup Hs. unfold toUpperCase. destruct (is_ascii s); [| by apply Hup].
  by destruct s.
Qed.

Lemma app_nonempty (s1 s2 : string) : s1 <> "" -> s1 +:+ s2 <> "".
Proof. by destruct s1. Qed.

(** X9: whatever the name and whatever the tables of the engine, the
    symbol [generateTokenSymbol] makes of it has at most four UTF-16 code
    units; it is not empty, if upper-casing never empties a string; and
    it holds none of the letters a to z, if upper-casing leaves none. *)
Theorem X9_symbol_shape (tokenName : string) :
  js_length (generateTokenSymbol tokenName) <= 4
  /\ ((forall s, s <> "" -> upper_case s <> "") ->
      generateTokenSymbol tokenName <> "")
  /\ ((forall s, shouts (upper_case s) = true) ->
      shouts (generateTokenSymbol tokenName) = true).
Proof.
  split; [apply symbol_at_most_four |].
  pose proof (symbol_words_nonempty tokenName) as Hne.
  unfold generateTokenSymbol.
  destruct (symbol_words tokenName) as [| w1 [| w2 [| w3 ws]]].
  - split; [done | reflexivity].
  - assert (H1 : w1 <> "").
    { specialize (Hne w1 (or_introl eq_refl)). by destruct w1. }
    cbv zeta. split.
    + intros Hup. pose proof (toUpperCase_nonempty w1 Hup H1) as Hw.
      destruct (4 <? js_length (toUpperCase w1))%nat;
        [by apply substring0_nonempty | exact Hw].
    + intros Hup. pose proof (shouts_toUpperCase w1 Hup) as Hw.
      destruct (4 <? js_length (toUpperCase w1))%nat;
        [by apply shouts_substring0 | exact Hw].
  - assert (H1 : w1 <> "").
    { specialize (Hne w1 (or_introl eq_refl)). by destruct w1. }
    cbv zeta. split.
    + intros Hup. apply substring0_nonempty, app_nonempty, substring0_nonempty.
      by apply toUpperCase_nonempty.
    + intros Hup.
      apply shouts_substring0, shouts_app; by apply shouts_substring0, shouts_toUpperCase.
  - assert (H1 : w1 <> "").
    { specialize (Hne w1 (or_introl eq_refl)). by destruct w1. }
    cbv zeta. set (acronym := substring0 4 _). split.
    + intros Hup.
      assert (Ha : acronym <> "").
      { subst acronym. apply substring0_nonempty. cbn [map].
        change (String.concat "" (?x :: ?l)) with (x +:+ "" +:+ String.concat "" l).
        apply app_nonempty, toUpperCase_nonempty; [exact Hup |].
        by apply substring0_nonempty. }
      destruct (js_length acronym <? 3)%nat; [by apply app_nonempty | exact Ha].
    + intros Hup.
      assert (Ha : shouts acronym = true).
      { apply shouts_substring0, shouts_concat, Forall_map, Forall_forall.
        intros w _. by apply shouts_toUpperCase. }
      destruct (js_length acronym <? 3)%nat; [by apply shouts_app | exact Ha].
Qed.

(** X10: the reply [processUserInput] returns is empty only if the text
    of the oracle is: when the oracle throws the reply is the apology,
    and when it answers with a text that is not empty the reply is a
    truthy value, either [response] of the fenced object or the whole
    text. *)
Theorem X10_reply_not_blank (JSON_parse : string -> option value) :
  (forall e, response (processUserInput JSON_parse (Throw e)) = VStr apology)
  /\ (forall text,
        text <> "" ->
        truthy (response (processUserInput JSON_parse (Normal text))) = true)
  /\ response (processUserInput JSON_parse (Normal "")) = VStr "".
Proof.
  split; [reflexivity | split; [| reflexivity]].
  intros text Hne.
  change (processUserInput JSON_parse (Normal text)) with (parseAIResponse JSON_parse text).
  assert (Ht : truthy (VStr text) = true) by (by destruct text).
  destruct (parseAIResponse_cases JSON_parse text)
    as [-> | (body & pj0 & pj3 & _ & _ & _ & ->)]; [exact Ht |].
  unfold result_of, or_else. cbn [response].
  destruct (truthy (field pj3 "response")) eqn:E; [exact E | exact Ht].
Qed.

End GeminiLaws.

Section GeminiExamples.
Import JSString Regex JS GeminiAI Spec Scenario Words.
#[local] Existing Instance Scenario.ascii_engine.

(** With an engine that knows the letters of ASCII only, "Dragon Quest
    Token" gets a symbol of capitals that is not empty. *)
Lemma X9_symbol_shape_witness :
  generateTokenSymbol "Dragon Quest Token" <> ""
  /\ shouts (generateTokenSymbol "Dragon Quest Token") = true.
Proof.
  destruct (X9_symbol_shape "Dragon Quest Token") as (_ & Hfull & Hshouts).
  split.
  - apply Hfull. intros s Hs. by destruct s.
  - apply Hshouts. apply shouts_map_upper.
Defined.

End GeminiExamples.

(** ** The price service *)

Section PriceLaws.
Import JSString JS PriceService.
Local Open Scope list_scope.

(** A price that passes the validation is positive (it may be infinite). *)
Lemma valid_price_positive x : invalid_price x = false -> PrimFloat.ltb 0 x = true.
Proof.
  unfold invalid_price, truthy. intros H.
  apply orb_false_iff in H as [H Hle].
  apply orb_false_iff in H as [_ Hn].
  rewrite FloatAxioms.leb_spec in Hle. rewrite FloatAxioms.ltb_spec.
  unfold PrimFloat.is_nan in Hn. rewrite FloatAxioms.eqb_spec in Hn.
  replace (Prim2SF 0) with (SpecFloat.S754_zero false) in * by reflexivity.
  destruct (Prim2SF x) as [[] | [] | | [] m e]; simpl in *;
    try discriminate; reflexivity.
Qed.

Lemma attempt_valid net name d :
  attempt net name = Normal d -> invalid_price (price d) = false.
Proof.
  unfold attempt. intros H. apply bind_Normal in H as (d' & _ & H).
  destruct (invalid_price (price d')) eqn:E; [discriminate |]. by injection H as <-.
Qed.

Lemma fetchPriceFrom_valid net sources : forall errors d contacted,
  fetchPriceFrom net sources errors = (Normal d, contacted) ->
  invalid_price (price d) = false.
Proof.
  induction sources as [| name sources IH]; intros errors d contacted H;
    cbn [fetchPriceFrom] in H; [discriminate |].
  destruct (attempt net name) as [d' | e] eqn:E.
  - injection H as <- _. by apply attempt_valid in E.
  - destruct (fetchPriceFrom net sources _) as [outcome c] eqn:E'.
    injection H as -> _. by apply IH in E'.
Qed.

Lemma fresh_cached net st c read :
  fresh net st = (Some c, read) -> cachedPrice st = Some c.
Proof.
  unfold fresh. destruct (cachedPrice st) as [c' |]; [| discriminate].
  destruct (_ <? _)%Z; [| discriminate]. by intros [= ->].
Qed.

Lemma getBNBPrice_sound net st r st' contacted :
  sound st -> getBNBPrice net st = (r, st', contacted) ->
  invalid_price (price r) = false /\ sound st'.
Proof.
  unfold getBNBPrice, sound. intros Hs H.
  destruct (fresh net st) as [[c |] read] eqn:Ef.
  - injection H as <- <- _. apply fresh_cached in Ef. cbn [cachedPrice].
    rewrite Ef in Hs |- *. done.
  - unfold fetchPriceFromSources in H.
    destruct (fetchPriceFrom net priceSources []) as [[d | e] c] eqn:E;
      injection H as <- <- _; cbn [cachedPrice price].
    + apply fetchPriceFrom_valid in E. done.
    + split; [reflexivity | exact Hs].
Qed.

Lemma perform_sound net c st r st' :
  sound st -> perform net c st = (r, st') ->
  match r with Some d => invalid_price (price d) = false | None => True end
  /\ sound st'.
Proof.
  intros Hs H. destruct c; cbn [perform] in H.
  - destruct (getBNBPrice net st) as [[r0 st0] c0] eqn:E. injection H as <- <-.
    by apply getBNBPrice_sound in E.
  - unfold refreshPrice in H.
    destruct (getBNBPrice net _) as [[r0 st0] c0] eqn:E. injection H as <- <-.
    by apply getBNBPrice_sound in E.
  - unfold getCachedPrice in H.
    destruct (fresh net st) as [hit read] eqn:Ef. injection H as <- <-.
    split; [| exact Hs]. destruct hit as [d |]; [| done].
    apply fresh_cached in Ef. unfold sound in Hs. by rewrite Ef in Hs.
Qed.

Lemma results_sound calls : forall st,
  sound st ->
  Forall (fun r => match r with
                   | Some d => PrimFloat.ltb 0 (price d) = true
                   | None => True
                   end) (results calls st).
Proof.
  induction calls as [| [net c] calls IH]; intros st Hs; cbn [results]; [constructor |].
  destruct (perform net c st) as [r st'] eqn:E.
  destruct (perform_sound net c st r st' Hs E) as [Hr Hs'].
  constructor; [| by apply IH].
  destruct r; [by apply valid_price_positive | done].
Qed.

(** X11: whatever a client calls, in whatever order, and whatever the
    network answers ([getBNBPrice], [refreshPrice], [getCachedPrice],
    from the start of the program), every price the service hands out is
    a number greater than zero, never zero, negative or [NaN]: a price
    from a source has passed the validation, and the fall-back is 600. *)
Theorem X11_price_positive (calls : list (Net * call)) :
  Forall (fun r => match r with
                   | Some d => PrimFloat.ltb 0 (price d) = true
                   | None => True
                   end) (results calls initial).
Proof. apply results_sound. exact I. Qed.

(** *** The order of the sources *)

Lemma fetchPriceFrom_first net name data : forall before after errors,
  Forall (fun n => exists e, attempt net n = Throw e) before ->
  attempt net name = Normal data ->
  fetchPriceFrom net (before ++ name :: after) errors = (Normal data, before ++ [name]).
Proof.
  induction before as [| n before IH]; intros after errors Hb Hn; cbn [app fetchPriceFrom].
  - by rewrite Hn.
  - apply Forall_cons in Hb as [(e & ->) Hb]. by rewrite IH.
Qed.

Lemma fetchPriceFrom_none net : forall sources errors,
  Forall (fun n => exists e, attempt net n = Throw e) sources ->
  exists e, fetchPriceFrom net sources errors = (Throw e, sources).
Proof.
  induction sources as [| n sources IH]; intros errors Hs; cbn [fetchPriceFrom].
  - by eexists.
  - apply Forall_cons in Hs as [(e & ->) Hs].
    destruct (IH (errors ++ [source_error n e]) Hs) as (e' & ->). by eexists.
Qed.

(** X12: when no fresh price is cached, [getBNBPrice] asks the sources
    in the order CoinGecko, CoinCap, Binance and stops at the first whose
    answer passes the validation: its price is returned and cached with
    the time of the clock, and the sources after it are not contacted.
    When every source fails, all three have been contacted, the result
    is the fall-back price of 600, and the cache is left as it was: the
    fall-back is not cached, and an expired price is not returned. *)
Theorem X12_sources_in_order (net : Net) (st : State) :
  fst (fresh net st) = None ->
  let k := clock st + snd (fresh net st) in
  (forall before name after data,
     priceSources = before ++ name :: after ->
     Forall (fun n => exists e, attempt net n = Throw e) before ->
     attempt net name = Normal data ->
     let cached := {| price := price data; change24h := change24h data;
                      lastUpdated := now net k; source := source data |} in
     getBNBPrice net st
     = (cached, {| cachedPrice := Some cached; clock := S k |}, before ++ [name]))
  /\ (Forall (fun n => exists e, attempt net n = Throw e) priceSources ->
      getBNBPrice net st
      = (fallbackPrice (now net k),
         {| cachedPrice := cachedPrice st; clock := S k |}, priceSources)).
Proof.
  intros Hf k. subst k. unfold getBNBPrice, fetchPriceFromSources.
  destruct (fresh net st) as [hit read]. cbn [fst snd] in *. subst hit. split.
  - intros before name after data Hsrc Hb Hn. cbv zeta.
    by rewrite Hsrc, (fetchPriceFrom_first net name data before after [] Hb Hn).
  - intros Hall. by destruct (fetchPriceFrom_none net priceSources [] Hall) as (e & ->).
Qed.

(** From the start, with CoinGecko down and a price of zero at CoinCap:
    the three sources are asked and the price of Binance is cached; with
    no source in reach the answer is the fall-back and nothing is
    cached. *)
Lemma X12_sources_in_order_witness :
  getBNBPrice Examples.flaky initial
  = ({| price := 612.5; change24h := 1.25; lastUpdated := 1762041600000;
        source := "Binance" |},
     {| cachedPrice :=
          Some {| price := 612.5; change24h := 1.25; lastUpdated := 1762041600000;
                  source := "Binance" |};
        clock := 1 |},
     ["CoinGecko"; "CoinCap"; "Binance"])
  /\ getBNBPrice Examples.offline initial
     = (fallbackPrice 1762041600000, {| cachedPrice := None; clock := 1 |},
        ["CoinGecko"; "CoinCap"; "Binance"]).
Proof.
  split.
  - apply (proj1 (X12_sources_in_order Examples.flaky initial eq_refl)
             ["CoinGecko"; "CoinCap"] "Binance" []
             (Examples.quote "Binance" 612.5) eq_refl);
      [repeat constructor; eexists; reflexivity | reflexivity].
  - apply (proj2 (X12_sources_in_order Examples.offline initial eq_refl)).
    repeat constructor; eexists; reflexivity.
Defined.

(** X13: a price taken from a source is served from the cache for five
    minutes: a second call whose reading of the clock is less than
    300000 ms after the caching returns the same record and contacts no
    source, whatever the network would answer by then. *)
Theorem X13_cache_for_five_minutes (net net' : Net) (st : State)
    (data : PriceData) (contacted : list string) :
  fst (fresh net st) = None ->
  fetchPriceFromSources net = (Normal data, contacted) ->
  let k := clock st + snd (fresh net st) in
  (now net' (S k) - now net k < cacheExpiry)%Z ->
  let '(r, st1, _) := getBNBPrice net st in
  getBNBPrice net' st1 = (r, {| cachedPrice := Some r; clock := S (S k) |}, []).
Proof.
  intros Hf Hd k Hlt. subst k. unfold getBNBPrice at 1.
  destruct (fresh net st) as [hit read]. cbn [fst snd] in *. subst hit.
  rewrite Hd. unfold getBNBPrice, fresh. cbn [cachedPrice clock lastUpdated].
  apply Z.ltb_lt in Hlt. rewrite Hlt. by rewrite Nat.add_1_r.
Qed.

(** The price of Binance, cached at the first reading of the clock, is
    served four minutes later though no source can be reached. *)
Lemma X13_cache_for_five_minutes_witness :
  let cached := {| price := 612.5; change24h := 1.25; lastUpdated := 1762041600000;
                   source := "Binance" |} in
  getBNBPrice Examples.offline {| cachedPrice := Some cached; clock := 1 |}
  = (cached, {| cachedPrice := Some cached; clock := 2 |}, []).
Proof.
  exact (X13_cache_for_five_minutes Examples.flaky Examples.offline initial
           (Examples.quote "Binance" 612.5) ["CoinGecko"; "CoinCap"; "Binance"]
           eq_refl eq_refl eq_refl).
Defined.

End PriceLaws.

(** ** The transfer on the chain *)

Section TransferLaws.
Import JSString JS ConversationStore Spec BlockchainService Transfer.
Local Open Scope list_scope.
Variable chain : Chain.

Lemma bind_pure_Normal {A B} (a : A) (f : A -> outcome B) :
  mbind f (pure (Normal a)) = f a.
Proof. unfold mbind, outcome_bind, andThen, pure. by destruct (f a). Qed.

Lemma bind_pure_Throw {A B} (e : js_error) (f : A -> outcome B) :
  mbind f (pure (Throw e)) = Outcome [] (Throw e).
Proof. reflexivity. Qed.

Lemma field_of v key x : getProp v key = Normal x -> field v key = x.
Proof. unfold field. by intros ->. Qed.

Lemma ends_after_call w : ends_after chain (call w (returned chain w)) w Normal.
Proof.
  split; [reflexivity |]. split.
  - by intros tx ->.
  - intros e ->. by eexists.
Qed.

Lemma sendBNB_cases details key address balance :
  of_BNB details = true ->
  new_Wallet chain key = Normal address ->
  getBalance chain address = Normal balance ->
  let o := sendBNB chain (field details "recipient")
             (shown chain (field details "amount")) balance in
  stops o \/ exists w, backed chain details key w /\ ends_after chain o w Normal.
Proof.
  intros Hb Hw Hbal o. subst o. unfold sendBNB.
  destruct (parseEther chain _) as [valueToSend | e] eqn:Ev;
    [rewrite bind_pure_Normal | left; split; [reflexivity | by eexists]].
  destruct (getFeeData_gasPrice chain) as [g | e] eqn:Eg;
    [rewrite bind_pure_Normal | left; split; [reflexivity | by eexists]].
  cbv zeta. destruct (Z.ltb_spec balance (valueToSend + 21000 * gasPrice_or_gwei g)).
  - left. split; [reflexivity | by eexists].
  - right.
    exists (SendBNB (field details "recipient") valueToSend 21000). split.
    + exists address, balance, g. repeat split; assumption.
    + apply ends_after_call.
Qed.

Lemma sendToken_cases details key address balance :
  of_BNB details = false ->
  new_Wallet chain key = Normal address ->
  getBalance chain address = Normal balance ->
  let o := sendToken chain (field details "token") (field details "recipient")
             (shown chain (field details "amount")) address balance in
  stops o \/ exists w, backed chain details key w /\ ends_after chain o w Normal.
Proof.
  intros Hb Hw Hbal o. subst o. unfold sendToken.
  destruct (isAddress chain (field details "token")) eqn:Ht; cbn [negb];
    [| left; split; [reflexivity | by eexists]].
  unfold sendToken_body.
  destruct (token_info chain _) as [info | e] eqn:Ei;
    [rewrite bind_pure_Normal | left; split; [reflexivity | by eexists]].
  destruct (token_balanceOf chain _ _) as [tokenBalance | e] eqn:Etb;
    [rewrite bind_pure_Normal | left; split; [reflexivity | by eexists]].
  destruct (parseUnits chain _ _) as [amountToSend | e] eqn:Ea;
    [rewrite bind_pure_Normal | left; split; [reflexivity | by eexists]].
  destruct (Z.ltb_spec tokenBalance amountToSend);
    [left; split; [reflexivity | by eexists] |].
  destruct (token_transfer_estimateGas chain _ _ _) as [estimatedGas | e] eqn:Ee;
    [rewrite bind_pure_Normal | left; split; [reflexivity | by eexists]].
  destruct (getFeeData_gasPrice chain) as [g | e] eqn:Eg;
    [rewrite bind_pure_Normal | left; split; [reflexivity | by eexists]].
  cbv zeta. destruct (Z.ltb_spec balance (estimatedGas * gasPrice_or_gwei g));
    [left; split; [reflexivity | by eexists] |].
  right.
  exists (TransferToken (field details "token") (field details "recipient")
            amountToSend (estimatedGas * 120 ÷ 100)). split.
  - exists address, balance, g. do 3 (split; [assumption |]).
    do 4 (split; [done |]).
    exists info, tokenBalance, estimatedGas. repeat split; assumption.
  - unfold ends_after, call, rethrow. cbn [returned].
    destruct (token_transfer chain _ _ _ _) as [tx | e]; cbn [writes completes].
    + split; [reflexivity |]. split; [by intros tx' [= <-] | discriminate].
    + split; [reflexivity |]. split; [discriminate | intros e0 _; by eexists].
Qed.

(** [sendTransaction_body] either throws before any call, or makes the
    one call that the details ask for and that the wallet can pay. *)
Lemma sendTransaction_body_cases details key :
  let o := sendTransaction_body chain details key in
  stops o
  \/ exists w,
       acceptable chain details = true
       /\ backed chain details key w
       /\ ends_after chain o w (fun tx => _ ← tx_wait tx; Normal (sent chain tx)).
Proof.
  intros o. subst o. unfold sendTransaction_body.
  destruct (new_Wallet chain key) as [address | e] eqn:Ew;
    [rewrite bind_pure_Normal | left; split; [reflexivity | by eexists]].
  destruct (getProp details "recipient") as [recipient | e] eqn:Er;
    [rewrite bind_pure_Normal | left; split; [reflexivity | by eexists]].
  destruct (getProp details "amount") as [amount | e] eqn:Ea;
    [rewrite bind_pure_Normal | left; split; [reflexivity | by eexists]].
  apply field_of in Er as Hr. apply field_of in Ea as Ha. subst recipient amount.
  destruct (truthy (field details "recipient")) eqn:Etr; cbn [negb orb];
    [| left; split; [reflexivity | by eexists]].
  destruct (truthy (field details "amount")) eqn:Eta; cbn [negb orb];
    [| left; split; [reflexivity | by eexists]].
  destruct (isAddress chain (field details "recipient")) eqn:Eaddr; cbn [negb];
    [| left; split; [reflexivity | by eexists]].
  destruct (invalid_amount chain (shown chain (field details "amount"))) eqn:Einv;
    [left; split; [reflexivity | by eexists] |].
  destruct (getBalance chain address) as [balance | e] eqn:Eb;
    [rewrite bind_pure_Normal | left; split; [reflexivity | by eexists]].
  assert (Et : getProp details "token" = Normal (field details "token")).
  { unfold field. destruct details; try discriminate; reflexivity. }
  rewrite Et, bind_pure_Normal.
  assert (Hacc : acceptable chain details = true).
  { unfold acceptable. by rewrite Etr, Eta, Eaddr, Einv. }
  fold (of_BNB details).
  assert (Hbranch :
    let o := (if of_BNB details
              then sendBNB chain (field details "recipient")
                     (shown chain (field details "amount")) balance
              else sendToken chain (field details "token") (field details "recipient")
                     (shown chain (field details "amount")) address balance) in
    stops o \/ exists w, backed chain details key w /\ ends_after chain o w Normal).
  { destruct (of_BNB details) eqn:Eof.
    - by apply (sendBNB_cases details key address balance).
    - by apply (sendToken_cases details key address balance). }
  cbv zeta in Hbranch.
  destruct (if of_BNB details then _ else _) as [ws c].
  destruct Hbranch as [[Hws (e & Hc)] | (w & Hback & Hws & Hok & Hbad)];
    cbn [writes completes] in *; subst.
  - left. split; [reflexivity | by eexists].
  - right. exists w. split; [exact Hacc | split; [exact Hback |]].
    destruct (returned chain w) as [tx | e] eqn:Eret.
    + rewrite (Hok tx eq_refl).
      unfold mbind at 1, outcome_bind, andThen.
      destruct (tx_wait tx) as [[] | e] eqn:Ewait.
      * rewrite bind_pure_Normal. split; [reflexivity |]. split.
        -- intros tx' Hr. rewrite Eret in Hr. injection Hr as <-. by rewrite Ewait.
        -- intros e Hr. congruence.
      * rewrite bind_pure_Throw. split; [reflexivity |]. split.
        -- intros tx' Hr. rewrite Eret in Hr. injection Hr as <-. by rewrite Ewait.
        -- intros e' Hr. congruence.
    + destruct (Hbad e eq_refl) as (e' & ->).
      split; [reflexivity |]. split; [intros tx Hr; congruence |].
      intros e0 _. by eexists.
Qed.


(** X15: a call that [sendTransaction] makes on the chain is the only
    one of its run, it is the transfer the details ask for, and the
    wallet can pay for it.  For BNB: to the recipient of the details, of
    [parseEther(amount)], with a gas limit of 21000, the balance being at
    least this amount plus 21000 times the gas price.  For a token: to
    the recipient, on the token of the details, which is an address, of
    [parseUnits(amount, decimals)], no more than the token balance, with
    the estimated gas plus a fifth as the limit, the BNB balance
    covering the estimated gas. *)
Theorem X15_transfer_backed (details : value) (key : string) (w : write) :
  In w (fst (sendTransaction chain details key)) ->
  fst (sendTransaction chain details key) = [w]
  /\ acceptable chain details = true
  /\ backed chain details key w.
Proof.
  unfold sendTransaction.
  destruct (sendTransaction_body_cases details key)
    as [[Hws (e & Hc)] | (w' & Hacc & Hback & Hws & _)];
    destruct (sendTransaction_body chain details key) as [ws [r | e']];
    cbn [writes completes fst] in *; subst; try (intros []; fail);
    (intros [<- | []]; done).
Qed.

(** X16: [sendTransaction] reports a success exactly when it made its
    one call, the call returned a transaction and [tx.wait()] completed;
    the result then carries the hash of that transaction and the link to
    it on the explorer.  (A failure can thus follow a call that was
    made: one that threw, or whose wait did.) *)
Theorem X16_transfer_success (details : value) (key : string) :
  success (snd (sendTransaction chain details key)) = true
  <-> exists w tx,
        fst (sendTransaction chain details key) = [w]
        /\ returned chain w = Normal tx
        /\ tx_wait tx = Normal tt
        /\ snd (sendTransaction chain details key) = sent chain tx.
Proof.
  unfold sendTransaction.
  destruct (sendTransaction_body_cases details key)
    as [[Hws (e & Hc)] | (w & _ & _ & Hws & Hok & Hbad)];
    destruct (sendTransaction_body chain details key) as [ws c];
    cbn [writes completes fst snd] in *; subst.
  - split; [discriminate | by intros (w & tx & [=] & _)].
  - destruct (returned chain w) as [tx | e] eqn:Eret.
    + rewrite (Hok tx eq_refl). destruct (tx_wait tx) as [[] | e] eqn:Ewait.
      * rewrite bind_ret. split; [| reflexivity].
        intros _. exists w, tx. rewrite Eret. auto.
      * split; [discriminate |]. intros (w' & tx' & [= <-] & Hr & Hwait & _).
        rewrite Eret in Hr. injection Hr as <-. congruence.
    + destruct (Hbad e eq_refl) as (e' & ->).
      split; [discriminate |]. intros (w' & tx' & [= <-] & Hr & _). congruence.
Qed.

End TransferLaws.


(** Half a BNB to the address of Bob, from a wallet that holds one:
    the one call sends 5 * 10^17 wei with a gas limit of 21000. *)
Lemma X15_transfer_backed_witness :
  Transfer.backed Examples.testnet (Examples.half_to Examples.bob) "0x4c08"
    (BlockchainService.SendBNB (JS.VStr Examples.bob) (5 * 10 ^ 17) 21000).
Proof.
  assert (Hcall : In (BlockchainService.SendBNB (JS.VStr Examples.bob) (5 * 10 ^ 17) 21000)
                    (fst (Transfer.sendTransaction Examples.testnet
                            (Examples.half_to Examples.bob) "0x4c08")))
    by (vm_compute; left; reflexivity).
  exact (proj2 (proj2 (X15_transfer_backed Examples.testnet
                         (Examples.half_to Examples.bob) "0x4c08" _ Hcall))).
Defined.

(** ** From the upload button to the chat *)

Section UploadLaws.
Import JSString JS ConversationStore AIChat ChatLoop GreenfieldService UploadButton.
Local Open Scope list_scope.

Lemma validateImageFile_valid file : valid (validateImageFile file) = is_image file.
Proof.
  unfold validateImageFile, is_image.
  destruct (array_includes allowedTypes (file_type file)); cbn [negb andb]; [| reflexivity].
  rewrite Z.ltb_antisym. by destruct (file_size file <=? maxSize)%Z.
Qed.

(** X17: an image reaches the chat only through the validation.  When
    [handleFileSelect] reports an uploaded image, the file selected has
    one of the five image types and at most 100 MB (104857600 bytes),
    the wallet holds a key that was decrypted, and the URL reported is
    the data URL read from that file, under the file's own name.  A file
    of another type or a larger one is reported as a failed upload -- the
    type is judged first -- and it is not read, whatever the storage. *)
Theorem X17_only_images_reach_chat (env : Env) (storage : Storage) :
  (forall file link name,
     handleFileSelect env storage file = Raised (Uploaded link name) ->
     exists f w key,
       file = Some f /\ is_image f = true /\ name = file_name f
       /\ wallet env = Some w /\ privateKey w <> ""
       /\ decryptPrivateKey env (privateKey w) = Normal key
       /\ readAsDataURL storage f = Loaded (Some link) /\ link <> "")
  /\ (forall f w storage',
        wallet env = Some w -> privateKey w <> "" -> is_image f = false ->
        handleFileSelect env storage' (Some f)
        = Raised (UploadFailed
                    (if array_includes allowedTypes (file_type f)
                     then too_large else wrong_type))).
Proof.
  split.
  - intros file link name H. unfold handleFileSelect in H.
    destruct file as [f |]; [| discriminate].
    destruct (wallet env) as [w |]; [| discriminate].
    destruct (is_empty (privateKey w)) eqn:Ek; [discriminate |].
    destruct (valid (validateImageFile f)) eqn:Ev; cbn [negb] in H; [| discriminate].
    destruct (decryptPrivateKey env (privateKey w)) as [key | e] eqn:Ed; [| discriminate].
    unfold uploadImage in H.
    destruct (readAsDataURL storage f) as [result |] eqn:Er; [| discriminate].
    cbn [upload_success url andb] in H.
    destruct result as [u |]; cbn [present] in H; [| discriminate].
    destruct (is_empty u) eqn:Eu; cbn [negb] in H; [discriminate |].
    injection H as <- <-.
    exists f, w, key. rewrite <- validateImageFile_valid.
    repeat split; try done; intros E; rewrite E in *; discriminate.
  - intros f w storage' Hw Hk Himg. unfold handleFileSelect.
    rewrite Hw, (is_empty_false _ Hk), validateImageFile_valid, Himg. cbn [negb].
    unfold validateImageFile. unfold is_image in Himg.
    destruct (array_includes allowedTypes (file_type f)); cbn [negb andb] in *;
      [| reflexivity].
    rewrite Z.ltb_antisym, Himg. reflexivity.
Qed.

End UploadLaws.

(** ** The matcher: what it finds is a match, and which one it finds *)

Section MatcherLaws.
Import JSString Regex RegexTheory.
Local Open Scope list_scope.

Lemma run_seq r1 r2 st k :
  run (RSeq r1 r2) st k = run r1 st (fun st1 => run r2 st1 k).
Proof. reflexivity. Qed.

Lemma run_char p pv c cs caps k :
  run (RChar p) (MState pv (c :: cs) caps) k
  = if p c then k (MState (Some c) cs caps) else None.
Proof. reflexivity. Qed.

Lemma run_star lazy r st k :
  run (RStar lazy r) st k = star_loop lazy r (S (length (rest st))) st k.
Proof. reflexivity. Qed.

Lemma star_loop_S lazy r fuel st k :
  star_loop lazy r (S fuel) st k
  = let step st1 :=
      if (length (rest st1) <? length (rest st))%nat
      then star_loop lazy r fuel st1 k else None in
    if lazy then
      match k st with
      | Some res => Some res
      | None => run r st step
      end
    else
      match run r st step with
      | Some res => Some res
      | None => k st
      end.
Proof. reflexivity. Qed.

(** *** Soundness *)

Lemma star_loop_sound lazy r
    (IH : forall st k res, run r st k = Some res ->
            exists st1, matches r st st1 /\ k st1 = Some res) :
  forall fuel st k res,
    star_loop lazy r fuel st k = Some res ->
    exists st1, matches (RStar lazy r) st st1 /\ k st1 = Some res.
Proof.
  induction fuel as [| fuel IHf]; intros st k res H;
    [| rewrite star_loop_S in H; cbv zeta in H].
  - exists st. split; [constructor | exact H].
  - assert (Hstep : forall res',
      run r st (fun st1 => if (length (rest st1) <? length (rest st))%nat
                           then star_loop lazy r fuel st1 k else None) = Some res' ->
      exists st1, matches (RStar lazy r) st st1 /\ k st1 = Some res').
    { intros res' Hr. apply IH in Hr as (st1 & Hm & Hk).
      destruct (length (rest st1) <? length (rest st))%nat; [| discriminate].
      apply IHf in Hk as (st2 & Hm2 & Hk2).
      exists st2. split; [by econstructor | exact Hk2]. }
    destruct lazy.
    + destruct (k st) as [res' |] eqn:Ek.
      * injection H as <-. exists st. split; [constructor | exact Ek].
      * by apply Hstep.
    + destruct (run r st _) as [res' |] eqn:Er.
      * injection H as <-. by apply Hstep.
      * exists st. split; [constructor | exact H].
Qed.

(** Whatever [run] returns, it returns from the continuation, called on
    a state that the pattern can lead to. *)
Lemma run_sound r : forall st k res,
  run r st k = Some res ->
  exists st1, matches r st st1 /\ k st1 = Some res.
Proof.
  induction r as [| p | r1 IH1 r2 IH2 | r1 IH1 r2 IH2 | lazy r IH | i r IH | |];
    intros st k res H.
  - exists st. split; [constructor | exact H].
  - cbn [run] in H. destruct st as [pv [| c cs] caps]; cbn [rest] in H; [discriminate |].
    destruct (p c) eqn:Ep; [| discriminate].
    eexists. split; [by constructor | exact H].
  - cbn [run] in H. apply IH1 in H as (st1 & Hm1 & H).
    apply IH2 in H as (st2 & Hm2 & H).
    exists st2. split; [by econstructor | exact H].
  - cbn [run] in H. destruct (run r1 st k) as [res' |] eqn:E1.
    + injection H as <-. apply IH1 in E1 as (st1 & Hm & Hk).
      exists st1. split; [by apply matches_alt_left | exact Hk].
    + apply IH2 in H as (st1 & Hm & Hk).
      exists st1. split; [by apply matches_alt_right | exact Hk].
  - rewrite run_star in H. by apply (star_loop_sound lazy r IH) in H.
  - cbn [run] in H. apply IH in H as (st1 & Hm & Hk).
    eexists. split; [by constructor | exact Hk].
  - cbn [run] in H. destruct (xorb _ _) eqn:E; [| discriminate].
    exists st. split; [by constructor | exact H].
  - cbn [run] in H. destruct (rest st) eqn:E; [| discriminate].
    exists st. split; [by constructor | exact H].
Qed.

(** A match reads a part of the input and leaves the rest. *)
Lemma matches_reads r st st1 :
  matches r st st1 -> exists w, reads st st1 w.
Proof.
  unfold reads. induction 1 as
    [st | p pv c cs caps Hp | r1 r2 st1 st2 st3 _ [w1 H1] _ [w2 H2]
     | r1 r2 st1 st2 _ IH | r1 r2 st1 st2 _ IH | lazy r st
     | lazy r st1 st2 st3 _ [w1 H1] _ [w2 H2] | i r st1 st2 _ [w H] | st Hb | st He].
  - by exists [].
  - by exists [c].
  - exists (w1 ++ w2). by rewrite H1, H2, app_assoc.
  - exact IH.
  - exact IH.
  - by exists [].
  - exists (w1 ++ w2). by rewrite H1, H2, app_assoc.
  - by exists w.
  - by exists [].
  - by exists [].
Qed.

Lemma consumed_reads st st1 w :
  reads st st1 w -> consumed st st1 = string_of_list_ascii w.
Proof.
  unfold reads, consumed. intros ->. rewrite length_app.
  replace (length w + length (rest st1) - length (rest st1)) with (length w) by lia.
  by rewrite take_app_length.
Qed.

(** *** Literals and classes *)

Lemma matches_lit s : forall st st1,
  matches (lit s) st st1 ->
  reads st st1 (list_ascii_of_string s) /\ caps st1 = caps st.
Proof.
  unfold reads. induction s as [| c s IH]; intros st st1 H; cbn [lit] in H.
  - inversion H; subst. done.
  - inversion H as [| | r1 r2 sta stb stc Hc Hs | | | | | | |]; subst.
    unfold char_is in Hc. inversion Hc as [| p pv x cs caps0 Hx | | | | | | | |]; subst.
    apply Ascii.eqb_eq in Hx as <-.
    apply IH in Hs as [Hr Hcaps]. cbn [rest caps] in *.
    cbn [list_ascii_of_string]. by rewrite Hr.
Qed.

Lemma matches_char_inv p st st1 :
  matches (RChar p) st st1 ->
  exists c, p c = true /\ rest st = c :: rest st1 /\ caps st1 = caps st.
Proof. inversion 1; subst. by eexists. Qed.

Lemma matches_star_class lazy p st st1 :
  matches (RStar lazy (RChar p)) st st1 ->
  exists w, reads st st1 w /\ forallb p w = true /\ caps st1 = caps st.
Proof.
  unfold reads. remember (RStar lazy (RChar p)) as r eqn:Er.
  induction 1 as [| | | | | lz r0 st | lz r0 sta stb stc H1 _ H2 IH2 | | |];
    try discriminate; injection Er as -> ->.
  - by exists [].
  - apply matches_char_inv in H1 as (c & Hc & Hr & Hcaps).
    destruct (IH2 eq_refl) as (w & Hw & Hall & Hcaps2).
    exists (c :: w). cbn [forallb app]. rewrite Hr, Hw, Hc, Hall. split; [done |].
    split; [done | congruence].
Qed.

Lemma matches_plus_class p st st1 :
  matches (plus (RChar p)) st st1 ->
  exists w, reads st st1 w /\ forallb p w = true /\ w <> [] /\ caps st1 = caps st.
Proof.
  unfold plus, reads. inversion 1 as [| | r1 r2 sta stb stc Hc Hs | | | | | | |]; subst.
  apply matches_char_inv in Hc as (c & Hc & Hr & Hcaps).
  apply matches_star_class in Hs as (w & Hw & Hall & Hcaps2). unfold reads in Hw.
  exists (c :: w). cbn [forallb app]. rewrite Hr, Hw, Hc, Hall.
  split; [done | split; [done | split; [done | congruence]]].
Qed.

(** *** Which match is found *)

(** A literal matches where the input starts with it, and only there. *)
Lemma run_lit s : forall pv tail caps k,
  run (lit s) (MState pv (list_ascii_of_string s ++ tail) caps) k
  = k (MState (last_read pv (list_ascii_of_string s)) tail caps).
Proof.
  induction s as [| c s IH]; intros pv tail caps k; [reflexivity |].
  cbn [lit run char_is list_ascii_of_string app rest Regex.caps].
  rewrite Ascii.eqb_refl, IH. f_equal. f_equal.
  unfold last_read. cbn [last]. destruct (list_ascii_of_string s) eqn:E; [done |].
  by rewrite <- E, last_cons; destruct (last (list_ascii_of_string s)).
Qed.

Lemma run_lit_None s st k :
  (forall tail, rest st <> list_ascii_of_string s ++ tail) ->
  run (lit s) st k = None.
Proof.
  intros H. destruct (run (lit s) st k) as [res |] eqn:E; [| reflexivity].
  apply run_lit_prefix in E as (tail & Ht). by apply H in Ht.
Qed.

(** A lazy star of any character stops at the first position where the
    continuation succeeds. *)
Lemma star_loop_lazy_any body : forall fuel st tail k res,
  length body < fuel ->
  rest st = body ++ tail ->
  (forall b1 c b2 pv,
     body = b1 ++ c :: b2 -> k (MState pv (c :: b2 ++ tail) (caps st)) = None) ->
  k (MState (last_read (prev st) body) tail (caps st)) = Some res ->
  star_loop true any_char fuel st k = Some res.
Proof.
  induction body as [| c body IH]; intros fuel st tail k res Hf Hr Hin Hk;
    (destruct fuel as [| fuel]; [simpl in Hf; lia |]); rewrite star_loop_S; cbv zeta.
  - destruct st as [pv rs caps]. cbn [rest prev Regex.caps app last_read last] in *.
    subst rs. by rewrite Hk.
  - destruct st as [pv rs caps]. cbn [rest prev Regex.caps app] in *. subst rs.
    rewrite (Hin [] c body pv eq_refl).
    cbn [run any_char rest Regex.caps length].
    rewrite (proj2 (Nat.ltb_lt _ _)) by lia.
    apply (IH fuel _ tail); cbn [rest prev Regex.caps].
    + simpl in Hf. lia.
    + reflexivity.
    + intros b1 c' b2 pv' Hb. apply (Hin (c :: b1) c' b2 pv'). by rewrite Hb.
    + unfold last_read in *. rewrite last_cons in Hk.
      by destruct (last body).
Qed.

(** A pattern that starts with a literal matches only where the input
    starts with the literal: the search runs over the other positions. *)
Lemma search_skip s r : forall before pv tail idx,
  (forall b1 b2 tl, before = b1 ++ b2 -> b2 <> [] ->
     b2 ++ tail <> list_ascii_of_string s ++ tl) ->
  search (RSeq (lit s) r) pv (before ++ tail) idx
  = search (RSeq (lit s) r) (last_read pv before) tail (idx + length before).
Proof.
  induction before as [| c before IH]; intros pv tail idx H.
  - cbn [app length last_read last]. by rewrite Nat.add_0_r.
  - cbn [app search]. unfold match_here. cbn [run].
    rewrite run_lit_None.
    2: { intros tl. cbn [rest]. apply (H [] (c :: before) tl); done. }
    rewrite IH.
    + cbn [length]. replace (S idx + length before) with (idx + S (length before)) by lia.
      f_equal. unfold last_read. rewrite last_cons. by destruct (last before).
    + intros b1 b2 tl Hb Hne. apply (H (c :: b1) b2 tl); [by rewrite Hb | exact Hne].
Qed.

(** The search runs over the positions where the pattern does not
    match. *)
Lemma search_over r : forall before pv tail idx,
  (forall b1 b2 pv', before = b1 ++ b2 -> b2 <> [] ->
     match_here r pv' (b2 ++ tail) = None) ->
  search r pv (before ++ tail) idx
  = search r (last_read pv before) tail (idx + length before).
Proof.
  induction before as [| c before IH]; intros pv tail idx H.
  - cbn [app length last_read last]. by rewrite Nat.add_0_r.
  - assert (H0 : match_here r pv (c :: before ++ tail) = None).
    { by apply (H [] (c :: before) pv). }
    cbn [app search]. rewrite H0, IH.
    + cbn [length]. replace (S idx + length before) with (idx + S (length before)) by lia.
      f_equal. unfold last_read. rewrite last_cons. by destruct (last before).
    + intros b1 b2 pv' Hb Hne. apply (H (c :: b1) b2 pv'); [by rewrite Hb | exact Hne].
Qed.

(** A class matched a fixed number of times reads that many characters
    of the class. *)
Lemma run_times_class p : forall w pv tail caps k,
  forallb p w = true ->
  run (MessageRenderer.times (length w) (RChar p)) (MState pv (w ++ tail) caps) k
  = k (MState (last_read pv w) tail caps).
Proof.
  induction w as [| c w IH]; intros pv tail caps k Hall; [reflexivity |].
  cbn [forallb] in Hall. apply andb_true_iff in Hall as [Hc Hall].
  cbn [length MessageRenderer.times run app rest Regex.caps]. rewrite Hc, IH by exact Hall.
  f_equal. f_equal. unfold last_read. rewrite last_cons. by destruct (last w).
Qed.

(** A class matched greedily, up to a number of times or any number of
    times, reads all the characters of the class there are, when the
    continuation accepts that. *)
Lemma run_up_to_class p : forall w n pv tail caps k res,
  forallb p w = true -> length w <= n -> stops_class p tail ->
  k (MState (last_read pv w) tail caps) = Some res ->
  run (MessageRenderer.up_to n (RChar p)) (MState pv (w ++ tail) caps) k = Some res.
Proof.
  induction w as [| c w IH]; intros n pv tail caps k res Hall Hn Hstop Hk.
  - destruct n as [| n]; [exact Hk |].
    cbn [MessageRenderer.up_to opt run app rest].
    destruct tail as [| x tail]; [exact Hk |].
    cbn [stops_class] in Hstop. by rewrite Hstop.
  - destruct n as [| n]; [simpl in Hn; lia |].
    cbn [forallb] in Hall. apply andb_true_iff in Hall as [Hc Hall].
    cbn [MessageRenderer.up_to opt run app rest Regex.caps]. rewrite Hc.
    rewrite (IH n (Some c) tail caps k res); [reflexivity | exact Hall | simpl in Hn; lia
                                             | exact Hstop |].
    unfold last_read in *. rewrite last_cons in Hk. by destruct (last w).
Qed.

Lemma star_loop_greedy_class p : forall w fuel pv tail caps k res,
  forallb p w = true -> length w < fuel -> stops_class p tail ->
  k (MState (last_read pv w) tail caps) = Some res ->
  star_loop false (RChar p) fuel (MState pv (w ++ tail) caps) k = Some res.
Proof.
  induction w as [| c w IH]; intros fuel pv tail caps k res Hall Hf Hstop Hk;
    (destruct fuel as [| fuel]; [simpl in Hf; lia |]); rewrite star_loop_S; cbv zeta.
  - cbn [run app rest].
    destruct tail as [| x tail]; [exact Hk |].
    cbn [stops_class] in Hstop. by rewrite Hstop.
  - cbn [forallb] in Hall. apply andb_true_iff in Hall as [Hc Hall].
    cbn [run app rest Regex.caps length]. rewrite Hc.
    rewrite (proj2 (Nat.ltb_lt _ _)) by lia.
    rewrite (IH fuel (Some c) tail caps k res); [reflexivity | exact Hall | simpl in Hf; lia
                                                | exact Hstop |].
    unfold last_read in *. rewrite last_cons in Hk. by destruct (last w).
Qed.

Lemma run_plus_class p w pv tail caps k res :
  w <> [] -> forallb p w = true -> stops_class p tail ->
  k (MState (last_read pv w) tail caps) = Some res ->
  run (plus (RChar p)) (MState pv (w ++ tail) caps) k = Some res.
Proof.
  intros Hne Hall Hstop Hk. destruct w as [| c w]; [done |].
  cbn [forallb] in Hall. apply andb_true_iff in Hall as [Hc Hall].
  unfold plus. cbn [app]. rewrite run_seq, run_char, Hc, run_star.
  apply star_loop_greedy_class; [exact Hall | cbn [rest]; rewrite length_app; lia
                                | exact Hstop |].
  unfold last_read in *. rewrite last_cons in Hk. by destruct (last w).
Qed.

End MatcherLaws.

(** ** The fenced block is extracted as it stands *)

Section FenceLaws.
Import JSString Regex JS GeminiAI Spec RegexTheory Words.
Local Open Scope list_scope.

Lemma list_ascii_of_string_app s1 s2 :
  list_ascii_of_string (s1 +:+ s2) = list_ascii_of_string s1 ++ list_ascii_of_string s2.
Proof.
  induction s1 as [| c s1 IH]; [reflexivity |].
  change (String c s1 +:+ s2) with (String c (s1 +:+ s2)).
  cbn [list_ascii_of_string app]. by rewrite IH.
Qed.

(** A string without [sub] has [sub] at no position. *)
Lemma not_includes s sub before tail :
  includes s sub = false ->
  list_ascii_of_string s <> before ++ list_ascii_of_string sub ++ tail.
Proof.
  intros Hno E.
  rewrite <- (string_of_list_ascii_of_string s), E, includes_of_app in Hno.
  discriminate.
Qed.

(** The opening marker cannot start inside [pre] when [pre] followed by
    the marker less its line break does not hold the marker. *)
Lemma opening_not_before pre b1 b2 tail tl :
  includes (pre +:+ "```json") opening = false ->
  list_ascii_of_string pre = b1 ++ b2 -> b2 <> [] ->
  b2 ++ list_ascii_of_string opening ++ tail <> list_ascii_of_string opening ++ tl.
Proof.
  intros Hno Hpre Hne E.
  assert (Hlen : 8 <= length (b2 ++ list_ascii_of_string "```json")).
  { rewrite length_app. destruct b2; [done |]. simpl. lia. }
  assert (Htake : take 8 (b2 ++ list_ascii_of_string "```json")
                  = list_ascii_of_string opening).
  { change (list_ascii_of_string opening)
      with (list_ascii_of_string "```json" ++ [newline]) in E.
    rewrite <- (app_assoc _ [newline] tail), (app_assoc b2) in E.
    apply (f_equal (take 8)) in E.
    rewrite take_app_le in E by exact Hlen.
    rewrite E. reflexivity. }
  apply (not_includes _ _ b1 (drop 8 (b2 ++ list_ascii_of_string "```json"))) in Hno.
  apply Hno. rewrite list_ascii_of_string_app, Hpre, <- Htake, take_drop.
  by rewrite app_assoc.
Qed.

(** The closing marker cannot start inside a body that does not hold it. *)
Lemma closing_not_inside body b1 c b2 post tl :
  includes body closing = false ->
  list_ascii_of_string body = b1 ++ c :: b2 ->
  c :: b2 ++ list_ascii_of_string closing ++ post <> list_ascii_of_string closing ++ tl.
Proof.
  intros Hno Hbody E.
  destruct b2 as [| c2 [| c3 [| c4 b2]]]; try (injection E; intros; subst; discriminate).
  injection E as -> -> -> -> _.
  apply (not_includes _ _ b1 b2) in Hno. by apply Hno.
Qed.

(** X18: a fenced block is extracted as it stands.  For a text made of
    any [pre], the opening marker with its line break, a [body], a line
    break with the closing marker, and any [post], where the opening
    marker does not occur earlier and the body does not hold a line
    break followed by the closing marker, the text [parseAIResponse]
    hands to [JSON.parse] is exactly [body]: the first block, up to its
    first closing fence. *)
Theorem X18_fence_extracted (pre body post : string) :
  includes (pre +:+ "```json") opening = false ->
  includes body closing = false ->
  fenced_json (pre +:+ opening +:+ body +:+ closing +:+ post) = Some body.
Proof.
  intros Hpre Hbody. unfold fenced_json, js_match.
  rewrite !list_ascii_of_string_app.
  set (M := list_ascii_of_string opening). set (C := list_ascii_of_string closing).
  set (B := list_ascii_of_string body). set (P := list_ascii_of_string post).
  change fence_regex
    with (RSeq (lit opening) (RSeq (RGroup 1 (star_lazy any_char)) (lit closing))).
  rewrite search_skip.
  2: { intros b1 b2 tl Hb Hne. by apply (opening_not_before pre b1 b2 _ tl). }
  set (pv := last_read None (list_ascii_of_string pre)).
  assert (Hm : match_here
                 (RSeq (lit opening) (RSeq (RGroup 1 (star_lazy any_char)) (lit closing)))
                 pv (M ++ B ++ C ++ P)
               = Some (MState (last_read (last_read (last_read pv M) B) C) P
                         (<[1 := body]> ∅))).
  { unfold match_here. cbn [run]. subst M. rewrite run_lit.
    unfold star_lazy. rewrite run_star.
    set (st1 := MState _ (B ++ C ++ P) ∅).
    apply (star_loop_lazy_any B _ st1 (C ++ P)).
    - cbn [rest st1]. rewrite length_app. lia.
    - reflexivity.
    - intros b1 c b2 pv' Hb. cbn [rest prev caps st1].
      apply run_lit_None. intros tl. cbn [rest].
      by apply (closing_not_inside body b1 c b2 P tl).
    - cbn [rest prev caps st1]. subst C. rewrite run_lit. f_equal. f_equal.
      f_equal. rewrite (consumed_reads _ _ B); [apply string_of_list_ascii_of_string |].
      unfold reads. reflexivity. }
  destruct (M ++ B ++ C ++ P) eqn:E; cbn [search]; rewrite Hm; reflexivity.
Qed.

(** An answer with a word before the block and a question after it. *)
Lemma X18_fence_extracted_witness :
  fenced_json ("Here you go:" +:+ opening +:+ "{ }" +:+ closing +:+ " Anything else?")
  = Some "{ }".
Proof.
  apply (X18_fence_extracted "Here you go:" "{ }" " Anything else?");
    vm_compute; reflexivity.
Defined.

End FenceLaws.

(** ** The renderer of messages *)

Section RendererLaws.
Import JSString Regex RegexTheory MessageRenderer Words.
Local Open Scope list_scope.

(** What [search] finds is a match of the pattern at the index it
    reports. *)
Lemma search_found r : forall s pv idx m,
  search r pv s idx = Some m ->
  exists before pv' w st,
    s = before ++ w ++ rest st
    /\ matches r (MState pv' (w ++ rest st) ∅) st
    /\ m = MatchResult (idx + length before) (string_of_list_ascii w) (caps st)
             (prev st) (rest st).
Proof.
  assert (Hhere : forall s pv idx m st,
    match_here r pv s = Some st ->
    m = MatchResult idx (consumed (MState pv s ∅) st) (caps st) (prev st) (rest st) ->
    exists before pv' w st,
      s = before ++ w ++ rest st
      /\ matches r (MState pv' (w ++ rest st) ∅) st
      /\ m = MatchResult (idx + length before) (string_of_list_ascii w) (caps st)
               (prev st) (rest st)).
  { intros s pv idx m st Hm ->. unfold match_here in Hm.
    apply run_sound in Hm as (st1 & Hmatch & [= ->]).
    destruct (matches_reads _ _ _ Hmatch) as (w & Hw).
    rewrite (consumed_reads _ _ w Hw). unfold reads in Hw. cbn [rest] in Hw. subst s.
    exists [], pv, w, st. by rewrite Nat.add_0_r. }
  induction s as [| c s IH]; intros pv idx m H; cbn [search] in H.
  - destruct (match_here r pv []) as [st |] eqn:E; [| discriminate].
    injection H as <-. by apply (Hhere [] pv idx _ st).
  - destruct (match_here r pv (c :: s)) as [st |] eqn:E.
    + injection H as <-. by apply (Hhere (c :: s) pv idx _ st).
    + apply IH in H as (before & pv' & w & st & -> & Hm & ->).
      exists (c :: before), pv', w, st. cbn [length app].
      by rewrite Nat.add_succ_r.
Qed.

Lemma matches_group_plus i p st st1 :
  matches (RGroup i (plus (RChar p))) st st1 ->
  exists w,
    reads st st1 w /\ w <> [] /\ forallb p w = true
    /\ caps st1 = <[i := string_of_list_ascii w]> (caps st).
Proof.
  inversion 1 as [| | | | | | | i' r sta stb Hp | |]; subst.
  apply matches_plus_class in Hp as (w & Hw & Hall & Hne & Hcaps).
  exists w. cbn [caps]. rewrite (consumed_reads _ _ w Hw), Hcaps.
  split; [exact Hw | done].
Qed.

(** A match of the pattern of links is a link as it is written. *)
Lemma matches_link st st1 :
  matches linkRegex st st1 ->
  exists w1 w2,
    reads st st1 (list_ascii_of_string
                    ("[" +:+ string_of_list_ascii w1 +:+ "]("
                     +:+ string_of_list_ascii w2 +:+ ")"))
    /\ w1 <> [] /\ w2 <> []
    /\ forallb (fun x => negb (Ascii.eqb x (char "]"))) w1 = true
    /\ forallb (fun x => negb (Ascii.eqb x (char ")"))) w2 = true
    /\ caps st1 = <[2 := string_of_list_ascii w2]>
                    (<[1 := string_of_list_ascii w1]> (caps st)).
Proof.
  unfold linkRegex. intros H.
  inversion H as [| | r1 r2 sta stb stc Ha H1 | | | | | | |]; subst. clear H.
  inversion H1 as [| | r1 r2 sta stc' std Hg1 H2 | | | | | | |]; subst. clear H1.
  inversion H2 as [| | r1 r2 sta std' ste Hb H3 | | | | | | |]; subst. clear H2.
  inversion H3 as [| | r1 r2 sta ste' stf Hg2 Hc | | | | | | |]; subst. clear H3.
  apply (matches_lit "[") in Ha as [Ra Ca].
  apply (matches_lit "](") in Hb as [Rb Cb].
  apply (matches_lit ")") in Hc as [Rc Cc].
  apply matches_group_plus in Hg1 as (w1 & R1 & N1 & F1 & C1).
  apply matches_group_plus in Hg2 as (w2 & R2 & N2 & F2 & C2).
  exists w1, w2. unfold reads in *.
  split; [| split; [exact N1 | split; [exact N2 | split; [exact F1 | split; [exact F2 |]]]]].
  - rewrite Ra, R1, Rb, R2, Rc.
    rewrite !list_ascii_of_string_app, !list_ascii_of_string_of_list_ascii.
    cbn [list_ascii_of_string app]. f_equal.
    rewrite <- !app_assoc. cbn [app]. rewrite <- !app_assoc. reflexivity.
  - rewrite Cc, C2, Cb, C1, Ca. reflexivity.
Qed.

Lemma free_of_includes c w :
  forallb (fun x => negb (Ascii.eqb x c)) w = true ->
  includes (string_of_list_ascii w) (String c "") = false.
Proof.
  induction w as [| x w IH]; [reflexivity |].
  cbn [forallb string_of_list_ascii includes String.prefix]. intros H.
  apply andb_true_iff in H as [Hx H]. rewrite (IH H), orb_false_r.
  destruct (Ascii.ascii_dec c x) as [-> | _]; [| reflexivity].
  by rewrite Ascii.eqb_refl in Hx.
Qed.

Lemma string_of_list_nonempty w : w <> [] -> string_of_list_ascii w <> "".
Proof. by destruct w. Qed.

Lemma parseContent_from_spells : forall fuel pv s,
  length s < fuel ->
  spelled_chars (parseContent_from fuel pv s) = s
  /\ Forall well_formed (parseContent_from fuel pv s).
Proof.
  induction fuel as [| fuel IH]; intros pv s Hf; [lia |].
  cbn [parseContent_from].
  destruct (search linkRegex pv s 0) as [m |] eqn:E.
  - apply search_found in E as (before & pv' & w & st & Hs & Hm & ->).
    apply matches_link in Hm as (w1 & w2 & Hr & N1 & N2 & F1 & F2 & Hcaps).
    unfold reads in Hr. cbn [rest] in Hr. apply app_inv_tail in Hr.
    unfold group. cbn [m_index m_prev m_rest m_caps]. rewrite Hcaps.
    rewrite lookup_insert_ne, lookup_insert_eq, lookup_insert_eq by done.
    cbn [default]. unfold id.
    destruct (IH (prev st) (rest st)) as [IHs IHw].
    { subst s w. rewrite !length_app, !list_ascii_of_string_app, !length_app in Hf.
      cbn [list_ascii_of_string length] in Hf. lia. }
    assert (Hlink : list_ascii_of_string
                      (spelled (Link (string_of_list_ascii w1) (string_of_list_ascii w2)))
                    = w) by (by rewrite Hr).
    assert (Hwf : well_formed (Link (string_of_list_ascii w1) (string_of_list_ascii w2))).
    { cbn [well_formed]. repeat split.
      - by apply string_of_list_nonempty.
      - by apply string_of_list_nonempty.
      - by apply free_of_includes.
      - by apply free_of_includes. }
    cbn [Nat.add]. subst s. rewrite take_app_length.
    destruct before as [| b before]; cbn [length Nat.ltb Nat.leb].
    + cbn [app]. unfold spelled_chars in *. cbn [flat_map].
      rewrite Hlink, IHs. split; [reflexivity | by constructor].
    + unfold spelled_chars in *. cbn [app flat_map].
      change (spelled (Text (string_of_list_ascii (b :: before))))
        with (string_of_list_ascii (b :: before)).
      rewrite list_ascii_of_string_of_list_ascii, Hlink, IHs.
      split; [reflexivity |].
      constructor; [done | by constructor].
  - destruct s as [| c s]; [split; [reflexivity | constructor] |].
    unfold spelled_chars. cbn [flat_map spelled].
    rewrite list_ascii_of_string_of_list_ascii, app_nil_r.
    split; [reflexivity |]. constructor; [done | constructor].
Qed.

Lemma concat_chars (l : list string) :
  list_ascii_of_string (String.concat "" l) = flat_map list_ascii_of_string l.
Proof.
  induction l as [| s l IH]; [reflexivity |].
  destruct l as [| s' l'].
  - cbn [String.concat flat_map]. by rewrite app_nil_r.
  - change (String.concat "" (s :: s' :: l'))
      with (s +:+ "" +:+ String.concat "" (s' :: l')).
    rewrite !list_ascii_of_string_app, IH. reflexivity.
Qed.

(** X19: [parseContent] loses nothing of a text and adds nothing to it:
    the parts it returns, each link spelled as [[text](url)], make up
    the text, in order.  Every part it returns has some text; a link has
    a text without a closing bracket and an address without a closing
    parenthesis, neither of them empty. *)
Theorem X19_parts_spell_the_text (text : string) :
  spelled_all (parseContent text) = text
  /\ Forall well_formed (parseContent text).
Proof.
  unfold parseContent, spelled_all.
  destruct (parseContent_from_spells (S (length (list_ascii_of_string text))) None
              (list_ascii_of_string text)) as [Hs Hw]; [lia |].
  split; [| exact Hw].
  rewrite <- (string_of_list_ascii_of_string (String.concat "" _)), concat_chars.
  unfold spelled_chars in Hs. rewrite flat_map_concat_map in Hs |- *.
  rewrite map_map. rewrite Hs. apply string_of_list_ascii_of_string.
Qed.

(** *** Addresses *)

Lemma includes_free_of c : forall s,
  includes s (String c "") = false ->
  forallb (fun x => negb (Ascii.eqb x c)) (list_ascii_of_string s) = true.
Proof.
  induction s as [| x s IH]; [reflexivity |].
  cbn [includes String.prefix list_ascii_of_string forallb]. intros H.
  apply orb_false_iff in H as [Hx H]. rewrite (IH H), andb_true_r.
  destruct (Ascii.ascii_dec c x) as [-> | Hne].
  - by destruct s.
  - apply negb_true_iff, Ascii.eqb_neq. congruence.
Qed.

Lemma free_of_head c b2 tail tl s :
  forallb (fun x => negb (Ascii.eqb x c)) b2 = true -> b2 <> [] ->
  b2 ++ tail <> list_ascii_of_string (String c s) ++ tl.
Proof.
  destruct b2 as [| x b2]; [done |]. cbn [forallb app list_ascii_of_string].
  intros H _ E. injection E as -> _. by rewrite Ascii.eqb_refl in H.
Qed.

Lemma free_of_suffix {p : ascii -> bool} b1 b2 :
  forallb p (b1 ++ b2) = true -> forallb p b2 = true.
Proof. rewrite forallb_app. by intros [_ H]%andb_true_iff. Qed.

(** Where the input does not start with a back quote, nothing is an
    address. *)
Lemma address_needs_backtick pv s :
  match s with c :: _ => Ascii.eqb c backtick = false | [] => True end ->
  match_here addressRegex pv s = None.
Proof.
  intros H. unfold match_here, addressRegex. cbn [run].
  apply (run_lit_None "`0x"). intros tl E. cbn [rest] in E. subst s.
  cbn [list_ascii_of_string app] in H. discriminate.
Qed.

Lemma no_address s : forall pv idx,
  forallb (fun x => negb (Ascii.eqb x backtick)) s = true ->
  search addressRegex pv s idx = None.
Proof.
  induction s as [| c s IH]; intros pv idx H; cbn [search].
  - by rewrite address_needs_backtick.
  - cbn [forallb] in H. apply andb_true_iff in H as [Hc H].
    rewrite address_needs_backtick by (by apply negb_true_iff). by apply IH.
Qed.

Lemma hex_digit_plain c :
  hex_digit c = true ->
  negb (Ascii.eqb c backtick) = true
  /\ negb (Ascii.eqb c (char "]")) = true /\ negb (Ascii.eqb c (char ")")) = true.
Proof. destruct c as [[] [] [] [] [] [] [] []]; intros H; try discriminate; done. Qed.

Lemma hex_digits_plain w c :
  c = backtick \/ c = char "]" \/ c = char ")" ->
  forallb hex_digit w = true ->
  forallb (fun x => negb (Ascii.eqb x c)) w = true.
Proof.
  intros Hc. induction w as [| x w IH]; [reflexivity |]. cbn [forallb]. intros H.
  apply andb_true_iff in H as [Hx H]. rewrite (IH H), andb_true_r.
  destruct (hex_digit_plain x Hx) as (H1 & H2 & H3).
  by destruct Hc as [-> | [-> | ->]].
Qed.

(** The address between back quotes is an address to the pattern. *)
Lemma address_matched (h post : list ascii) pv :
  forallb hex_digit h = true -> 40 <= length h <= 66 ->
  match_here addressRegex pv (list_ascii_of_string "`0x" ++ h ++ backtick :: post)
  = Some (MState (Some backtick) post
            (<[1 := string_of_list_ascii (list_ascii_of_string "`0x" ++ h ++ [backtick])]> ∅)).
Proof.
  intros Hhex Hlen. unfold match_here, addressRegex.
  change (run (RGroup 1 ?r) ?st ?k)
    with (run r st (fun st1 => k (MState (prev st1) (rest st1)
                                    (<[1 := consumed st st1]> (caps st1))))).
  rewrite run_seq, run_lit, run_seq.
  rewrite <- (take_drop 40 h), <- app_assoc.
  assert (H40 : length (take 40 h) = 40) by (rewrite length_take; lia).
  rewrite <- H40 at 1.
  rewrite run_times_class by (rewrite <- (take_drop 40 h) in Hhex;
                              rewrite forallb_app in Hhex;
                              by apply andb_true_iff in Hhex as [? _]).
  rewrite run_seq.
  erewrite run_up_to_class; [reflexivity | | | | ].
  - rewrite <- (take_drop 40 h), forallb_app in Hhex. by apply andb_true_iff in Hhex as [_ ?].
  - rewrite length_drop. lia.
  - reflexivity.
  - change (backtick :: post) with (list_ascii_of_string "`" ++ post).
    rewrite run_lit. cbn [prev rest caps]. f_equal. f_equal.
    f_equal. apply consumed_reads. unfold reads. cbn [rest].
    rewrite <- !app_assoc. reflexivity.
Qed.

Lemma filter_plain w :
  forallb (fun x => negb (Ascii.eqb x backtick)) w = true ->
  List.filter (fun c => negb (Ascii.eqb c backtick)) w = w.
Proof.
  induction w as [| x w IH]; [reflexivity |]. cbn [forallb List.filter]. intros H.
  apply andb_true_iff in H as [-> H]. by rewrite IH.
Qed.

Lemma without_backticks_address h :
  forallb hex_digit h = true ->
  without_backticks (string_of_list_ascii (list_ascii_of_string "`0x" ++ h ++ [backtick]))
  = "0x" +:+ string_of_list_ascii h.
Proof.
  intros Hhex. unfold without_backticks.
  rewrite list_ascii_of_string_of_list_ascii.
  cbn [list_ascii_of_string app List.filter]. 
  change (negb (Ascii.eqb backtick backtick)) with false.
  change (negb (Ascii.eqb (char "0") backtick)) with true.
  change (negb (Ascii.eqb (char "x") backtick)) with true. cbn iota.
  rewrite List.filter_app, filter_plain by (by apply hex_digits_plain; [left |]).
  cbn [List.filter]. change (negb (Ascii.eqb backtick backtick)) with false. cbn iota.
  rewrite app_nil_r. reflexivity.
Qed.

Lemma same_chars a b : list_ascii_of_string a = list_ascii_of_string b -> a = b.
Proof.
  intros H. by rewrite <- (string_of_list_ascii_of_string a), H,
                       string_of_list_ascii_of_string.
Qed.

Lemma string_of_list_ascii_app l1 l2 :
  string_of_list_ascii (l1 ++ l2) = string_of_list_ascii l1 +:+ string_of_list_ascii l2.
Proof.
  induction l1 as [| c l1 IH]; [reflexivity |].
  cbn [app string_of_list_ascii]. rewrite IH. reflexivity.
Qed.

(** The shortened address and the address of the explorer's page. *)
Lemma parseBlockchainData_address (pre h post : string) :
  includes pre "`" = false -> includes post "`" = false ->
  forallb hex_digit (list_ascii_of_string h) = true ->
  40 <= String.length h <= 66 ->
  parseBlockchainData (pre +:+ "`0x" +:+ h +:+ "`" +:+ post)
  = pre +:+ "[0x" +:+ String.substring 0 8 h +:+ "..."
    +:+ String.substring (String.length h - 8) 8 h
    +:+ "](https://opbnbscan.com/address/0x" +:+ h +:+ ")" +:+ post.
Proof.
  intros Hpre Hpost Hhex Hlen. unfold parseBlockchainData.
  apply (includes_free_of backtick) in Hpre, Hpost.
  rewrite !list_ascii_of_string_app.
  set (P := list_ascii_of_string pre) in *. set (H := list_ascii_of_string h) in *.
  set (Q := list_ascii_of_string post) in *.
  assert (HlenH : 40 <= length H <= 66).
  { subst H. clear -Hlen. rewrite <- (string_of_list_ascii_of_string h) in Hlen at 1 2.
    revert Hlen. generalize (list_ascii_of_string h). intros l.
    assert (E : String.length (string_of_list_ascii l) = length l).
    { induction l; simpl; congruence. }
    by rewrite E. }
  cbn [replace_from].
  rewrite search_over.
  2: { intros b1 b2 pv' Hb Hne. apply address_needs_backtick.
       subst P. rewrite Hb in Hpre. apply free_of_suffix in Hpre.
       destruct b2 as [| x b2]; [done |]. cbn [app forallb] in *.
       apply andb_true_iff in Hpre as [Hx _]. by apply negb_true_iff. }
  set (pv := last_read None P).
  assert (Hm := address_matched H Q pv Hhex HlenH).
  change (list_ascii_of_string "`" ++ Q) with (backtick :: Q).
  destruct (list_ascii_of_string "`0x" ++ H ++ backtick :: Q) as [| c0 s0] eqn:Es;
    [discriminate |].
  cbn [search]. rewrite Hm.
  cbn [m_index m_text m_prev m_rest consumed].
  replace (0 + length P) with (length P) by reflexivity.
  rewrite take_app_length.
  assert (Hc : consumed (MState pv (c0 :: s0) ∅) (MState (Some backtick) Q
                 (<[1 := string_of_list_ascii (list_ascii_of_string "`0x" ++ H ++ [backtick])]> ∅))
               = string_of_list_ascii (list_ascii_of_string "`0x" ++ H ++ [backtick])).
  { apply consumed_reads. unfold reads. cbn [rest]. rewrite <- Es.
    rewrite <- !app_assoc. reflexivity. }
  rewrite Hc.
  assert (Hrest : replace_from (length (P ++ c0 :: s0)) addressRegex address_link
                    (Some backtick) Q = Q).
  { destruct (length (P ++ c0 :: s0)); [reflexivity |].
    cbn [replace_from]. by rewrite no_address. }
  cbn [prev rest]. rewrite Hrest.
  unfold address_link. rewrite without_backticks_address by exact Hhex.
  subst P H Q. rewrite !string_of_list_ascii_app, !string_of_list_ascii_of_string.
  unfold slice_first, slice_end.
  change (String.length ("0x" +:+ h)) with (S (S (String.length h))).
  replace (S (S (String.length h)) - 8) with (S (S (String.length h - 8))) by lia.
  change ("0x" +:+ h) with (String (char "0") (String (char "x") h)).
  cbn [String.substring].
  apply same_chars.
  repeat (rewrite ?list_ascii_of_string_app, <- ?app_assoc;
          cbn [list_ascii_of_string app]).
  reflexivity.
Qed.


(** X20: [parseBlockchainData] leaves a text without a back quote as it
    is; and in a line that holds, between two back quotes, [0x] and 40 to
    66 hexadecimal digits -- an address or the hash of a transaction --
    with no other back quote, it replaces the quoted text by a link to
    [https://opbnbscan.com/address/] followed by the address or hash,
    labelled by its first ten characters, three dots and its last
    eight, and leaves the rest of the line as it is. *)
Theorem X20_address_link (pre h post : string) :
  (includes pre "`" = false -> parseBlockchainData pre = pre)
  /\ (includes pre "`" = false -> includes post "`" = false ->
      forallb hex_digit (list_ascii_of_string h) = true ->
      40 <= String.length h <= 66 ->
      parseBlockchainData (pre +:+ "`0x" +:+ h +:+ "`" +:+ post)
      = pre +:+ "[0x" +:+ String.substring 0 8 h +:+ "..."
        +:+ String.substring (String.length h - 8) 8 h
        +:+ "](https://opbnbscan.com/address/0x" +:+ h +:+ ")" +:+ post).
Proof.
  split.
  - intros Hpre. unfold parseBlockchainData. cbn [replace_from].
    rewrite no_address; [apply string_of_list_ascii_of_string |].
    by apply includes_free_of.
  - intros Hpre Hpost Hhex Hlen. by apply parseBlockchainData_address.
Qed.

(** *** A line with an address, rendered *)

(** A link as it is written is a link to the pattern. *)
Lemma link_matched (label url post : list ascii) pv :
  label <> [] -> url <> [] ->
  forallb (fun x => negb (Ascii.eqb x (char "]"))) label = true ->
  forallb (fun x => negb (Ascii.eqb x (char ")"))) url = true ->
  match_here linkRegex pv
    (list_ascii_of_string "[" ++ label ++ list_ascii_of_string "](" ++ url
     ++ list_ascii_of_string ")" ++ post)
  = Some (MState (Some (char ")")) post
            (<[2 := string_of_list_ascii url]>
               (<[1 := string_of_list_ascii label]> ∅))).
Proof.
  intros Nl Nu Fl Fu. unfold match_here, linkRegex, other_than.
  rewrite run_seq, run_lit, run_seq.
  change (run (RGroup 1 ?r) ?st ?k)
    with (run r st (fun st1 => k (MState (prev st1) (rest st1)
                                    (<[1 := consumed st st1]> (caps st1))))).
  erewrite run_plus_class; [reflexivity | exact Nl | exact Fl | reflexivity |].
  cbn [prev rest caps]. rewrite run_seq, run_lit, run_seq.
  change (run (RGroup 2 ?r) ?st ?k)
    with (run r st (fun st1 => k (MState (prev st1) (rest st1)
                                    (<[2 := consumed st st1]> (caps st1))))).
  erewrite run_plus_class; [reflexivity | exact Nu | exact Fu | reflexivity |].
  cbn [prev rest caps]. rewrite run_lit. f_equal. f_equal.
  rewrite (consumed_reads _ _ url) by (unfold reads; reflexivity).
  rewrite (consumed_reads _ _ label) by (unfold reads; reflexivity).
  reflexivity.
Qed.

Lemma no_link s : forall pv idx,
  forallb (fun x => negb (Ascii.eqb x (char "["))) s = true ->
  search linkRegex pv s idx = None.
Proof.
  intros pv idx H. destruct (search linkRegex pv s idx) as [m |] eqn:E; [| reflexivity].
  unfold linkRegex in E. apply search_lit_prefix in E as (before & tail & ->).
  rewrite forallb_app in H. apply andb_true_iff in H as [_ H]. discriminate.
Qed.

Lemma forallb_substring (p : ascii -> bool) : forall s n m,
  forallb p (list_ascii_of_string s) = true ->
  forallb p (list_ascii_of_string (String.substring n m s)) = true.
Proof.
  induction s as [| c s IH]; intros n m H.
  - by destruct n, m.
  - cbn [list_ascii_of_string forallb] in H. apply andb_true_iff in H as [Hc H].
    destruct n as [| n]; [destruct m as [| m]; [reflexivity |] |];
      cbn [String.substring list_ascii_of_string forallb].
    + by rewrite Hc, IH.
    + by apply IH.
Qed.

(** X21: a line that shows an address or a hash between back quotes
    (as the message of a successful transaction does) is rendered with
    the address as a link: for a line with no other back quote and no
    opening bracket, [renderLine] returns the text before, if any, one
    link to [https://opbnbscan.com/address/0x...] labelled [0x], the
    first eight digits, three dots and the last eight digits, and the
    text after, if any. *)
Theorem X21_address_rendered (pre h post : string) :
  includes pre "`" = false -> includes post "`" = false ->
  includes pre "[" = false -> includes post "[" = false ->
  forallb hex_digit (list_ascii_of_string h) = true ->
  40 <= String.length h <= 66 ->
  renderLine (pre +:+ "`0x" +:+ h +:+ "`" +:+ post)
  = (if is_empty pre then [] else [Text pre])
    ++ Link ("0x" +:+ String.substring 0 8 h +:+ "..."
             +:+ String.substring (String.length h - 8) 8 h)
            ("https://opbnbscan.com/address/0x" +:+ h)
    :: (if is_empty post then [] else [Text post]).
Proof.
  intros Hpre Hpost Bpre Bpost Hhex Hlen. unfold renderLine.
  rewrite parseBlockchainData_address by assumption.
  set (label := "0x" +:+ String.substring 0 8 h +:+ "..."
                +:+ String.substring (String.length h - 8) 8 h).
  set (url := "https://opbnbscan.com/address/0x" +:+ h).
  assert (Etext : pre +:+ "[0x" +:+ String.substring 0 8 h +:+ "..."
                  +:+ String.substring (String.length h - 8) 8 h
                  +:+ "](https://opbnbscan.com/address/0x" +:+ h +:+ ")" +:+ post
                  = pre +:+ "[" +:+ label +:+ "](" +:+ url +:+ ")" +:+ post).
  { subst label url. apply same_chars.
    repeat (rewrite ?list_ascii_of_string_app, <- ?app_assoc;
            cbn [list_ascii_of_string app]).
    reflexivity. }
  rewrite Etext. clear Etext.
  assert (Fl : forallb (fun x => negb (Ascii.eqb x (char "]")))
                 (list_ascii_of_string label) = true).
  { subst label. rewrite !list_ascii_of_string_app, !forallb_app.
    rewrite !forallb_substring
      by (apply hex_digits_plain; [right; left; reflexivity | exact Hhex]).
    reflexivity. }
  assert (Fu : forallb (fun x => negb (Ascii.eqb x (char ")")))
                 (list_ascii_of_string url) = true).
  { subst url. rewrite !list_ascii_of_string_app, !forallb_app.
    rewrite (hex_digits_plain (list_ascii_of_string h) (char ")"))
      by (first [right; right; reflexivity | exact Hhex]).
    reflexivity. }
  assert (Nl : list_ascii_of_string label <> []) by (by subst label).
  assert (Nu : list_ascii_of_string url <> []) by (by subst url).
  apply (includes_free_of (char "[")) in Bpre, Bpost.
  unfold parseContent. rewrite !list_ascii_of_string_app.
  set (P := list_ascii_of_string pre) in *. set (Q := list_ascii_of_string post) in *.
  set (L := list_ascii_of_string label) in *. set (U := list_ascii_of_string url) in *.
  cbn [parseContent_from]. unfold linkRegex at 1.
  rewrite search_skip.
  2: { intros b1 b2 tl Hb Hne. apply free_of_head; [| exact Hne].
       subst P. rewrite Hb in Bpre. by apply free_of_suffix in Bpre. }
  fold linkRegex. set (pv := last_read None P).
  pose proof (link_matched L U Q pv Nl Nu Fl Fu) as Hm.
  destruct (list_ascii_of_string "[" ++ L ++ list_ascii_of_string "](" ++ U
            ++ list_ascii_of_string ")" ++ Q) as [| c0 s0] eqn:Es; [discriminate |].
  cbn [search]. rewrite Hm. unfold group.
  cbn [m_index m_caps m_prev m_rest prev rest caps].
  rewrite lookup_insert_ne, lookup_insert_eq, lookup_insert_eq by done.
  cbn [default]. unfold id. subst L U. rewrite !string_of_list_ascii_of_string.
  replace (0 + length P) with (length P) by reflexivity. rewrite take_app_length.
  assert (Hrest : parseContent_from (length (P ++ c0 :: s0)) (Some (char ")")) Q
                  = if is_empty post then [] else [Text post]).
  { rewrite length_app. cbn [length]. rewrite Nat.add_succ_r.
    cbn [parseContent_from]. rewrite no_link by exact Bpost.
    subst Q. destruct post as [| q post]; [reflexivity |].
    cbn [list_ascii_of_string is_empty].
    change (q :: list_ascii_of_string post) with (list_ascii_of_string (String q post)).
    by rewrite string_of_list_ascii_of_string. }
  rewrite Hrest. subst P. destruct pre as [| p pre]; [reflexivity |].
  cbn [list_ascii_of_string length Nat.ltb Nat.leb is_empty app].
  change (p :: list_ascii_of_string pre) with (list_ascii_of_string (String p pre)).
  by rewrite string_of_list_ascii_of_string.
Qed.

(** The line that announces a contract. *)
Lemma X21_address_rendered_witness :
  renderLine "Contract: `0x52908400098527886E0F7030069857D2E4169EE7` is live"
  = [Text "Contract: ";
     Link "0x52908400...E4169EE7"
          "https://opbnbscan.com/address/0x52908400098527886E0F7030069857D2E4169EE7";
     Text " is live"].
Proof.
  apply (X21_address_rendered "Contract: " "52908400098527886E0F7030069857D2E4169EE7"
           " is live"); try (vm_compute; reflexivity).
  cbn [String.length]. lia.
Defined.

End RendererLaws.

(** ** The registry of tokens *)

Section FactoryLaws.
Import TokenFactory.
Local Open Scope Z_scope.
Local Open Scope list_scope.

Lemma checked_Some x y : checked x = Some y <-> (0 <= x < 2 ^ 256 /\ y = x).
Proof.
  unfold checked. destruct (Z.leb_spec 0 x), (Z.ltb_spec x (2 ^ 256)); cbn [andb];
    split; try (intros [= <-]; lia); try (intros [? ->]; reflexivity || lia);
    intros H'; try discriminate; lia.
Qed.

Lemma checked_None x : checked x = None <-> (x < 0 \/ 2 ^ 256 <= x).
Proof.
  unfold checked. destruct (Z.leb_spec 0 x), (Z.ltb_spec x (2 ^ 256)); cbn [andb];
    split; intros H'; try discriminate; try lia; reflexivity.
Qed.

Lemma checked_in x : 0 <= x < 2 ^ 256 -> checked x = Some x.
Proof. intros H. by apply checked_Some. Qed.

(** X22: [getAllTokens] is a window on the list of tokens.  It reverts
    exactly when the offset is not below the number of tokens (so it
    always reverts on an empty registry) or when offset plus limit leaves
    [uint256]; otherwise it returns the addresses of the tokens from the
    offset on, [limit] of them or as many as there are.  Two windows
    that follow one another make up the window of their joint length. *)
Theorem X22_token_pages (f : Factory) (offset limit : Z) :
  uint 256 offset -> uint 256 limit ->
  let tokens := map tokenAddress (allTokens f) in
  (getAllTokens f offset limit = None
   <-> (Z.of_nat (length tokens) <= offset \/ 2 ^ 256 <= offset + limit))
  /\ (forall page,
        getAllTokens f offset limit = Some page ->
        page = take (Z.to_nat limit) (drop (Z.to_nat offset) tokens)
        /\ Z.of_nat (length page)
           = Z.min limit (Z.of_nat (length tokens) - offset))
  /\ (forall limit' page page',
        uint 256 limit' -> offset + limit + limit' < 2 ^ 256 ->
        getAllTokens f offset limit = Some page ->
        getAllTokens f (offset + limit) limit' = Some page' ->
        getAllTokens f offset (limit + limit') = Some (page ++ page')).
Proof.
  intros Ho Hl tokens. unfold uint in *.
  assert (Hlen : length tokens = length (allTokens f)) by apply length_map.
  assert (Hget : forall o l, 0 <= o -> 0 <= l ->
    o < Z.of_nat (length tokens) -> o + l < 2 ^ 256 ->
    getAllTokens f o l = Some (take (Z.to_nat l) (drop (Z.to_nat o) tokens))).
  { intros o l Ho' Hl' Hin Hsum. unfold getAllTokens.
    rewrite <- Hlen. rewrite (proj2 (Z.ltb_lt _ _) Hin). cbn [negb].
    rewrite checked_in by lia. cbn [mbind option_bind].
    set (e := if (Z.of_nat (length tokens) <? o + l) then _ else _).
    assert (He : e = Z.min (o + l) (Z.of_nat (length tokens))).
    { subst e. destruct (Z.ltb_spec (Z.of_nat (length tokens)) (o + l)); lia. }
    rewrite checked_in by lia. cbn [mbind option_bind]. f_equal. subst tokens.
    rewrite <- firstn_map, <- skipn_map.
    set (l0 := drop (Z.to_nat o) (map tokenAddress (allTokens f))).
    assert (Hl0 : (length l0 = length (allTokens f) - Z.to_nat o)%nat).
    { subst l0. by rewrite length_drop, length_map. }
    rewrite length_map in He.
    destruct (Z.le_ge_cases (o + l) (Z.of_nat (length (allTokens f)))).
    - replace (e - o) with l by lia. reflexivity.
    - rewrite (take_ge l0 (Z.to_nat l)) by lia.
      rewrite take_ge by lia. reflexivity. }
  split; [| split].
  - destruct (Z.ltb_spec offset (Z.of_nat (length tokens))) as [Hin | Hout].
    + destruct (Z.ltb_spec (offset + limit) (2 ^ 256)) as [Hsum | Hsum].
      * rewrite Hget by lia. split; [discriminate | lia].
      * split; [intros _; by right |]. intros _. unfold getAllTokens.
        rewrite <- Hlen, (proj2 (Z.ltb_lt _ _) Hin). cbn [negb].
        by rewrite (proj2 (checked_None _)) by lia.
    + split; [intros _; by left |]. intros _. unfold getAllTokens.
      by rewrite <- Hlen, (proj2 (Z.ltb_ge _ _) Hout).
  - intros page H.
    destruct (Z.ltb_spec offset (Z.of_nat (length tokens))) as [Hin | Hout].
    2: { unfold getAllTokens in H. rewrite <- Hlen in H.
         rewrite (proj2 (Z.ltb_ge _ _) Hout) in H. discriminate. }
    destruct (Z.ltb_spec (offset + limit) (2 ^ 256)) as [Hsum | Hsum].
    2: { unfold getAllTokens in H. rewrite <- Hlen in H.
         rewrite (proj2 (Z.ltb_lt _ _) Hin) in H. cbn [negb] in H.
         rewrite (proj2 (checked_None _)) in H by lia. discriminate. }
    rewrite Hget in H by lia. injection H as <-.
    split; [reflexivity |]. rewrite length_take, length_drop. lia.
  - intros limit' page page' Hl' Hsum H1 H2.
    destruct (Z.ltb_spec offset (Z.of_nat (length tokens))) as [Hin | Hout].
    2: { unfold getAllTokens in H1. rewrite <- Hlen in H1.
         rewrite (proj2 (Z.ltb_ge _ _) Hout) in H1. discriminate. }
    destruct (Z.ltb_spec (offset + limit) (Z.of_nat (length tokens))) as [Hin2 | Hout2].
    2: { unfold getAllTokens in H2. rewrite <- Hlen in H2.
         rewrite (proj2 (Z.ltb_ge _ _) Hout2) in H2. discriminate. }
    rewrite Hget in H1, H2 |- * by lia. injection H1 as <-. injection H2 as <-.
    f_equal. rewrite !Z2Nat.inj_add by lia.
    rewrite <- take_take_drop, drop_drop. reflexivity.
Qed.

(** Two tokens in the registry: a page that starts behind them
    reverts. *)
Lemma X22_token_pages_witness :
  getAllTokens (after Examples.launches deployed_factory) 2 10 = None.
Proof.
  assert (Hoffset : uint 256 2) by (unfold uint; lia).
  assert (Hlimit : uint 256 10) by (unfold uint; lia).
  assert (Hbehind : Z.of_nat (length (map tokenAddress
                      (allTokens (after Examples.launches deployed_factory)))) <= 2)
    by (vm_compute; discriminate).
  pose proof (X22_token_pages (after Examples.launches deployed_factory) 2 10
                Hoffset Hlimit) as H.
  cbv zeta in H. exact (proj2 (proj1 H) (or_introl Hbehind)).
Defined.

(** *** The registry *)

Lemma wrap_succ x : wrap 256 (wrap 256 x + 1) = wrap 256 (x + 1).
Proof. unfold wrap. by rewrite Z.add_mod_idemp_l. Qed.

Lemma after_from calls : forall f,
  allTokens (after calls f)
  = allTokens f
    ++ map (fun c => {| tokenAddress := deployed_at c; totalSupply := with_supply c;
                        decimals := with_decimals c;
                        timestamp := wrap 32 (at_time c) |})
         (List.filter accepted calls)
  /\ (forall creator,
        tokens_of (after calls f) creator
        = tokens_of f creator
          ++ map (fun c => {| tokenAddress := deployed_at c;
                              totalSupply := with_supply c;
                              decimals := with_decimals c;
                              timestamp := wrap 32 (at_time c) |})
               (List.filter (fun c => accepted c && (by_sender c =? creator)) calls))
  /\ wrap 256 (totalTokensCreated (after calls f))
     = wrap 256 (totalTokensCreated f
                 + Z.of_nat (length (List.filter accepted calls))).
Proof.
  induction calls as [| c calls IH]; intros f.
  - cbn. rewrite app_nil_r, Z.add_0_r. split; [done | split; [| done]].
    intros creator. by rewrite app_nil_r.
  - change (after (c :: calls) f)
      with (after calls
              match createToken f (by_sender c) (at_time c) (deployed_at c)
                      (with_supply c) (with_decimals c) with
              | Some (f', _) => f'
              | None => f
              end).
    cbn [List.filter].
    assert (Hacc : accepted c
                   = match minted (with_supply c) (with_decimals c) with
                     | Some _ => true | None => false end) by reflexivity.
    unfold createToken.
    destruct (minted (with_supply c) (with_decimals c)) as [amount |] eqn:Em;
      rewrite Hacc; cbn [mbind option_bind andb]; [| apply IH].
    match goal with
    | |- context [after calls ?g] => destruct (IH g) as (Hall & Hby & Hcount)
    end.
    cbn [allTokens totalTokensCreated] in *. split; [| split].
    + rewrite Hall. cbn [map]. by rewrite <- app_assoc.
    + intros creator. rewrite Hby. unfold tokens_of at 1. cbn [createdTokensByUser].
      destruct (Z.eqb_spec (by_sender c) creator) as [E | Hne]; cbn iota.
      * rewrite E, lookup_insert_eq. cbn [default map app]. unfold id.
        by rewrite <- app_assoc.
      * rewrite lookup_insert_ne by done. reflexivity.
    + rewrite Hcount. cbn [length]. unfold wrap.
      rewrite Z.add_mod_idemp_l by lia. f_equal. lia.
Qed.

(** X23: the registry lists the deployments, and only them.  After
    whatever calls of [createToken] on the contract as deployed, those
    that revert left aside, the list of all tokens holds the addresses of
    the deployments in the order of the calls, the list of a creator the
    addresses of the deployments that creator made, and the count is the
    length of the list of all tokens (modulo 2^256). *)
Theorem X23_registry (calls : list creation) :
  let f := after calls deployed_factory in
  map tokenAddress (allTokens f) = map deployed_at (List.filter accepted calls)
  /\ (forall creator,
        getCreatedTokens f creator
        = map deployed_at
            (List.filter (fun c => accepted c && (by_sender c =? creator)) calls))
  /\ getTotalTokensCount f = wrap 256 (Z.of_nat (length (allTokens f))).
Proof.
  intros f. destruct (after_from calls deployed_factory) as (Hall & Hby & Hcount).
  fold f in Hall, Hby, Hcount. cbn [allTokens deployed_factory app] in Hall.
  split; [| split].
  - rewrite Hall, map_map. reflexivity.
  - intros creator. unfold getCreatedTokens. rewrite Hby.
    unfold tokens_of at 1. cbn [deployed_factory createdTokensByUser].
    rewrite lookup_empty. cbn [default app]. by rewrite map_map.
  - unfold getTotalTokensCount. rewrite Hall, length_map.
    cbn [totalTokensCreated deployed_factory] in Hcount. rewrite Z.add_0_l in Hcount.
    rewrite <- Hcount. unfold wrap. symmetry. apply Z.mod_small.
    assert (G : forall cs g, 0 <= totalTokensCreated g < 2 ^ 256 ->
                0 <= totalTokensCreated (after cs g) < 2 ^ 256).
    { induction cs as [| c cs IHc]; intros g Hg; [exact Hg |].
      cbn [after fold_left]. fold (after cs). apply IHc.
      unfold createToken. destruct (minted _ _); cbn [mbind option_bind]; [| exact Hg].
      cbn [totalTokensCreated]. unfold wrap. apply Z.mod_pos_bound. lia. }
    apply G. cbn. lia.
Qed.

(** *** Decimals *)

(** X24: the supply a new token mints is [totalSupply * 10^decimals],
    computed in [uint256], and [createToken] reverts when that leaves
    the type.  With 48 decimals or fewer no supply of [uint96] makes it
    revert; with 78 decimals or more every call reverts, whatever the
    supply. *)
Theorem X24_decimals_in_range (f : Factory) (sender now deployed : Z)
    (totalSupply decimals : Z) :
  uint 96 totalSupply -> uint 8 decimals ->
  (decimals <= 48 ->
   minted totalSupply decimals = Some (totalSupply * 10 ^ decimals)
   /\ exists f', createToken f sender now deployed totalSupply decimals
                 = Some (f', deployed))
  /\ (78 <= decimals ->
      minted totalSupply decimals = None
      /\ createToken f sender now deployed totalSupply decimals = None).
Proof.
  unfold uint. intros Hs Hd. split.
  - intros Hle.
    assert (Hpow : 0 < 10 ^ decimals <= 10 ^ 48).
    { split; [apply Z.pow_pos_nonneg; lia | apply Z.pow_le_mono_r; lia]. }
    assert (Hm : minted totalSupply decimals = Some (totalSupply * 10 ^ decimals)).
    { unfold minted. rewrite checked_in.
      2: { split; [lia |]. apply Z.le_lt_trans with (10 ^ 48); [lia | reflexivity]. }
      cbn [mbind option_bind]. apply checked_in. split; [nia |].
      apply Z.le_lt_trans with (2 ^ 96 * 10 ^ 48); [nia | reflexivity]. }
    split; [exact Hm |]. unfold createToken. rewrite Hm. cbn [mbind option_bind].
    by eexists.
  - intros Hge.
    assert (Hm : minted totalSupply decimals = None).
    { unfold minted. rewrite (proj2 (checked_None _)); [reflexivity |]. right.
      apply Z.le_trans with (10 ^ 78); [by vm_compute | apply Z.pow_le_mono_r; lia]. }
    split; [exact Hm |]. unfold createToken. by rewrite Hm.
Qed.

(** A million tokens of 18 decimals. *)
Lemma X24_decimals_in_range_witness :
  minted 1000000 18 = Some (1000000 * 10 ^ 18).
Proof.
  destruct (X24_decimals_in_range deployed_factory 161 1762041600 4096 1000000 18)
    as [Hlow _]; [unfold uint; lia | unfold uint; lia |].
  apply Hlow. lia.
Defined.

End FactoryLaws.
